(** * Botan TLS record layer and the modular-inverse fuzzer reference

    A shallow embedding of [src/lib/tls/tls_record.cpp] (record writer,
    record reader, cipher-state nonce and associated-data formation) and of
    the reference inverse [inverse_mod_ref] of the inverse-mod fuzzer,
    together with the properties the specification states about them.

    Conventions.  Every [size_t], [uint16_t] and [uint64_t] value is a [Z];
    a cast to a narrower type is written out as [mod 2^w].  An octet is a
    [Byte.byte].  A C++ exception is the [Throw] branch of [result]; code
    that mutates its arguments returns the new values. *)

From Stdlib Require Import ZArith List Bool Lia.
From Stdlib Require Strings.Byte.
Import ListNotations.
Local Open Scope Z_scope.

(* ================================================================== *)
(** * Octets and the load/store helpers *)
(* ================================================================== *)

Module Bytes.

Definition byte : Type := Byte.byte.

Definition Z_of_byte (b : byte) : Z := Z.of_N (Byte.to_N b).

(** [static_cast<uint8_t>(z)]. *)
Definition byte_of_Z (z : Z) : byte :=
  match Byte.of_N (Z.to_N (z mod 256)) with
  | Some b => b
  | None => Byte.x00
  end.

Definition byte_xor (a b : byte) : byte :=
  byte_of_Z (Z.lxor (Z_of_byte a) (Z_of_byte b)).

(** [v.size()] *)
Definition size {A : Type} (l : list A) : Z := Z.of_nat (length l).

Definition zeros (n : nat) : list byte := repeat Byte.x00 n.

(** Modelled from the spec: [get_byte] of [botan/loadstor.h] is not part of
    the sources.  [get_byte(i, x)] for an integer type of [sizeofT] octets is
    octet [i] of [x] counted from the most significant one (the spec's
    big-endian [be16], [be64]). *)
Definition get_byte (sizeofT byte_num input : Z) : byte :=
  byte_of_Z (Z.shiftr input (8 * (sizeofT - 1 - byte_num))).

(** Modelled from the spec: [store_be(uint64_t, out)] of [botan/loadstor.h],
    the spec's [be64]: the eight octets of the value, most significant
    first. *)
Definition store_be64 (x : Z) : list byte :=
  map (fun i => get_byte 8 i x) [0; 1; 2; 3; 4; 5; 6; 7].

(** Modelled from the spec: [make_uint16(i0, i1)] of [botan/loadstor.h],
    the big-endian 16-bit value [(i0 << 8) | i1]. *)
Definition make_uint16 (i0 i1 : byte) : Z :=
  Z.lor (Z.shiftl (Z_of_byte i0) 8) (Z_of_byte i1).

(** Modelled from the spec: [load_be<uint64_t>(in, 0)] of
    [botan/loadstor.h], the big-endian value of the first eight octets. *)
Definition load_be64 (inp : list byte) : Z :=
  fold_left (fun acc b => Z.lor (Z.shiftl acc 8) (Z_of_byte b)) (firstn 8 inp) 0.

(** Modelled from the spec: [xor_buf(out, in, n)] of [botan/mem_ops.h]:
    [out[i] ^= in[i]] for [i < n]. *)
Fixpoint xor_buf (out inp : list byte) (n : nat) : list byte :=
  match n, out, inp with
  | S n', o :: out', i :: inp' => byte_xor o i :: xor_buf out' inp' n'
  | _, _, _ => out
  end.

(** Writing the octets [src] into [buf] from index [off] on: what
    [copy_mem(&buf[off], src, n)] and [store_be(x, &buf[off])] do to the
    vector [buf].  (The C++ code writes inside the vector; an offset past
    the end would be a memory error there.) *)
Definition write_at (buf : list byte) (off : nat) (src : list byte) : list byte :=
  firstn off buf ++ src ++ skipn (off + length src) buf.

(** The spec's words for the nonce of [AEAD_XOR_12]: octet-wise XOR of two
    strings of the same length. *)
Fixpoint xor_bytes (a b : list byte) : list byte :=
  match a, b with
  | x :: a', y :: b' => byte_xor x y :: xor_bytes a' b'
  | _, _ => []
  end.

(** The spec's words for [be16] and [be64]: the big-endian value of an
    octet string. *)
Definition be_value (l : list byte) : Z :=
  fold_left (fun acc b => acc * 256 + Z_of_byte b) l 0.

End Bytes.
Export Bytes.

(* ================================================================== *)
(** * The record layer *)
(* ================================================================== *)

Module TLS.

(** ** Errors *)

Inductive Alert : Type :=
| BAD_RECORD_MAC
| RECORD_OVERFLOW
| DECODE_ERROR
| PROTOCOL_VERSION.

(** The exceptions the record layer raises or lets through; all of them
    derive from [std::exception].  [Internal_Error] is a failed assertion,
    [Invalid_Authentication_Tag] what an AEAD engine raises by itself. *)
Inductive exn : Type :=
| TLS_Exception (a : Alert)
| Decoding_Error
| Invalid_State
| Internal_Error
| Invalid_Authentication_Tag.

Inductive result (A : Type) : Type :=
| Ok (a : A)
| Throw (e : exn).
Arguments Ok {A} a.
Arguments Throw {A} e.

Definition bind {A B : Type} (m : result A) (k : A -> result B) : result B :=
  match m with
  | Ok a => k a
  | Throw e => Throw e
  end.

Notation "x <- m ;; k" := (bind m (fun x => k))
  (at level 61, m at next level, right associativity).

(** Modelled from the spec: the macro [BOTAN_ASSERT] of [botan/assert.h] is
    not part of the sources.  A violated invariant is the spec's *internal
    error*; it is raised as an exception like the others (the DTLS reader
    has its cipher-state assertion inside the [try] block). *)
Definition BOTAN_ASSERT (cond : bool) : result unit :=
  if cond then Ok tt else Throw Internal_Error.

(** ** Protocol constants and small types *)

(** Modelled from the spec: the constants of [tls_magic.h], which is not
    part of the sources: [TLS_HEADER_SIZE (5)], [DTLS_HEADER_SIZE (13)],
    [MAX_CIPHERTEXT_SIZE = 2^14 + 2048]. *)
Definition TLS_HEADER_SIZE : Z := 5.
Definition DTLS_HEADER_SIZE : Z := TLS_HEADER_SIZE + 8.
Definition MAX_CIPHERTEXT_SIZE : Z := 2 ^ 14 + 2048.

Record Protocol_Version : Type := mkVersion {
  major_version : byte;
  minor_version : byte
}.

(** Modelled from the spec: [Protocol_Version::is_datagram_protocol] is not
    part of the sources; `true exactly when [major == 254]'. *)
Definition is_datagram_protocol (v : Protocol_Version) : bool :=
  Z_of_byte (major_version v) =? 254.

(** [Record_Type]: the content type octet of a record, or the internal
    sentinel [NO_RECORD], which is no octet value. *)
Inductive Record_Type : Type :=
| Record_Type_of (b : byte)
| NO_RECORD.

Definition CHANGE_CIPHER_SPEC : Record_Type := Record_Type_of (byte_of_Z 20).
Definition ALERT : Record_Type := Record_Type_of (byte_of_Z 21).
Definition HANDSHAKE : Record_Type := Record_Type_of (byte_of_Z 22).
Definition APPLICATION_DATA : Record_Type := Record_Type_of (byte_of_Z 23).
Definition HEARTBEAT : Record_Type := Record_Type_of (byte_of_Z 24).

(** [static_cast<uint8_t>(record_type)] *)
Definition Record_Type_u8 (t : Record_Type) : byte :=
  match t with
  | Record_Type_of b => b
  | NO_RECORD => Byte.x00
  end.

Inductive Nonce_Format : Type :=
| CBC_MODE
| AEAD_XOR_12
| AEAD_IMPLICIT_4.

(** ** The AEAD engine

    [AEAD_Mode] is an external collaborator.  [output_length] and
    [minimum_final_size] are its two size queries.  [process nonce ad buf]
    is what [set_associated_data(ad); start(nonce); finish(out, offset)]
    does to the octets [buf] that [out] holds from [offset] on: the octets
    it leaves in their place and the exception [finish] raises, if any.
    The engine is a function of the nonce, the associated data and the
    input, as an AEAD and the CBC+HMAC composite with explicit IVs are. *)
Record AEAD_Mode : Type := mkAEAD {
  output_length : Z -> Z;
  minimum_final_size : Z;
  process : list byte -> list byte -> list byte -> list byte * option exn
}.

(** [RandomNumberGenerator]: a tape of octets and a read position. *)
Record RandomNumberGenerator : Type := mkRng {
  rng_tape : nat -> byte;
  rng_pos : nat
}.

Definition randomize (rng : RandomNumberGenerator) (n : nat)
  : list byte * RandomNumberGenerator :=
  (map (rng_tape rng) (seq (rng_pos rng) n),
   mkRng (rng_tape rng) (rng_pos rng + n)).

(** ** Connection_Cipher_State *)

Record Connection_Cipher_State : Type := mkCS {
  nonce_format : Nonce_Format;
  nonce_bytes_from_record : Z;
  nonce_bytes_from_handshake : Z;
  m_nonce : list byte;
  aead : AEAD_Mode
}.

Definition set_m_nonce (cs : Connection_Cipher_State) (n : list byte)
  : Connection_Cipher_State :=
  mkCS (nonce_format cs) (nonce_bytes_from_record cs)
       (nonce_bytes_from_handshake cs) n (aead cs).

(** [Connection_Cipher_State::aead_nonce(uint64_t seq, RandomNumberGenerator&)],
    the first of the two overloads of [aead_nonce]:
    the nonce of the record about to be written.  In [CBC_MODE] the stored
    nonce is swapped out on its first use. *)
Definition aead_nonce_write (cs : Connection_Cipher_State) (seq : Z)
    (rng : RandomNumberGenerator)
  : result (list byte * Connection_Cipher_State * RandomNumberGenerator) :=
  match nonce_format cs with
  | CBC_MODE =>
      if negb (size (m_nonce cs) =? 0) then
        Ok (m_nonce cs, set_m_nonce cs [], rng)
      else
        let '(nonce, rng') := randomize rng (Z.to_nat (nonce_bytes_from_record cs)) in
        Ok (nonce, cs, rng')
  | AEAD_XOR_12 =>
      let nonce := zeros 12 in
      let nonce := write_at nonce 4 (store_be64 seq) in
      let nonce := xor_buf nonce (m_nonce cs) (length (m_nonce cs)) in
      Ok (nonce, cs, rng)
  | AEAD_IMPLICIT_4 =>
      _ <- BOTAN_ASSERT (size (m_nonce cs) =? 4) ;;
      let nonce := zeros 12 in
      let nonce := write_at nonce 0 (firstn 4 (m_nonce cs)) in
      let nonce := write_at nonce (Z.to_nat (nonce_bytes_from_handshake cs))
                            (store_be64 seq) in
      Ok (nonce, cs, rng)
  end.

(** [Connection_Cipher_State::aead_nonce(const uint8_t record[], size_t
    record_len, uint64_t seq)]: the nonce of a record that was read. *)
Definition aead_nonce_read (cs : Connection_Cipher_State)
    (record : list byte) (record_len : Z) (seq : Z) : result (list byte) :=
  match nonce_format cs with
  | CBC_MODE =>
      if record_len <? nonce_bytes_from_record cs then Throw Decoding_Error
      else Ok (firstn (Z.to_nat (nonce_bytes_from_record cs)) record)
  | AEAD_XOR_12 =>
      let nonce := zeros 12 in
      let nonce := write_at nonce 4 (store_be64 seq) in
      let nonce := xor_buf nonce (m_nonce cs) (length (m_nonce cs)) in
      Ok nonce
  | AEAD_IMPLICIT_4 =>
      _ <- BOTAN_ASSERT (size (m_nonce cs) =? 4) ;;
      if record_len <? nonce_bytes_from_record cs then Throw Decoding_Error
      else
        let nonce := zeros 12 in
        let nonce := write_at nonce 0 (firstn 4 (m_nonce cs)) in
        let nonce := write_at nonce (Z.to_nat (nonce_bytes_from_handshake cs))
                              (firstn (Z.to_nat (nonce_bytes_from_record cs)) record) in
        Ok nonce
  end.

(** [Connection_Cipher_State::format_ad]; [msg_length] is a [uint16_t]. *)
Definition format_ad (msg_sequence : Z) (msg_type : byte)
    (version : Protocol_Version) (msg_length : Z) : list byte :=
  let ad := zeros 13 in
  let ad := write_at ad 0 (store_be64 msg_sequence) in
  let ad := write_at ad 8 [msg_type] in
  let ad := write_at ad 9 [major_version version] in
  let ad := write_at ad 10 [minor_version version] in
  let ad := write_at ad 11 [get_byte 2 0 msg_length] in
  let ad := write_at ad 12 [get_byte 2 1 msg_length] in
  ad.

(** ** The record writer *)

Record Record_Message : Type := mkMsg {
  get_type : byte;
  get_data : list byte
}.

Definition get_size (msg : Record_Message) : Z := size (get_data msg).

Definition append_u16_len (output : list byte) (len_field : Z)
  : result (list byte) :=
  let len16 := len_field mod 2 ^ 16 in
  _ <- BOTAN_ASSERT (len_field =? len16) ;;
  Ok (output ++ [get_byte 2 0 len16; get_byte 2 1 len16]).

(** [write_record].  [output] is cleared first, so it is a result only; the
    cipher state (whose stored nonce [CBC_MODE] consumes) and the random
    source are returned with it.  An exception abandons the buffer. *)
Definition write_record (msg : Record_Message) (version : Protocol_Version)
    (seq : Z) (cs : option Connection_Cipher_State)
    (rng : RandomNumberGenerator)
  : result (list byte * option Connection_Cipher_State * RandomNumberGenerator) :=
  let output := [] in
  let output := output ++ [get_type msg] in
  let output := output ++ [major_version version] in
  let output := output ++ [minor_version version] in
  let output :=
    if is_datagram_protocol version then
      output ++ map (fun i => get_byte 8 i seq) [0; 1; 2; 3; 4; 5; 6; 7]
    else output in
  match cs with
  | None =>
      output <- append_u16_len output (get_size msg) ;;
      Ok (output ++ get_data msg, None, rng)
  | Some cs =>
      let aad := format_ad seq (get_type msg) version (get_size msg mod 2 ^ 16) in
      let ctext_size := output_length (aead cs) (get_size msg) in
      let rec_size := ctext_size + nonce_bytes_from_record cs in
      r <- aead_nonce_write cs seq rng ;;
      let '(nonce, cs', rng') := r in
      output <- append_u16_len output rec_size ;;
      let output :=
        if nonce_bytes_from_record cs >? 0 then
          match nonce_format cs with
          | CBC_MODE => output ++ nonce
          | _ => output ++ firstn (Z.to_nat (nonce_bytes_from_record cs))
                                  (skipn (Z.to_nat (nonce_bytes_from_handshake cs)) nonce)
          end
        else output in
      let header_size := length output in
      let output := output ++ get_data msg in
      let '(tail, e) := process (aead cs) nonce aad (skipn header_size output) in
      let output := firstn header_size output ++ tail in
      match e with
      | Some e => Throw e
      | None =>
          _ <- BOTAN_ASSERT (size output <? MAX_CIPHERTEXT_SIZE) ;;
          Ok (output, Some cs', rng')
      end
  end.

(** ** The record reader *)

Record Record_Raw_Input : Type := mkInput {
  input_data : list byte;
  get_consumed : Z;
  is_datagram : bool
}.

Definition input_size (i : Record_Raw_Input) : Z := size (input_data i).

(** The class [Record] ([Record] alone is a keyword here): the
    out-parameters of [read_record], which are the caller's data buffer,
    sequence number, version and type. *)
Record TLS_Record : Type := mkRecord {
  rec_data : list byte;
  rec_sequence : Z;
  rec_protocol_version : Protocol_Version;
  rec_type : Record_Type
}.

(** [fill_buffer_to]: the hint, the read buffer and the input afterwards. *)
Definition fill_buffer_to (readbuf : list byte) (input : Record_Raw_Input)
    (desired : Z) : Z * list byte * Record_Raw_Input :=
  if size readbuf >=? desired then (0, readbuf, input)
  else
    let taken := Z.min (input_size input) (desired - size readbuf) in
    let readbuf' := readbuf ++ firstn (Z.to_nat taken) (input_data input) in
    (desired - size readbuf',
     readbuf',
     mkInput (skipn (Z.to_nat taken) (input_data input))
             (get_consumed input + taken) (is_datagram input)).

(** [decrypt_record]: the data buffer afterwards and the exception raised,
    if any.  [record_len - nonce_bytes_from_record] is a [size_t]
    subtraction. *)
Definition decrypt_record (output : list byte) (record_contents : list byte)
    (record_len : Z) (record_sequence : Z) (record_version : Protocol_Version)
    (record_type : Record_Type) (cs : Connection_Cipher_State)
  : list byte * option exn :=
  match aead_nonce_read cs record_contents record_len record_sequence with
  | Throw e => (output, Some e)
  | Ok nonce =>
      let msg := skipn (Z.to_nat (nonce_bytes_from_record cs)) record_contents in
      let msg_length := (record_len - nonce_bytes_from_record cs) mod 2 ^ 64 in
      if msg_length <? minimum_final_size (aead cs) then
        (output, Some (TLS_Exception BAD_RECORD_MAC))
      else
        let ptext_size := output_length (aead cs) msg_length in
        let ad := format_ad record_sequence (Record_Type_u8 record_type)
                            record_version (ptext_size mod 2 ^ 16) in
        let offset := length output in
        let output := output ++ firstn (Z.to_nat msg_length) msg in
        let '(tail, e) := process (aead cs) nonce ad (skipn offset output) in
        (firstn offset output ++ tail, e)
  end.

(** [Connection_Sequence_Numbers]: the interface of [tls_seq_numbers.h],
    which is not part of the sources, as the spec lists it. *)
Class Connection_Sequence_Numbers (S : Type) : Type := {
  next_read_sequence : S -> Z;
  current_read_epoch : S -> Z;
  already_seen : S -> Z -> bool;
  read_accept : S -> Z -> S
}.

(** What a call of the reader works on: the persistent read buffer, the raw
    input, the out-parameters and the sequence-number object (null or not). *)
Record reader (S : Type) : Type := mkReader {
  readbuf : list byte;
  raw_input : Record_Raw_Input;
  rec : TLS_Record;
  sequence_numbers : option S
}.
Arguments mkReader {S} _ _ _ _.
Arguments readbuf {S} _.
Arguments raw_input {S} _.
Arguments rec {S} _.
Arguments sequence_numbers {S} _.

(** How a call ends: it returns a [size_t] or raises; either way the
    objects it was given are left in some state. *)
Inductive outcome (S : Type) : Type :=
| Returned (n : Z) (st : reader S)
| Raised (e : exn) (st : reader S).
Arguments Returned {S} n st.
Arguments Raised {S} e st.

Section Readers.

Context {S : Type} {SN : Connection_Sequence_Numbers S}.

(** [get_cipherstate_fn]: the injected lookup; [None] is the null pointer. *)
Variable get_cipherstate : Z -> option Connection_Cipher_State.

Definition set_buffers (st : reader S) (rb : list byte) (inp : Record_Raw_Input)
  : reader S :=
  mkReader rb inp (rec st) (sequence_numbers st).

Definition set_readbuf (st : reader S) (rb : list byte) : reader S :=
  mkReader rb (raw_input st) (rec st) (sequence_numbers st).

Definition set_rec (st : reader S) (r : TLS_Record) : reader S :=
  mkReader (readbuf st) (raw_input st) r (sequence_numbers st).

Definition set_version (st : reader S) (v : Protocol_Version) : reader S :=
  set_rec st (mkRecord (rec_data (rec st)) (rec_sequence (rec st)) v
                       (rec_type (rec st))).

Definition set_type (st : reader S) (t : Record_Type) : reader S :=
  set_rec st (mkRecord (rec_data (rec st)) (rec_sequence (rec st))
                       (rec_protocol_version (rec st)) t).

Definition set_sequence (st : reader S) (s : Z) : reader S :=
  set_rec st (mkRecord (rec_data (rec st)) s
                       (rec_protocol_version (rec st)) (rec_type (rec st))).

Definition set_data (st : reader S) (d : list byte) : reader S :=
  set_rec st (mkRecord d (rec_sequence (rec st))
                       (rec_protocol_version (rec st)) (rec_type (rec st))).

(** [if(sequence_numbers) sequence_numbers->read_accept(seq)] *)
Definition accept_if_present (st : reader S) (s : Z) : reader S :=
  match sequence_numbers st with
  | Some sn => mkReader (readbuf st) (raw_input st) (rec st)
                        (Some (read_accept sn s))
  | None => st
  end.

(** [readbuf[i]] *)
Definition at_ (rb : list byte) (i : nat) : byte := nth i rb Byte.x00.

(** The tail of both readers: [get_cipherstate], the assertion that it is
    there, and [decrypt_record] on the caller's data buffer. *)
Definition decrypt_for_epoch (st : reader S) (epoch : Z)
    (record_contents : list byte) (record_size : Z) : reader S * option exn :=
  match get_cipherstate epoch with
  | None => (st, Some Internal_Error)
  | Some cs =>
      let '(data, e) :=
        decrypt_record (rec_data (rec st)) record_contents record_size
                       (rec_sequence (rec st)) (rec_protocol_version (rec st))
                       (rec_type (rec st)) cs in
      (set_data st data, e)
  end.

Definition read_tls_record (st : reader S) : outcome S :=
  let header :=
    if size (readbuf st) <? TLS_HEADER_SIZE then
      let '(needed, rb, inp) :=
        fill_buffer_to (readbuf st) (raw_input st) TLS_HEADER_SIZE in
      let st := set_buffers st rb inp in
      if negb (needed =? 0) then inl (Returned needed st)
      else if size (readbuf st) =? TLS_HEADER_SIZE then inr st
      else inl (Raised Internal_Error st)
    else inr st in
  match header with
  | inl out => out
  | inr st =>
  let st := set_version st (mkVersion (at_ (readbuf st) 1) (at_ (readbuf st) 2)) in
  if is_datagram_protocol (rec_protocol_version (rec st)) then
    Raised (TLS_Exception PROTOCOL_VERSION) st
  else
  let record_size := make_uint16 (at_ (readbuf st) 3) (at_ (readbuf st) 4) in
  if record_size >? MAX_CIPHERTEXT_SIZE then
    Raised (TLS_Exception RECORD_OVERFLOW) st
  else if record_size =? 0 then
    Raised (TLS_Exception DECODE_ERROR) st
  else
  let '(needed, rb, inp) :=
    fill_buffer_to (readbuf st) (raw_input st) (TLS_HEADER_SIZE + record_size) in
  let st := set_buffers st rb inp in
  if negb (needed =? 0) then Returned needed st
  else if negb (TLS_HEADER_SIZE + record_size =? size (readbuf st)) then
    Raised Internal_Error st
  else
  let st := set_type st (Record_Type_of (at_ (readbuf st) 0)) in
  let '(st, epoch) :=
    match sequence_numbers st with
    | Some sn => (set_sequence st (next_read_sequence sn), current_read_epoch sn)
    | None => (set_sequence st 0, 0)
    end in
  let record_contents := skipn (Z.to_nat TLS_HEADER_SIZE) (readbuf st) in
  if epoch =? 0 then
    let st := set_data st (firstn (Z.to_nat record_size) record_contents) in
    let st := set_readbuf st [] in
    Returned 0 st
  else
    match decrypt_for_epoch st epoch record_contents record_size with
    | (st, Some e) => Raised e st
    | (st, None) =>
        let st := accept_if_present st (rec_sequence (rec st)) in
        let st := set_readbuf st [] in
        Returned 0 st
    end
  end.

Definition read_dtls_record (st : reader S) : outcome S :=
  let header :=
    if size (readbuf st) <? DTLS_HEADER_SIZE then
      let '(needed, rb, inp) :=
        fill_buffer_to (readbuf st) (raw_input st) DTLS_HEADER_SIZE in
      let st := set_buffers st rb inp in
      if negb (needed =? 0) then inl (Returned 0 (set_readbuf st []))
      else if size (readbuf st) =? DTLS_HEADER_SIZE then inr st
      else inl (Raised Internal_Error st)
    else inr st in
  match header with
  | inl out => out
  | inr st =>
  let st := set_version st (mkVersion (at_ (readbuf st) 1) (at_ (readbuf st) 2)) in
  if negb (is_datagram_protocol (rec_protocol_version (rec st))) then
    Returned 0 (set_type (set_readbuf st []) NO_RECORD)
  else
  let record_size := make_uint16 (at_ (readbuf st) 11) (at_ (readbuf st) 12) in
  if record_size >? MAX_CIPHERTEXT_SIZE then
    Returned 0 (set_type (set_readbuf st []) NO_RECORD)
  else
  let '(needed, rb, inp) :=
    fill_buffer_to (readbuf st) (raw_input st) (DTLS_HEADER_SIZE + record_size) in
  let st := set_buffers st rb inp in
  if negb (needed =? 0) then
    Returned 0 (set_type (set_readbuf st []) NO_RECORD)
  else if negb (DTLS_HEADER_SIZE + record_size =? size (readbuf st)) then
    Raised Internal_Error st
  else
  let st := set_type st (Record_Type_of (at_ (readbuf st) 0)) in
  let st := set_sequence st (load_be64 (skipn 3 (readbuf st))) in
  let epoch := Z.shiftr (rec_sequence (rec st)) 48 in
  if match sequence_numbers st with
     | Some sn => already_seen sn (rec_sequence (rec st))
     | None => false
     end
  then
    Returned 0 (set_type (set_readbuf st []) NO_RECORD)
  else
  let record_contents := skipn (Z.to_nat DTLS_HEADER_SIZE) (readbuf st) in
  if epoch =? 0 then
    let st := set_data st (firstn (Z.to_nat record_size) record_contents) in
    let st := set_readbuf st [] in
    let st := accept_if_present st (rec_sequence (rec st)) in
    Returned 0 st
  else
    match decrypt_for_epoch st epoch record_contents record_size with
    | (st, Some e) =>
        (* catch(std::exception&) *)
        Returned 0 (set_type (set_readbuf st []) NO_RECORD)
    | (st, None) =>
        let st := accept_if_present st (rec_sequence (rec st)) in
        let st := set_readbuf st [] in
        Returned 0 st
    end
  end.

Definition read_record (st : reader S) : outcome S :=
  if is_datagram (raw_input st) then read_dtls_record st
  else read_tls_record st.

End Readers.

End TLS.
Export TLS.

(* ================================================================== *)
(** * Sequence-number objects and a small AEAD engine *)
(* ================================================================== *)

Module Collaborators.

(** Modelled from the spec: [Stream_Sequence_Numbers] of
    [tls_seq_numbers.h], which is not part of the sources.  `TLS
    discipline: strictly monotonic; [next_read_sequence] returns
    [last + 1]'; [read_accept] advances; [already_seen] is DTLS only. *)
Record Stream_Sequence_Numbers : Type := mkStream {
  m_read_seq_no : Z;
  m_read_epoch : Z
}.

#[export] Instance Stream_SN : Connection_Sequence_Numbers Stream_Sequence_Numbers := {
  next_read_sequence sn := m_read_seq_no sn;
  current_read_epoch sn := m_read_epoch sn;
  already_seen _ _ := false;
  read_accept sn _ := mkStream (m_read_seq_no sn + 1) (m_read_epoch sn)
}.

(** Modelled from the spec: [Datagram_Sequence_Numbers] of
    [tls_seq_numbers.h], which is not part of the sources.  `A sliding
    replay window (>= 64) keyed by the low 48 bits; [already_seen] returns
    true when the sequence is below the window's floor or already set;
    [read_accept] sets the bit and slides the window.'  Bit [i] of
    [m_window_bits] stands for the key [m_window_highest - i]. *)
Record Datagram_Sequence_Numbers : Type := mkDatagram {
  m_window_highest : Z;
  m_window_bits : Z;
  m_dtls_read_epoch : Z
}.

Definition window_size : Z := 64.

Definition window_key (sequence : Z) : Z := sequence mod 2 ^ 48.

Definition dtls_already_seen (sn : Datagram_Sequence_Numbers) (sequence : Z) : bool :=
  let key := window_key sequence in
  if key >? m_window_highest sn then false
  else
    let offset := m_window_highest sn - key in
    if offset >=? window_size then true
    else Z.testbit (m_window_bits sn) offset.

Definition dtls_read_accept (sn : Datagram_Sequence_Numbers) (sequence : Z)
  : Datagram_Sequence_Numbers :=
  let key := window_key sequence in
  if key >? m_window_highest sn then
    let offset := key - m_window_highest sn in
    let bits :=
      if offset >=? window_size then 0
      else (Z.shiftl (m_window_bits sn) offset) mod 2 ^ window_size in
    mkDatagram key (Z.lor bits 1) (m_dtls_read_epoch sn)
  else
    let offset := m_window_highest sn - key in
    if offset >=? window_size then sn
    else mkDatagram (m_window_highest sn)
                    (Z.lor (m_window_bits sn) (Z.shiftl 1 offset))
                    (m_dtls_read_epoch sn).

(** ([next_read_sequence] is of no use to the DTLS reader, which takes the
    sequence from the wire; it is given the top of the window.) *)
#[export] Instance Datagram_SN : Connection_Sequence_Numbers Datagram_Sequence_Numbers := {
  next_read_sequence sn := m_window_highest sn;
  current_read_epoch sn := m_dtls_read_epoch sn;
  already_seen := dtls_already_seen;
  read_accept := dtls_read_accept
}.

(** A sequence-number object [sn] has accepted [s]: [read_accept] was called
    on it with [s] at some point of its history. *)
Inductive accepted {S : Type} {SN : Connection_Sequence_Numbers S} : S -> Z -> Prop :=
| accepted_now (sn : S) (s : Z) : accepted (read_accept sn s) s
| accepted_before (sn : S) (s s' : Z) :
    accepted sn s -> accepted (read_accept sn s') s.

(** The replay-window contract of the spec: what was accepted is seen. *)
Definition replay_window (S : Type) {SN : Connection_Sequence_Numbers S} : Prop :=
  forall (sn : S) (s : Z), accepted sn s -> already_seen sn s = true.

(** A small AEAD engine with a 16-octet tag that binds the associated data
    and the nonce; the payload is carried in clear. *)
Definition toy_tag (nonce ad : list byte) : list byte :=
  firstn 16 (ad ++ nonce ++ zeros 16).

Definition toy_encryption : AEAD_Mode :=
  mkAEAD (fun n => n + 16) 16
         (fun nonce ad buf => (buf ++ toy_tag nonce ad, None)).

Definition toy_decryption : AEAD_Mode :=
  mkAEAD (fun n => n - 16) 16
         (fun nonce ad buf =>
            let n := (length buf - 16)%nat in
            if list_eq_dec Byte.byte_eq_dec (skipn n buf) (toy_tag nonce ad)
            then (firstn n buf, None)
            else (buf, Some Invalid_Authentication_Tag)).

(** What makes an encrypting and a decrypting engine a pair (`derived from
    the same keys'): decryption undoes encryption under the same nonce and
    associated data, the size queries agree with it, there is a tag, and
    encryption adds at most the 1024 octets that [MAX_CIPHERTEXT_SIZE]
    leaves for it. *)
Record AEAD_pair (enc dec : AEAD_Mode) : Prop := mkPair {
  pair_encrypts : forall nonce ad msg, snd (process enc nonce ad msg) = None;
  pair_decrypts : forall nonce ad msg,
      process dec nonce ad (fst (process enc nonce ad msg)) = (msg, None);
  pair_enc_length : forall nonce ad msg,
      size (fst (process enc nonce ad msg)) = output_length enc (size msg);
  pair_dec_length : forall n, 0 <= n -> output_length dec (output_length enc n) = n;
  pair_min_final : forall n, 0 <= n -> minimum_final_size dec <= output_length enc n;
  pair_tag : 0 < minimum_final_size dec;
  pair_expansion : forall n, 0 <= n -> output_length enc n <= n + 1024
}.

(** A writer and a reader cipher state derived from the same keys: same
    nonce policy and handshake nonce, paired engines, and the policy's size
    invariants of the spec.  In [CBC_MODE] the IV travels with the record
    (a block of at most 16 octets): the stored nonce, if there still is
    one, has the size of the explicit IV. *)
Definition cipher_state_pair (w r : Connection_Cipher_State) : Prop :=
  nonce_format w = nonce_format r /\
  nonce_bytes_from_record w = nonce_bytes_from_record r /\
  nonce_bytes_from_handshake w = nonce_bytes_from_handshake r /\
  AEAD_pair (aead w) (aead r) /\
  match nonce_format w with
  | AEAD_XOR_12 =>
      m_nonce w = m_nonce r /\ size (m_nonce w) = 12 /\
      nonce_bytes_from_handshake w = 12 /\ nonce_bytes_from_record w = 0
  | AEAD_IMPLICIT_4 =>
      m_nonce w = m_nonce r /\ size (m_nonce w) = 4 /\
      nonce_bytes_from_handshake w = 4 /\ nonce_bytes_from_record w = 8
  | CBC_MODE =>
      0 <= nonce_bytes_from_record w <= 16 /\
      (m_nonce w = [] \/ size (m_nonce w) = nonce_bytes_from_record w)
  end.

(** The explicit nonce octets that [write_record] puts on the wire after
    the length field, given the nonce of the record. *)
Definition explicit_nonce (cs : Connection_Cipher_State) (nonce : list byte)
  : list byte :=
  if nonce_bytes_from_record cs >? 0 then
    match nonce_format cs with
    | CBC_MODE => nonce
    | _ => firstn (Z.to_nat (nonce_bytes_from_record cs))
                  (skipn (Z.to_nat (nonce_bytes_from_handshake cs)) nonce)
    end
  else [].

(** The header [write_record] writes: type, version, the sequence number in
    a datagram protocol, and the length field. *)
Definition record_header (ty : byte) (version : Protocol_Version) (seq : Z)
    (rec_size : Z) : list byte :=
  [ty; major_version version; minor_version version]
    ++ (if is_datagram_protocol version then store_be64 seq else [])
    ++ [get_byte 2 0 rec_size; get_byte 2 1 rec_size].

End Collaborators.
Export Collaborators.

(* ================================================================== *)
(** * The reference inverse of the inverse-mod fuzzer *)
(* ================================================================== *)

Module Fuzz.

(** A [Botan::BigInt] is a [Z]. *)

Fixpoint pos_low_zero_bits (p : positive) : nat :=
  match p with
  | xO p' => Datatypes.S (pos_low_zero_bits p')
  | _ => 0%nat
  end.

(** Modelled from the spec: [low_zero_bits] of [botan/numthry.h], which is
    not part of the sources: the number of trailing zero bits of a positive
    value, and 0 otherwise. *)
Definition low_zero_bits (n : Z) : nat :=
  match n with
  | Zpos p => pos_low_zero_bits p
  | _ => 0%nat
  end.

(** [x >>= k] on a sign-magnitude big integer shifts the magnitude. *)
Definition shift_right (x : Z) (k : nat) : Z := Z.quot x (2 ^ Z.of_nat k).

(** One round of the inner [for] loops:
    [if(B.is_odd()) B -= mod; B >>= 1]. *)
Definition halve (mod_ B : Z) : Z :=
  let B := if Z.odd B then B - mod_ else B in
  shift_right B 1.

(** The [while(u.is_nonzero())] loop; the result is [(v, D)] at its exit,
    [None] when [fuel] rounds were not enough. *)
Fixpoint euclid_loop (fuel : nat) (mod_ u v B D : Z) : option (Z * Z) :=
  if u =? 0 then Some (v, D)
  else
    match fuel with
    | O => None
    | Datatypes.S fuel' =>
        let u_zero_bits := low_zero_bits u in
        let u := shift_right u u_zero_bits in
        let B := Nat.iter u_zero_bits (halve mod_) B in
        let v_zero_bits := low_zero_bits v in
        let v := shift_right v v_zero_bits in
        let D := Nat.iter v_zero_bits (halve mod_) D in
        if u >=? v then euclid_loop fuel' mod_ (u - v) v (B - D) D
        else euclid_loop fuel' mod_ u (v - u) B (D - B)
    end.

(** [while(D.is_negative()) D += mod] *)
Fixpoint add_while_negative (fuel : nat) (mod_ D : Z) : option Z :=
  if D <? 0 then
    match fuel with
    | O => None
    | Datatypes.S fuel' => add_while_negative fuel' mod_ (D + mod_)
    end
  else Some D.

(** [while(D >= mod) D -= mod] *)
Fixpoint sub_while_above (fuel : nat) (mod_ D : Z) : option Z :=
  if D >=? mod_ then
    match fuel with
    | O => None
    | Datatypes.S fuel' => sub_while_above fuel' mod_ (D - mod_)
    end
  else Some D.

(** The two normalising loops at the end; each gets as many rounds as the
    magnitude of the value it starts from allows it to need. *)
Definition normalise (mod_ D : Z) : option Z :=
  match add_while_negative (Datatypes.S (Z.to_nat (Z.abs D))) mod_ D with
  | None => None
  | Some D => sub_while_above (Datatypes.S (Z.to_nat (Z.abs D))) mod_ D
  end.

(** [inverse_mod_ref] with [fuel] rounds for the main loop. *)
Definition inverse_mod_ref_fuel (fuel : nat) (n mod_ : Z) : option Z :=
  if n =? 0 then Some 0
  else
    match euclid_loop fuel mod_ mod_ n 0 1 with
    | None => None
    | Some (v, D) =>
        if negb (v =? 1) then Some 0
        else normalise mod_ D
    end.

(** [inverse_mod_ref]: every round of the main loop takes at least one off
    [u + v], which starts as [mod_ + n]. *)
Definition inverse_mod_ref (n mod_ : Z) : option Z :=
  inverse_mod_ref_fuel (Z.to_nat (n + mod_)) n mod_.

(** The spec's words for the value both inverses return: the modular inverse
    of [x] modulo [mod_] in [[0, mod_)], or 0 when [gcd(x, mod_) <> 1] or
    [x = 0]. *)
Definition inverse_or_zero (x mod_ r : Z) : Prop :=
  (x = 0 \/ Z.gcd x mod_ <> 1 -> r = 0) /\
  (x <> 0 -> Z.gcd x mod_ = 1 -> 0 <= r < mod_ /\ (x * r) mod mod_ = 1).

(** Modelled from the spec: [Botan::ct_inverse_mod_odd_modulus] of
    [botan/numthry.h] is not part of the sources; only its call in [fuzz]
    is.  It is taken as what the claim says it returns: the inverse in
    [[0, mod_)], found by trying every residue, or 0 when
    [gcd(x, mod_) <> 1] or [x = 0]. *)
Definition ct_inverse_mod_odd_modulus (x mod_ : Z) : Z :=
  if (x =? 0) || negb (Z.gcd x mod_ =? 1) then 0
  else
    match find (fun r => (x * r) mod mod_ =? 1)
               (map Z.of_nat (seq 0 (Z.to_nat mod_))) with
    | Some r => r
    | None => 0
    end.

End Fuzz.
Export Fuzz.

(* ================================================================== *)
(** * What can go wrong inside record decryption *)
(* ================================================================== *)

Module Failures.

Section Decryption_Failures.

Context {S : Type} {SN : Connection_Sequence_Numbers S}.
Variable get_cipherstate : Z -> option Connection_Cipher_State.

(** The failures of the spec's decryption step, for the record that the
    reader state [st] holds (sequence, version and type in [rec st]), its
    contents [rc] of [rs] octets and its epoch: no cipher state for the
    epoch, no nonce, a message shorter than the tag, and the engine's own
    failure. *)
Inductive decryption_failure (st : reader S) (epoch : Z) (rc : list byte)
    (rs : Z) : exn -> Prop :=
| missing_cipher_state :
    get_cipherstate epoch = None ->
    decryption_failure st epoch rc rs Internal_Error
| nonce_extraction (cs : Connection_Cipher_State) (e : exn) :
    get_cipherstate epoch = Some cs ->
    aead_nonce_read cs rc rs (rec_sequence (rec st)) = Throw e ->
    decryption_failure st epoch rc rs e
| length_guard (cs : Connection_Cipher_State) (nonce : list byte) :
    get_cipherstate epoch = Some cs ->
    aead_nonce_read cs rc rs (rec_sequence (rec st)) = Ok nonce ->
    (rs - nonce_bytes_from_record cs) mod 2 ^ 64 < minimum_final_size (aead cs) ->
    decryption_failure st epoch rc rs (TLS_Exception BAD_RECORD_MAC)
| engine_failure (cs : Connection_Cipher_State) (nonce : list byte) (e : exn) :
    get_cipherstate epoch = Some cs ->
    aead_nonce_read cs rc rs (rec_sequence (rec st)) = Ok nonce ->
    minimum_final_size (aead cs) <= (rs - nonce_bytes_from_record cs) mod 2 ^ 64 ->
    snd (process (aead cs) nonce
           (format_ad (rec_sequence (rec st)) (Record_Type_u8 (rec_type (rec st)))
              (rec_protocol_version (rec st))
              (output_length (aead cs)
                 ((rs - nonce_bytes_from_record cs) mod 2 ^ 64) mod 2 ^ 16))
           (firstn (Z.to_nat ((rs - nonce_bytes_from_record cs) mod 2 ^ 64))
              (skipn (Z.to_nat (nonce_bytes_from_record cs)) rc))) = Some e ->
    decryption_failure st epoch rc rs e.

End Decryption_Failures.

End Failures.
Export Failures.

(* ================================================================== *)
(** * Delivering a record in pieces *)
(* ================================================================== *)

Module Pieces.

Section Pieces.

Context {S : Type} {SN : Connection_Sequence_Numbers S}.
Variable get_cipherstate : Z -> option Connection_Cipher_State.

(** The caller hands the reader its next piece of input: a new
    [Record_Raw_Input] over the same buffer, out-parameters and sequence
    numbers. *)
Definition feed (st : reader S) (piece : list byte) : reader S :=
  mkReader (readbuf st)
           (mkInput piece (get_consumed (raw_input st)) (is_datagram (raw_input st)))
           (rec st) (sequence_numbers st).

(** Successive calls of [read_tls_record], one per piece, each of which
    answers with a positive needed-bytes hint; the state they leave. *)
Fixpoint deliver (st : reader S) (pieces : list (list byte)) : option (reader S) :=
  match pieces with
  | [] => Some st
  | piece :: pieces' =>
      match read_tls_record get_cipherstate (feed st piece) with
      | Returned n st' => if 0 <? n then deliver st' pieces' else None
      | Raised _ _ => None
      end
  end.

(** The two phases of [read_tls_record], named for the proofs: filling the
    header, and everything from the version check on. *)
Definition tls_header_phase (st : reader S) : outcome S + reader S :=
  if size (readbuf st) <? TLS_HEADER_SIZE then
    let '(needed, rb, inp) :=
      fill_buffer_to (readbuf st) (raw_input st) TLS_HEADER_SIZE in
    let st := set_buffers st rb inp in
    if negb (needed =? 0) then inl (Returned needed st)
    else if size (readbuf st) =? TLS_HEADER_SIZE then inr st
    else inl (Raised Internal_Error st)
  else inr st.

Definition tls_record_phase (st : reader S) : outcome S :=
  let st := set_version st (mkVersion (at_ (readbuf st) 1) (at_ (readbuf st) 2)) in
  if is_datagram_protocol (rec_protocol_version (rec st)) then
    Raised (TLS_Exception PROTOCOL_VERSION) st
  else
  let record_size := make_uint16 (at_ (readbuf st) 3) (at_ (readbuf st) 4) in
  if record_size >? MAX_CIPHERTEXT_SIZE then
    Raised (TLS_Exception RECORD_OVERFLOW) st
  else if record_size =? 0 then
    Raised (TLS_Exception DECODE_ERROR) st
  else
  let '(needed, rb, inp) :=
    fill_buffer_to (readbuf st) (raw_input st) (TLS_HEADER_SIZE + record_size) in
  let st := set_buffers st rb inp in
  if negb (needed =? 0) then Returned needed st
  else if negb (TLS_HEADER_SIZE + record_size =? size (readbuf st)) then
    Raised Internal_Error st
  else
  let st := set_type st (Record_Type_of (at_ (readbuf st) 0)) in
  let '(st, epoch) :=
    match sequence_numbers st with
    | Some sn => (set_sequence st (next_read_sequence sn), current_read_epoch sn)
    | None => (set_sequence st 0, 0)
    end in
  let record_contents := skipn (Z.to_nat TLS_HEADER_SIZE) (readbuf st) in
  if epoch =? 0 then
    let st := set_data st (firstn (Z.to_nat record_size) record_contents) in
    let st := set_readbuf st [] in
    Returned 0 st
  else
    match decrypt_for_epoch get_cipherstate st epoch record_contents record_size with
    | (st, Some e) => Raised e st
    | (st, None) =>
        let st := accept_if_present st (rec_sequence (rec st)) in
        let st := set_readbuf st [] in
        Returned 0 st
    end.

End Pieces.

End Pieces.
Export Pieces.

(* ================================================================== *)
(** * Scenario data *)
(* ================================================================== *)

Module Scenarios.

Definition octet (z : Z) : byte := byte_of_Z z.

Definition octets (l : list Z) : list byte := map byte_of_Z l.

Definition TLS_V12 : Protocol_Version := mkVersion (octet 3) (octet 3).
Definition DTLS_V12 : Protocol_Version := mkVersion (octet 254) (octet 253).

Definition rng0 : RandomNumberGenerator := mkRng (fun _ => Byte.x00) 0.

(** S6: [AEAD_XOR_12] with the implicit nonce [04 x 12]. *)
Definition S6_reader_cs : Connection_Cipher_State :=
  mkCS AEAD_XOR_12 0 12 (repeat (octet 4) 12) toy_decryption.

Definition S6_writer_cs : Connection_Cipher_State :=
  mkCS AEAD_XOR_12 0 12 (repeat (octet 4) 12) toy_encryption.

(** The body of an encrypted record: four payload octets and the tag of the
    small engine for sequence 1, type 22, version (3,3), length 4. *)
Definition S6_body : list byte :=
  octets [1; 2; 3; 4;  0; 0; 0; 0; 0; 0; 0; 1; 22; 3; 3; 0; 4; 4; 4; 4].

(** An empty record object and reader states on given input. *)
Definition empty_record : TLS_Record :=
  mkRecord [] 0 (mkVersion Byte.x00 Byte.x00) NO_RECORD.

Definition reader_on {S : Type} (input : list byte) (datagram : bool)
    (sn : option S) : reader S :=
  mkReader [] (mkInput input 0 datagram) empty_record sn.

Definition no_cipherstate : Z -> option Connection_Cipher_State :=
  fun _ => None.

(** S1: a plaintext handshake record, [16 03 03 00 04 01 02 03 04]. *)
Definition S1_bytes : list byte := octets [22; 3; 3; 0; 4; 1; 2; 3; 4].

(** S3 and S4: the headers [17 03 03 FF FF] and [17 03 03 00 00]. *)
Definition S3_bytes : list byte := octets [23; 3; 3; 255; 255].
Definition S4_bytes : list byte := octets [23; 3; 3; 0; 0].

(** A DTLS 1.2 datagram of epoch 0, sequence 5, with four payload octets. *)
Definition dtls_epoch0_bytes : list byte :=
  octets [22; 254; 253;  0; 0; 0; 0; 0; 0; 0; 5;  0; 4;  1; 2; 3; 4].

(** A DTLS 1.2 datagram of epoch 0, sequence 5, whose length field is 0. *)
Definition dtls_empty_bytes : list byte :=
  octets [22; 254; 253;  0; 0; 0; 0; 0; 0; 0; 5;  0; 0].

(** S5: a DTLS 1.2 datagram of epoch 1, sequence 5. *)
Definition S5_sequence : Z := 2 ^ 48 + 5.

Definition S5_bytes : list byte :=
  octets [23; 254; 253;  0; 1; 0; 0; 0; 0; 0; 5;  0; 4;  1; 2; 3; 4].

(** A record of application data and a lookup that knows the reader's
    cipher state of epoch 1. *)
Definition app_message : Record_Message := mkMsg (octet 23) (octets [1; 2; 3; 4]).

Definition epoch1_cipherstate : Z -> option Connection_Cipher_State :=
  fun epoch => if epoch =? 1 then Some S6_reader_cs else None.

End Scenarios.
Export Scenarios.

(* ================================================================== *)
(** * The state a call leaves, the buffer bound, and the fuzzer entry *)
(* ================================================================== *)

Module Observations.

(** The objects a call of the reader leaves behind, however it ends. *)
Definition outcome_state {S : Type} (o : outcome S) : reader S :=
  match o with
  | Returned _ st => st
  | Raised _ st => st
  end.

(** The length field of the TLS header a read buffer starts with. *)
Definition tls_record_size (rb : list byte) : Z :=
  make_uint16 (at_ rb 3) (at_ rb 4).

(** A read buffer of the TLS reader between calls: at most a header, or a
    header whose length field passed the size check and no more than the
    record it announces. *)
Definition tls_buffer_ok (rb : list byte) : Prop :=
  size rb <= TLS_HEADER_SIZE \/
  (size rb <= TLS_HEADER_SIZE + tls_record_size rb /\
   tls_record_size rb <= MAX_CIPHERTEXT_SIZE).


Section Fuzzer.

(** [Botan::BigInt::decode], which is not part of the sources: a parameter. *)
Variable decode : list byte -> Z.


End Fuzzer.

End Observations.
Export Observations.

(* ================================================================== *)
(** * Scenario data for the other nonce policies and for rejected headers *)
(* ================================================================== *)

Module Samples.

(** [AEAD_IMPLICIT_4] with the salt [01 02 03 04]. *)
Definition implicit4_cs : Connection_Cipher_State :=
  mkCS AEAD_IMPLICIT_4 8 4 (octets [1; 2; 3; 4]) toy_encryption.

(** [CBC_MODE] with a first IV of sixteen octets [07]. *)
Definition cbc_cs : Connection_Cipher_State :=
  mkCS CBC_MODE 16 0 (repeat (octet 7) 16) toy_encryption.

(** An application-data message without payload. *)
Definition empty_message : Record_Message := mkMsg (octet 23) [].

(** What [write_record] makes of [app_message] under TLS 1.2 with
    [S6_writer_cs] at sequence 1: header, payload, tag. *)
Definition S6_written : list byte :=
  octets [23; 3; 3; 0; 20;  1; 2; 3; 4;
          0; 0; 0; 0; 0; 0; 0; 1; 23; 3; 3; 0; 4; 4; 4; 4].

(** A TLS 1.2 header that announces four octets of application data, a TLS
    header with a DTLS version, and a DTLS 1.2 header that announces 65535
    octets. *)
Definition app_header : list byte := octets [23; 3; 3; 0; 4].
Definition datagram_version_header : list byte := octets [22; 254; 253; 0; 4].
Definition dtls_oversized_header : list byte :=
  octets [23; 254; 253;  0; 0; 0; 0; 0; 0; 0; 5;  255; 255].
Definition stream_version_header : list byte :=
  octets [22; 3; 3;  0; 0; 0; 0; 0; 0; 0; 5;  0; 4].

(** A DTLS 1.2 header that announces four octets, followed by two. *)
Definition dtls_truncated_header : list byte :=
  octets [22; 254; 253;  0; 0; 0; 0; 0; 0; 0; 5;  0; 4].

End Samples.
Export Samples.

(* ================================================================== *)
(** * Octet arithmetic *)
(* ================================================================== *)

Lemma Z_of_byte_range (b : byte) : 0 <= Z_of_byte b < 256.
Proof.
  unfold Z_of_byte. pose proof (Byte.to_N_bounded b). lia.
Qed.

Lemma byte_of_Z_of_byte (b : byte) : byte_of_Z (Z_of_byte b) = b.
Proof.
  unfold byte_of_Z. pose proof (Z_of_byte_range b) as Hb.
  rewrite Z.mod_small by exact Hb.
  unfold Z_of_byte. rewrite N2Z.id, Byte.of_to_N. reflexivity.
Qed.

Lemma Z_of_byte_of_Z (z : Z) : Z_of_byte (byte_of_Z z) = z mod 256.
Proof.
  unfold byte_of_Z, Z_of_byte.
  pose proof (Z.mod_pos_bound z 256 ltac:(lia)) as Hz.
  destruct (Byte.of_N (Z.to_N (z mod 256))) as [b|] eqn:E.
  - apply Byte.to_of_N in E. rewrite E. lia.
  - apply Byte.of_N_None_iff in E. lia.
Qed.

Lemma byte_xor_comm (a b : byte) : byte_xor a b = byte_xor b a.
Proof. unfold byte_xor. now rewrite Z.lxor_comm. Qed.

Lemma lor_shiftl_8 (acc b : Z) :
  0 <= b < 256 -> Z.lor (Z.shiftl acc 8) b = acc * 256 + b.
Proof.
  intros Hb. rewrite Z.shiftl_mul_pow2 by lia.
  change (2 ^ 8) with 256.
  assert (Hland : Z.land (acc * 256) b = 0).
  { apply Z.bits_inj'. intros n Hn.
    rewrite Z.land_spec, Z.bits_0.
    destruct (Z.ltb_spec n 8).
    - change 256 with (2 ^ 8). rewrite Z.mul_pow2_bits_low by lia. reflexivity.
    - replace b with (b mod 2 ^ 8) by (apply Z.mod_small; simpl; lia).
      rewrite Z.mod_pow2_bits_high by lia. apply andb_false_r. }
  rewrite <- Z.lxor_lor by exact Hland.
  symmetry. apply Z.add_nocarry_lxor. exact Hland.
Qed.

Lemma make_uint16_value (i0 i1 : byte) :
  make_uint16 i0 i1 = Z_of_byte i0 * 256 + Z_of_byte i1.
Proof. unfold make_uint16. apply lor_shiftl_8, Z_of_byte_range. Qed.

Lemma make_uint16_range (i0 i1 : byte) : 0 <= make_uint16 i0 i1 < 2 ^ 16.
Proof.
  rewrite make_uint16_value.
  pose proof (Z_of_byte_range i0). pose proof (Z_of_byte_range i1).
  change (2 ^ 16) with 65536. lia.
Qed.

Lemma fold_lor_be_value (l : list byte) (acc : Z) :
  fold_left (fun a b => Z.lor (Z.shiftl a 8) (Z_of_byte b)) l acc =
  fold_left (fun a b => a * 256 + Z_of_byte b) l acc.
Proof.
  revert acc. induction l as [|b l IH]; intros acc; cbn [fold_left].
  - reflexivity.
  - rewrite lor_shiftl_8 by apply Z_of_byte_range. apply IH.
Qed.

Lemma load_be64_value (l : list byte) : load_be64 l = be_value (firstn 8 l).
Proof. unfold load_be64, be_value. apply fold_lor_be_value. Qed.

(** One more low octet of a value. *)
Lemma be_step (x k M : Z) :
  0 <= k -> 0 < M ->
  ((x / 2 ^ (k + 8)) mod M) * 256 + (x / 2 ^ k) mod 256 = (x / 2 ^ k) mod (256 * M).
Proof.
  intros Hk HM.
  rewrite Z.pow_add_r by lia. rewrite <- Z.div_div by lia.
  change (2 ^ 8) with 256.
  rewrite (Z.rem_mul_r (x / 2 ^ k) 256 M) by lia. lia.
Qed.

Lemma get_byte_value (w i x : Z) :
  0 <= i < w -> Z_of_byte (get_byte w i x) = (x / 2 ^ (8 * (w - 1 - i))) mod 256.
Proof.
  intros Hi. unfold get_byte. rewrite Z_of_byte_of_Z.
  rewrite Z.shiftr_div_pow2 by lia. reflexivity.
Qed.

Lemma be_value_store_be64 (x : Z) : be_value (store_be64 x) = x mod 2 ^ 64.
Proof.
  unfold be_value, store_be64. cbn [map fold_left].
  rewrite !get_byte_value by lia.
  change (8 * (8 - 1 - 0)) with 56. change (8 * (8 - 1 - 1)) with 48.
  change (8 * (8 - 1 - 2)) with 40. change (8 * (8 - 1 - 3)) with 32.
  change (8 * (8 - 1 - 4)) with 24. change (8 * (8 - 1 - 5)) with 16.
  change (8 * (8 - 1 - 6)) with 8. change (8 * (8 - 1 - 7)) with 0.
  rewrite Z.mul_0_l, Z.add_0_l.
  pose proof (be_step x 48 256 ltac:(lia) ltac:(lia)) as H6.
  rewrite <- (Z.mod_mod (x / 2 ^ 56) 256) by lia.
  change (48 + 8) with 56 in H6. rewrite Z.mod_mod by lia. rewrite H6.
  pose proof (be_step x 40 (256 * 256) ltac:(lia) ltac:(lia)) as H5.
  change (40 + 8) with 48 in H5. rewrite H5.
  pose proof (be_step x 32 (256 * (256 * 256)) ltac:(lia) ltac:(lia)) as H4.
  change (32 + 8) with 40 in H4. rewrite H4.
  pose proof (be_step x 24 (256 * (256 * (256 * 256))) ltac:(lia) ltac:(lia)) as H3.
  change (24 + 8) with 32 in H3. rewrite H3.
  pose proof (be_step x 16 (256 * (256 * (256 * (256 * 256)))) ltac:(lia) ltac:(lia)) as H2.
  change (16 + 8) with 24 in H2. rewrite H2.
  pose proof (be_step x 8 (256 * (256 * (256 * (256 * (256 * 256))))) ltac:(lia) ltac:(lia)) as H1.
  change (8 + 8) with 16 in H1. rewrite H1.
  pose proof (be_step x 0 (256 * (256 * (256 * (256 * (256 * (256 * 256)))))) ltac:(lia) ltac:(lia)) as H0.
  change (0 + 8) with 8 in H0. rewrite H0.
  change (2 ^ 0) with 1. rewrite Z.div_1_r. reflexivity.
Qed.

Lemma length_store_be64 (x : Z) : length (store_be64 x) = 8%nat.
Proof. reflexivity. Qed.

Lemma load_be64_store_be64 (x : Z) (rest : list byte) :
  load_be64 (store_be64 x ++ rest) = x mod 2 ^ 64.
Proof.
  rewrite load_be64_value.
  rewrite firstn_app, length_store_be64, Nat.sub_diag, firstn_O, app_nil_r.
  rewrite firstn_all2 by (rewrite length_store_be64; lia).
  apply be_value_store_be64.
Qed.

Lemma be_value_u16 (x : Z) :
  be_value [get_byte 2 0 x; get_byte 2 1 x] = x mod 2 ^ 16.
Proof.
  unfold be_value. cbn [fold_left].
  rewrite !get_byte_value by lia.
  change (8 * (2 - 1 - 0)) with 8. change (8 * (2 - 1 - 1)) with 0.
  rewrite Z.mul_0_l, Z.add_0_l.
  pose proof (be_step x 0 256 ltac:(lia) ltac:(lia)) as H.
  change (0 + 8) with 8 in H. rewrite H.
  change (2 ^ 0) with 1. rewrite Z.div_1_r. reflexivity.
Qed.

Lemma make_uint16_get_byte (x : Z) :
  make_uint16 (get_byte 2 0 x) (get_byte 2 1 x) = x mod 2 ^ 16.
Proof.
  rewrite make_uint16_value. rewrite <- be_value_u16.
  unfold be_value. cbn [fold_left]. lia.
Qed.

Lemma skipn_length_app {A : Type} (l r : list A) : skipn (length l) (l ++ r) = r.
Proof.
  rewrite skipn_app, Nat.sub_diag, skipn_all. reflexivity.
Qed.

Lemma firstn_length_app {A : Type} (l r : list A) : firstn (length l) (l ++ r) = l.
Proof.
  rewrite firstn_app, Nat.sub_diag, firstn_all, firstn_O, app_nil_r. reflexivity.
Qed.

(* ================================================================== *)
(** * Cipher state: associated data and nonces *)
(* ================================================================== *)

Section Cipher_State.

Variable cs : Connection_Cipher_State.

(** [decrypt_record] once the nonce is there and the length guard passed:
    the engine runs on the message octets appended to the data buffer. *)
Lemma decrypt_record_runs (out rc : list byte) (rlen seq : Z)
    (v : Protocol_Version) (rty : Record_Type) (nonce : list byte) :
  aead_nonce_read cs rc rlen seq = Ok nonce ->
  minimum_final_size (aead cs) <= (rlen - nonce_bytes_from_record cs) mod 2 ^ 64 ->
  decrypt_record out rc rlen seq v rty cs =
  let msg_length := (rlen - nonce_bytes_from_record cs) mod 2 ^ 64 in
  let '(tail, e) :=
    process (aead cs) nonce
            (format_ad seq (Record_Type_u8 rty) v
                       (output_length (aead cs) msg_length mod 2 ^ 16))
            (firstn (Z.to_nat msg_length)
                    (skipn (Z.to_nat (nonce_bytes_from_record cs)) rc)) in
  (out ++ tail, e).
Proof.
  intros Hnonce Hmin. unfold decrypt_record. rewrite Hnonce.
  destruct (Z.ltb_spec ((rlen - nonce_bytes_from_record cs) mod 2 ^ 64)
                       (minimum_final_size (aead cs))) as [Hlt|_]; [lia|].
  cbv zeta. rewrite skipn_length_app, firstn_length_app. reflexivity.
Qed.

(** C7.  [format_ad] returns 13 octets: the sequence number as 8 big-endian
    octets, the type octet, the major and the minor version octet, and the
    length as 2 big-endian octets; and the length [decrypt_record] hands to
    it is [aead.output_length] of the message length (the plaintext
    length), which is then the associated data the engine is run with. *)
Theorem format_ad_layout (seq len : Z) (ty : byte) (v : Protocol_Version) :
  (length (format_ad seq ty v len) = 13%nat /\
   format_ad seq ty v len =
     store_be64 seq ++ [ty; major_version v; minor_version v]
                    ++ [get_byte 2 0 len; get_byte 2 1 len] /\
   be_value (firstn 8 (format_ad seq ty v len)) = seq mod 2 ^ 64 /\
   nth 8 (format_ad seq ty v len) Byte.x00 = ty /\
   nth 9 (format_ad seq ty v len) Byte.x00 = major_version v /\
   nth 10 (format_ad seq ty v len) Byte.x00 = minor_version v /\
   be_value (skipn 11 (format_ad seq ty v len)) = len mod 2 ^ 16) /\
  (forall (out rc nonce : list byte) (rlen : Z) (rty : Record_Type),
      aead_nonce_read cs rc rlen seq = Ok nonce ->
      minimum_final_size (aead cs) <= (rlen - nonce_bytes_from_record cs) mod 2 ^ 64 ->
      let msg_length := (rlen - nonce_bytes_from_record cs) mod 2 ^ 64 in
      let plaintext_length := output_length (aead cs) msg_length in
      decrypt_record out rc rlen seq v rty cs =
      (out ++ fst (process (aead cs) nonce
                     (format_ad seq (Record_Type_u8 rty) v (plaintext_length mod 2 ^ 16))
                     (firstn (Z.to_nat msg_length)
                             (skipn (Z.to_nat (nonce_bytes_from_record cs)) rc))),
       snd (process (aead cs) nonce
                     (format_ad seq (Record_Type_u8 rty) v (plaintext_length mod 2 ^ 16))
                     (firstn (Z.to_nat msg_length)
                             (skipn (Z.to_nat (nonce_bytes_from_record cs)) rc))))).
Proof.
  split.
  - assert (Hlayout : format_ad seq ty v len =
              store_be64 seq ++ [ty; major_version v; minor_version v]
                             ++ [get_byte 2 0 len; get_byte 2 1 len])
      by reflexivity.
    rewrite Hlayout. repeat split.
    + apply be_value_store_be64.
    + apply be_value_u16.
  - intros out rc nonce rlen rty Hnonce Hmin msg_length plaintext_length.
    rewrite (decrypt_record_runs out rc rlen seq v rty nonce Hnonce Hmin).
    cbv zeta. fold msg_length. fold plaintext_length.
    destruct (process _ _ _ _) as [tail e]. reflexivity.
Qed.

(** C8.  In [AEAD_XOR_12] format, with the 12-octet nonce of the handshake,
    the nonce for writing and the nonce for reading are both the handshake
    nonce XORed with four zero octets followed by the big-endian sequence
    number; writing leaves the cipher state and the random source alone. *)
Theorem aead_xor_12_nonce (seq : Z) (rng : RandomNumberGenerator)
    (record : list byte) (record_len : Z) :
  nonce_format cs = AEAD_XOR_12 ->
  length (m_nonce cs) = 12%nat ->
  aead_nonce_write cs seq rng =
    Ok (xor_bytes (m_nonce cs) (zeros 4 ++ store_be64 seq), cs, rng) /\
  aead_nonce_read cs record record_len seq =
    Ok (xor_bytes (m_nonce cs) (zeros 4 ++ store_be64 seq)) /\
  length (xor_bytes (m_nonce cs) (zeros 4 ++ store_be64 seq)) = 12%nat.
Proof.
  intros Hfmt Hlen.
  unfold aead_nonce_write, aead_nonce_read. rewrite Hfmt.
  destruct (m_nonce cs) as [|n0 [|n1 [|n2 [|n3 [|n4 [|n5 [|n6 [|n7 [|n8
             [|n9 [|n10 [|n11 [|n12 rest]]]]]]]]]]]]]; try discriminate Hlen.
  assert (Hx : xor_buf (write_at (zeros 12) 4 (store_be64 seq))
                 [n0; n1; n2; n3; n4; n5; n6; n7; n8; n9; n10; n11] 12 =
               xor_bytes [n0; n1; n2; n3; n4; n5; n6; n7; n8; n9; n10; n11]
                 (zeros 4 ++ store_be64 seq)).
  { cbn [zeros repeat write_at firstn skipn app store_be64 map length
         Nat.add xor_buf xor_bytes].
    repeat (f_equal; try apply byte_xor_comm). }
  cbn [length]. rewrite Hx. repeat split.
Qed.

End Cipher_State.

(** C7 at a record of the small engine: sequence 1, type 22, version
    (3,3), twenty octets of message of which four are plaintext. *)
Lemma format_ad_layout_witness :
  format_ad 1 (octet 22) TLS_V12 4 = octets [0; 0; 0; 0; 0; 0; 0; 1; 22; 3; 3; 0; 4] /\
  decrypt_record [] S6_body 20 1 TLS_V12 HANDSHAKE S6_reader_cs =
    (octets [1; 2; 3; 4], None).
Proof.
  destruct (format_ad_layout S6_reader_cs 1 4 (octet 22) TLS_V12) as [[_ [Hl _]] Hd].
  split.
  - rewrite Hl. reflexivity.
  - rewrite (Hd [] S6_body (octets [4; 4; 4; 4; 4; 4; 4; 4; 4; 4; 4; 5]) 20
                HANDSHAKE eq_refl ltac:(vm_compute; discriminate)).
    reflexivity.
Defined.

(** S6: the implicit nonce [04 x 12] and sequence 1 give
    [04 04 04 04 04 04 04 04 04 04 04 05], for writing and for reading. *)
Lemma aead_xor_12_nonce_witness :
  aead_nonce_write S6_writer_cs 1 rng0 =
    Ok (octets [4; 4; 4; 4; 4; 4; 4; 4; 4; 4; 4; 5], S6_writer_cs, rng0) /\
  aead_nonce_read S6_reader_cs [] 0 1 =
    Ok (octets [4; 4; 4; 4; 4; 4; 4; 4; 4; 4; 4; 5]).
Proof.
  split.
  - exact (proj1 (aead_xor_12_nonce S6_writer_cs 1 rng0 [] 0 eq_refl eq_refl)).
  - exact (proj1 (proj2 (aead_xor_12_nonce S6_reader_cs 1 rng0 [] 0 eq_refl eq_refl))).
Defined.

(* ================================================================== *)
(** * The readers on whole records *)
(* ================================================================== *)

Lemma size_app {A} (l r : list A) : size (l ++ r) = size l + size r.
Proof. unfold size. rewrite length_app. lia. Qed.

Lemma size_nonneg {A} (l : list A) : 0 <= size l.
Proof. unfold size. lia. Qed.

Lemma size_nil_inv {A} (l : list A) : size l = 0 -> l = [].
Proof. unfold size. destruct l; simpl; [reflexivity|lia]. Qed.

Lemma fill_buffer_to_complete (rb a rest : list byte) (c : Z) (dg : bool) :
  fill_buffer_to rb (mkInput (a ++ rest) c dg) (size rb + size a) =
  (0, rb ++ a, mkInput rest (c + size a) dg).
Proof.
  unfold fill_buffer_to, input_size. cbn [input_data get_consumed is_datagram].
  pose proof (size_nonneg a) as Ha. pose proof (size_nonneg rest) as Hr.
  destruct (Z.geb_spec (size rb) (size rb + size a)) as [Hge|Hlt].
  - assert (a = []) by (apply size_nil_inv; lia). subst a.
    cbn [app]. rewrite app_nil_r. unfold size at 1. cbn [length Z.of_nat].
    rewrite Z.add_0_r. reflexivity.
  - rewrite (size_app a rest).
    replace (Z.min (size a + size rest) (size rb + size a - size rb)) with (size a) by lia.
    replace (Z.to_nat (size a)) with (length a) by (unfold size; lia).
    rewrite firstn_length_app, skipn_length_app.
    rewrite size_app. f_equal. f_equal. lia.
Qed.

Lemma to_nat_size {A} (l : list A) : Z.to_nat (size l) = length l.
Proof. unfold size. lia. Qed.

Ltac reader_simpl :=
  unfold set_buffers, set_readbuf, set_version, set_type, set_sequence,
         set_data, set_rec;
  cbn [readbuf raw_input rec sequence_numbers
       rec_data rec_sequence rec_protocol_version rec_type
       input_data get_consumed is_datagram].

Section Reader_Facts.

Context {S : Type} {SN : Connection_Sequence_Numbers S}.
Variable gc : Z -> option Connection_Cipher_State.

Lemma fill_buffer_to_hint (rb : list byte) (inp : Record_Raw_Input) (d : Z) :
  (size rb >= d /\ fill_buffer_to rb inp d = (0, rb, inp)) \/
  (size rb < d /\
   exists rb' inp', fill_buffer_to rb inp d = (d - size rb', rb', inp') /\
                    size rb < d /\ size rb' <= d).
Proof.
  unfold fill_buffer_to.
  destruct (Z.geb_spec (size rb) d) as [Hge|Hlt].
  - left. split; [lia|reflexivity].
  - right. split; [exact Hlt|]. eexists. eexists. split; [reflexivity|].
    split; [exact Hlt|].
    rewrite size_app. unfold size at 2. rewrite length_firstn.
    unfold input_size, size in *. lia.
Qed.

Lemma readbuf_accept_if_present (st : reader S) (s : Z) :
  readbuf (accept_if_present st s) = readbuf st.
Proof. unfold accept_if_present. destruct (sequence_numbers st); reflexivity. Qed.

(** The DTLS reader never raises when it starts from at most a header. *)
Lemma read_dtls_record_returns (st : reader S) :
  size (readbuf st) <= DTLS_HEADER_SIZE ->
  exists st', read_dtls_record gc st = Returned 0 st' /\ readbuf st' = [].
Proof.
  intros Hinv. unfold read_dtls_record.
  match goal with
  | |- context [match ?h with inl out => out | inr st0 => @?k st0 end] =>
      set (body := k); set (header := h)
  end.
  assert (Hbody : forall st1, size (readbuf st1) = DTLS_HEADER_SIZE ->
            exists st', body st1 = Returned 0 st' /\ readbuf st' = []).
  { intros st1 Hsz. subst body. cbv beta.
    destruct (negb (is_datagram_protocol _)); [eexists; split; reflexivity|].
    reader_simpl.
    pose proof (make_uint16_range (at_ (readbuf st1) 11) (at_ (readbuf st1) 12)) as Hrs.
    set (rs := make_uint16 _ _) in *.
    destruct (rs >? MAX_CIPHERTEXT_SIZE); [eexists; split; reflexivity|].
    destruct (fill_buffer_to_hint (readbuf st1) (raw_input st1) (DTLS_HEADER_SIZE + rs))
      as [[Hge Hfill]|[_ (rb' & inp' & Hfill & _ & Hle)]]; rewrite Hfill; reader_simpl.
    - change (0 =? 0) with true. cbn [negb].
      replace (DTLS_HEADER_SIZE + rs =? size (readbuf st1)) with true
        by (symmetry; apply Z.eqb_eq; lia).
      cbn [negb].
      destruct (match sequence_numbers st1 with Some _ => _ | None => _ end);
        [eexists; split; reflexivity|].
      destruct (_ =? 0).
      + eexists; split; [reflexivity|]. apply readbuf_accept_if_present.
      + destruct (decrypt_for_epoch _ _ _ _ _) as [st2 [e|]];
          eexists; split; reflexivity.
    - destruct (Z.eqb_spec (DTLS_HEADER_SIZE + rs - size rb') 0) as [Hz|Hnz];
        cbn [negb]; [|eexists; split; reflexivity].
      replace (DTLS_HEADER_SIZE + rs =? size rb') with true
        by (symmetry; apply Z.eqb_eq; lia).
      cbn [negb].
      destruct (match sequence_numbers st1 with Some _ => _ | None => _ end);
        [eexists; split; reflexivity|].
      destruct (_ =? 0).
      + eexists; split; [reflexivity|]. apply readbuf_accept_if_present.
      + destruct (decrypt_for_epoch _ _ _ _ _) as [st2 [e|]];
          eexists; split; reflexivity. }
  subst header.
  destruct (Z.ltb_spec (size (readbuf st)) DTLS_HEADER_SIZE) as [Hshort|Hfull].
  - destruct (fill_buffer_to_hint (readbuf st) (raw_input st) DTLS_HEADER_SIZE)
      as [[Hge _]|[_ (rb' & inp' & Hfill & _ & Hle)]]; [lia|].
    rewrite Hfill. reader_simpl.
    destruct (Z.eqb_spec (DTLS_HEADER_SIZE - size rb') 0) as [Hz|Hnz]; cbn [negb].
    + replace (size rb' =? DTLS_HEADER_SIZE) with true
        by (symmetry; apply Z.eqb_eq; lia).
      apply Hbody. reader_simpl. lia.
    + eexists; split; reflexivity.
  - apply Hbody. lia.
Qed.

(** The DTLS reader on a whole datagram: a 13-octet header whose length
    field is the length of the body that follows. *)
Lemma read_dtls_record_complete (hdr body rest : list byte) (c : Z) (dg : bool)
    (rec0 : TLS_Record) (sn : option S) :
  length hdr = 13%nat ->
  make_uint16 (at_ hdr 11) (at_ hdr 12) = size body ->
  read_dtls_record gc (mkReader [] (mkInput (hdr ++ body ++ rest) c dg) rec0 sn) =
  let version := mkVersion (at_ hdr 1) (at_ hdr 2) in
  let seq := load_be64 (skipn 3 hdr) in
  let dropped (inp : Record_Raw_Input) (d : list byte) (s : Z) :=
    Returned 0 (mkReader [] inp (mkRecord d s version NO_RECORD) sn) in
  let st := mkReader (hdr ++ body) (mkInput rest (c + 13 + size body) dg)
                     (mkRecord (rec_data rec0) seq version
                               (Record_Type_of (at_ hdr 0))) sn in
  if negb (is_datagram_protocol version) then
    dropped (mkInput (body ++ rest) (c + 13) dg) (rec_data rec0) (rec_sequence rec0)
  else if size body >? MAX_CIPHERTEXT_SIZE then
    dropped (mkInput (body ++ rest) (c + 13) dg) (rec_data rec0) (rec_sequence rec0)
  else if match sn with Some s => already_seen s seq | None => false end then
    dropped (mkInput rest (c + 13 + size body) dg) (rec_data rec0) seq
  else if Z.shiftr seq 48 =? 0 then
    Returned 0 (accept_if_present (set_readbuf (set_data st body) []) seq)
  else
    match decrypt_for_epoch gc st (Z.shiftr seq 48) body (size body) with
    | (st', Some e) => Returned 0 (set_type (set_readbuf st' []) NO_RECORD)
    | (st', None) =>
        Returned 0 (set_readbuf (accept_if_present st' (rec_sequence (rec st'))) [])
    end.
Proof.
  intros Hlen Hsize.
  destruct hdr as [|h0 [|h1 [|h2 [|h3 [|h4 [|h5 [|h6 [|h7 [|h8 [|h9 [|h10
             [|h11 [|h12 [|h13 hdr]]]]]]]]]]]]]]; try discriminate Hlen.
  clear Hlen. set (hdr := [h0; h1; h2; h3; h4; h5; h6; h7; h8; h9; h10; h11; h12]) in *.
  unfold read_dtls_record.
  cbn [readbuf raw_input rec sequence_numbers].
  change (size (@nil byte) <? DTLS_HEADER_SIZE) with true. cbv iota.
  change DTLS_HEADER_SIZE with (size (@nil byte) + size hdr) at 1.
  rewrite fill_buffer_to_complete. cbn [app].
  reader_simpl.
  change (0 =? 0) with true. change (size hdr =? DTLS_HEADER_SIZE) with true.
  cbn [negb]. cbv iota. reader_simpl. cbv zeta.
  change (size hdr) with 13.
  destruct (negb (is_datagram_protocol _)); [reflexivity|].
  rewrite Hsize.
  destruct (size body >? MAX_CIPHERTEXT_SIZE); [reflexivity|].
  change DTLS_HEADER_SIZE with (size hdr) at 1.
  rewrite fill_buffer_to_complete. reader_simpl.
  change (0 =? 0) with true. cbn [negb].
  rewrite size_app. change DTLS_HEADER_SIZE with (size hdr).
  rewrite Z.eqb_refl. cbn [negb].
  change (skipn 3 (hdr ++ body)) with ([h3; h4; h5; h6; h7; h8; h9; h10; h11; h12] ++ body).
  change (skipn 3 hdr) with [h3; h4; h5; h6; h7; h8; h9; h10; h11; h12].
  change (load_be64 ([h3; h4; h5; h6; h7; h8; h9; h10; h11; h12] ++ body))
    with (load_be64 [h3; h4; h5; h6; h7; h8; h9; h10; h11; h12]).
  change (at_ (hdr ++ body) 0) with (at_ hdr 0).
  change (skipn (Z.to_nat (size hdr)) (hdr ++ body)) with body.
  rewrite to_nat_size, firstn_all.
  change (size hdr) with 13.
  reflexivity.
Qed.

(** The TLS reader on a whole record: a 5-octet header whose length field
    is the length of the body that follows. *)
Lemma read_tls_record_complete (hdr body rest : list byte) (c : Z) (dg : bool)
    (rec0 : TLS_Record) (sn : option S) :
  length hdr = 5%nat ->
  make_uint16 (at_ hdr 3) (at_ hdr 4) = size body ->
  read_tls_record gc (mkReader [] (mkInput (hdr ++ body ++ rest) c dg) rec0 sn) =
  let version := mkVersion (at_ hdr 1) (at_ hdr 2) in
  let seq := match sn with Some s => next_read_sequence s | None => 0 end in
  let epoch := match sn with Some s => current_read_epoch s | None => 0 end in
  let st_header :=
    mkReader hdr (mkInput (body ++ rest) (c + 5) dg)
             (mkRecord (rec_data rec0) (rec_sequence rec0) version (rec_type rec0))
             sn in
  let st := mkReader (hdr ++ body) (mkInput rest (c + 5 + size body) dg)
                     (mkRecord (rec_data rec0) seq version
                               (Record_Type_of (at_ hdr 0))) sn in
  if is_datagram_protocol version then
    Raised (TLS_Exception PROTOCOL_VERSION) st_header
  else if size body >? MAX_CIPHERTEXT_SIZE then
    Raised (TLS_Exception RECORD_OVERFLOW) st_header
  else if size body =? 0 then
    Raised (TLS_Exception DECODE_ERROR) st_header
  else if epoch =? 0 then
    Returned 0 (set_readbuf (set_data st body) [])
  else
    match decrypt_for_epoch gc st epoch body (size body) with
    | (st', Some e) => Raised e st'
    | (st', None) =>
        Returned 0 (set_readbuf (accept_if_present st' (rec_sequence (rec st'))) [])
    end.
Proof.
  intros Hlen Hsize.
  destruct hdr as [|h0 [|h1 [|h2 [|h3 [|h4 [|h5 hdr]]]]]]; try discriminate Hlen.
  clear Hlen. set (hdr := [h0; h1; h2; h3; h4]) in *.
  unfold read_tls_record.
  cbn [readbuf raw_input rec sequence_numbers].
  change (size (@nil byte) <? TLS_HEADER_SIZE) with true. cbv iota.
  change TLS_HEADER_SIZE with (size (@nil byte) + size hdr) at 1.
  rewrite fill_buffer_to_complete. cbn [app].
  reader_simpl.
  change (0 =? 0) with true. change (size hdr =? TLS_HEADER_SIZE) with true.
  cbn [negb]. cbv iota. reader_simpl. cbv zeta.
  change (size hdr) with 5.
  destruct (is_datagram_protocol _); [reflexivity|].
  rewrite Hsize.
  destruct (size body >? MAX_CIPHERTEXT_SIZE); [reflexivity|].
  destruct (size body =? 0); [reflexivity|].
  change TLS_HEADER_SIZE with (size hdr) at 1.
  rewrite fill_buffer_to_complete. reader_simpl.
  change (0 =? 0) with true. cbn [negb].
  rewrite size_app. change TLS_HEADER_SIZE with (size hdr).
  rewrite Z.eqb_refl. cbn [negb].
  destruct sn as [s|]; reader_simpl;
    change (at_ (hdr ++ body) 0) with (at_ hdr 0);
    change (skipn (Z.to_nat (size hdr)) (hdr ++ body)) with body;
    rewrite to_nat_size, firstn_all;
    change (size hdr) with 5;
    reflexivity.
Qed.

End Reader_Facts.

(* ================================================================== *)
(** * Decryption failures, silent drops and replays *)
(* ================================================================== *)

Section Decryption.

Variable cs : Connection_Cipher_State.

(** C6.  In [decrypt_record], once the nonce is there, a record body that
    without its explicit-nonce octets is shorter than the engine's minimum
    final size fails with a bad-record-MAC alert, not a decode error; the
    data buffer is returned as it was given and the engine, whichever it is,
    has not been run on the message. *)
Theorem early_length_guard (out rc nonce : list byte) (rlen seq : Z)
    (v : Protocol_Version) (ty : Record_Type) :
  aead_nonce_read cs rc rlen seq = Ok nonce ->
  0 <= nonce_bytes_from_record cs <= rlen ->
  rlen < 2 ^ 64 ->
  rlen - nonce_bytes_from_record cs < minimum_final_size (aead cs) ->
  decrypt_record out rc rlen seq v ty cs = (out, Some (TLS_Exception BAD_RECORD_MAC)).
Proof.
  intros Hnonce Hnbr Hrlen Hshort. unfold decrypt_record. rewrite Hnonce.
  rewrite Z.mod_small by lia.
  destruct (Z.ltb_spec (rlen - nonce_bytes_from_record cs)
                       (minimum_final_size (aead cs))); [reflexivity|lia].
Qed.

End Decryption.

Lemma early_length_guard_witness :
  decrypt_record [] (octets [1; 2; 3; 4]) 4 1 TLS_V12 HANDSHAKE S6_reader_cs =
  ([], Some (TLS_Exception BAD_RECORD_MAC)).
Proof.
  apply (early_length_guard S6_reader_cs [] (octets [1; 2; 3; 4])
           (octets [4; 4; 4; 4; 4; 4; 4; 4; 4; 4; 4; 5]) 4 1 TLS_V12 HANDSHAKE).
  - reflexivity.
  - cbn. lia.
  - reflexivity.
  - reflexivity.
Defined.

Section Datagram_Reader.

Context {S : Type} {SN : Connection_Sequence_Numbers S}.
Variable gc : Z -> option Connection_Cipher_State.

Lemma decryption_failure_caught (st : reader S) (epoch : Z) (rc : list byte)
    (rs : Z) (e : exn) :
  decryption_failure gc st epoch rc rs e ->
  exists d, decrypt_for_epoch gc st epoch rc rs = (set_data st d, Some e)
            \/ decrypt_for_epoch gc st epoch rc rs = (st, Some e).
Proof.
  intros Hfail. unfold decrypt_for_epoch.
  destruct Hfail as [Hgc|cs e Hgc Hn|cs nonce Hgc Hn Hlen|cs nonce e Hgc Hn Hlen He];
    rewrite Hgc.
  - exists []. right. reflexivity.
  - exists (rec_data (rec st)). left. unfold decrypt_record. rewrite Hn. reflexivity.
  - exists (rec_data (rec st)). left. unfold decrypt_record. rewrite Hn.
    destruct (Z.ltb_spec ((rs - nonce_bytes_from_record cs) mod 2 ^ 64)
                         (minimum_final_size (aead cs))); [reflexivity|lia].
  - rewrite (decrypt_record_runs cs _ _ _ _ _ _ nonce Hn Hlen). cbv zeta.
    destruct (process _ _ _ _) as [tail e'] eqn:Hp. cbn [snd] in He. subst e'.
    eexists. left. reflexivity.
Qed.

(** C2.  Datagram mode.  Started from at most a header in its buffer, the
    DTLS reader returns 0 with the read buffer cleared and never raises.
    And on a whole datagram that gets as far as decryption, every failure
    there (no cipher state for the epoch, no nonce, the length guard, the
    engine's tag check) is caught: the reader returns 0 with the record type
    [NO_RECORD], the read buffer cleared and the sequence numbers
    untouched. *)
Theorem dtls_silent_drop :
  (forall st : reader S,
      size (readbuf st) <= DTLS_HEADER_SIZE ->
      exists st', read_dtls_record gc st = Returned 0 st' /\ readbuf st' = []) /\
  (forall (hdr body rest : list byte) (c : Z) (dg : bool) (rec0 : TLS_Record)
          (sn : option S) (e : exn),
      let version := mkVersion (at_ hdr 1) (at_ hdr 2) in
      let seq := load_be64 (skipn 3 hdr) in
      let st := mkReader (hdr ++ body) (mkInput rest (c + 13 + size body) dg)
                         (mkRecord (rec_data rec0) seq version
                                   (Record_Type_of (at_ hdr 0))) sn in
      length hdr = 13%nat ->
      is_datagram_protocol version = true ->
      make_uint16 (at_ hdr 11) (at_ hdr 12) = size body ->
      size body <= MAX_CIPHERTEXT_SIZE ->
      match sn with Some s => already_seen s seq | None => false end = false ->
      Z.shiftr seq 48 <> 0 ->
      decryption_failure gc st (Z.shiftr seq 48) body (size body) e ->
      exists st',
        read_dtls_record gc (mkReader [] (mkInput (hdr ++ body ++ rest) c dg) rec0 sn)
          = Returned 0 st' /\
        rec_type (rec st') = NO_RECORD /\
        readbuf st' = [] /\
        sequence_numbers st' = sn).
Proof.
  split.
  - apply read_dtls_record_returns.
  - intros hdr body rest c dg rec0 sn e version seq st Hlen Hdg Hsize Hmax Hseen Hepoch Hfail.
    rewrite (read_dtls_record_complete gc hdr body rest c dg rec0 sn Hlen Hsize).
    cbv zeta. fold version. fold seq. fold st.
    rewrite Hdg. cbn [negb].
    destruct (Z.gtb_spec (size body) MAX_CIPHERTEXT_SIZE); [lia|].
    rewrite Hseen.
    destruct (Z.eqb_spec (Z.shiftr seq 48) 0); [contradiction|].
    destruct (decryption_failure_caught st _ _ _ _ Hfail) as [d [Hd|Hd]];
      rewrite Hd; eexists; repeat split.
Qed.

(** C5.  Replay.  With a sequence-number object that keeps the replay-window
    contract and has accepted [s], the DTLS reader fed another whole record
    that carries [s] returns 0 with the record type [NO_RECORD] and leaves
    the sequence-number object as it was: [read_accept] is not called. *)
Theorem dtls_replay_rejected (hdr body rest : list byte) (c : Z) (dg : bool)
    (rec0 : TLS_Record) (sn : S) (s : Z) :
  replay_window S ->
  accepted sn s ->
  length hdr = 13%nat ->
  load_be64 (skipn 3 hdr) = s ->
  make_uint16 (at_ hdr 11) (at_ hdr 12) = size body ->
  exists st',
    read_dtls_record gc (mkReader [] (mkInput (hdr ++ body ++ rest) c dg) rec0 (Some sn))
      = Returned 0 st' /\
    rec_type (rec st') = NO_RECORD /\
    sequence_numbers st' = Some sn /\
    readbuf st' = [].
Proof.
  intros Hrw Hacc Hlen Hseq Hsize.
  rewrite (read_dtls_record_complete gc hdr body rest c dg rec0 (Some sn) Hlen Hsize).
  cbv zeta. rewrite Hseq. rewrite (Hrw sn s Hacc).
  destruct (negb (is_datagram_protocol _)); [eexists; repeat split|].
  destruct (size body >? MAX_CIPHERTEXT_SIZE); eexists; repeat split.
Qed.

(** Epoch 0 in DTLS mode. *)
Lemma dtls_epoch0_dispatch (hdr body rest : list byte) (c : Z) (dg : bool)
    (rec0 : TLS_Record) (sn : option S) :
  let version := mkVersion (at_ hdr 1) (at_ hdr 2) in
  let seq := load_be64 (skipn 3 hdr) in
  length hdr = 13%nat ->
  is_datagram_protocol version = true ->
  make_uint16 (at_ hdr 11) (at_ hdr 12) = size body ->
  size body <= MAX_CIPHERTEXT_SIZE ->
  match sn with Some s => already_seen s seq | None => false end = false ->
  Z.shiftr seq 48 = 0 ->
  read_dtls_record gc (mkReader [] (mkInput (hdr ++ body ++ rest) c dg) rec0 sn) =
  Returned 0 (mkReader [] (mkInput rest (c + 13 + size body) dg)
                (mkRecord body seq version (Record_Type_of (at_ hdr 0)))
                (option_map (fun s => read_accept s seq) sn)).
Proof.
  intros version seq Hlen Hdg Hsize Hmax Hseen Hepoch.
  rewrite (read_dtls_record_complete gc hdr body rest c dg rec0 sn Hlen Hsize).
  cbv zeta. fold version. fold seq. rewrite Hdg. cbn [negb].
  destruct (Z.gtb_spec (size body) MAX_CIPHERTEXT_SIZE); [lia|].
  rewrite Hseen, Hepoch. cbn [Z.eqb].
  unfold accept_if_present. destruct sn; reflexivity.
Qed.

(** C4, what the code does where the claim fails.  The DTLS reader has no
    check of a zero length field: a datagram of epoch 0 whose length field
    is 0, and whose sequence was not seen, is not dropped.  The reader
    returns 0 with the type of the header (not [NO_RECORD]), an empty
    payload, and [read_accept] called. *)
Theorem dtls_zero_length_record_delivered (hdr rest : list byte) (c : Z)
    (dg : bool) (rec0 : TLS_Record) (sn : option S) :
  let version := mkVersion (at_ hdr 1) (at_ hdr 2) in
  let seq := load_be64 (skipn 3 hdr) in
  length hdr = 13%nat ->
  is_datagram_protocol version = true ->
  make_uint16 (at_ hdr 11) (at_ hdr 12) = 0 ->
  match sn with Some s => already_seen s seq | None => false end = false ->
  Z.shiftr seq 48 = 0 ->
  read_dtls_record gc (mkReader [] (mkInput (hdr ++ rest) c dg) rec0 sn) =
  Returned 0 (mkReader [] (mkInput rest (c + 13 + 0) dg)
                (mkRecord [] seq version (Record_Type_of (at_ hdr 0)))
                (option_map (fun s => read_accept s seq) sn)).
Proof.
  intros version seq Hlen Hdg Hsize Hseen Hepoch.
  apply (dtls_epoch0_dispatch hdr [] rest c dg rec0 sn Hlen Hdg Hsize); try assumption.
  vm_compute. discriminate.
Qed.

(** C3, what the code does where the claim fails.  At epoch 0 the TLS
    reader copies the body, sets the type from octet 0, clears the read
    buffer and returns 0, but the sequence-number object it was given is
    left as it was: [read_accept] is not called (the DTLS reader calls it,
    see [dtls_epoch0_dispatch]). *)
Theorem tls_epoch0_read_accept_skipped (hdr body rest : list byte) (c : Z)
    (dg : bool) (rec0 : TLS_Record) (sn : S) :
  let version := mkVersion (at_ hdr 1) (at_ hdr 2) in
  length hdr = 5%nat ->
  is_datagram_protocol version = false ->
  make_uint16 (at_ hdr 3) (at_ hdr 4) = size body ->
  0 < size body <= MAX_CIPHERTEXT_SIZE ->
  current_read_epoch sn = 0 ->
  read_tls_record gc (mkReader [] (mkInput (hdr ++ body ++ rest) c dg) rec0 (Some sn)) =
  Returned 0 (mkReader [] (mkInput rest (c + 5 + size body) dg)
                (mkRecord body (next_read_sequence sn) version
                          (Record_Type_of (at_ hdr 0)))
                (Some sn)).
Proof.
  intros version Hlen Hdg Hsize Hbody Hepoch.
  rewrite (read_tls_record_complete gc hdr body rest c dg rec0 (Some sn) Hlen Hsize).
  cbv zeta. fold version. rewrite Hdg.
  destruct (Z.gtb_spec (size body) MAX_CIPHERTEXT_SIZE); [lia|].
  destruct (Z.eqb_spec (size body) 0); [lia|].
  rewrite Hepoch. reflexivity.
Qed.

End Datagram_Reader.

Lemma dtls_seen_after_accept (sn : Datagram_Sequence_Numbers) (s : Z) :
  dtls_already_seen (dtls_read_accept sn s) s = true.
Proof.
  unfold dtls_already_seen, dtls_read_accept, window_size.
  set (k := window_key s). set (h := m_window_highest sn).
  destruct (Z.gtb_spec k h) as [Hgt|Hle]; cbn [m_window_highest m_window_bits].
  - destruct (Z.gtb_spec k k); [lia|].
    rewrite Z.sub_diag. cbn [Z.geb Z.compare].
    rewrite Z.lor_spec. change (Z.testbit 1 0) with true. apply orb_true_r.
  - destruct (Z.geb_spec (h - k) 64) as [Hfar|Hnear]; fold h.
    + destruct (Z.gtb_spec k h); [lia|].
      destruct (Z.geb_spec (h - k) 64); [reflexivity|lia].
    + cbn [m_window_highest m_window_bits].
      destruct (Z.gtb_spec k h); [lia|].
      destruct (Z.geb_spec (h - k) 64); [reflexivity|].
      rewrite Z.lor_spec, Z.shiftl_spec by lia.
      rewrite Z.sub_diag. change (Z.testbit 1 0) with true. apply orb_true_r.
Qed.

Lemma dtls_seen_preserved (sn : Datagram_Sequence_Numbers) (s s' : Z) :
  dtls_already_seen sn s = true ->
  dtls_already_seen (dtls_read_accept sn s') s = true.
Proof.
  unfold dtls_already_seen, dtls_read_accept, window_size.
  set (k := window_key s). set (k' := window_key s'). set (h := m_window_highest sn).
  intros Hseen.
  destruct (Z.gtb_spec k h) as [Hgt|Hle]; [discriminate|].
  destruct (Z.gtb_spec k' h) as [Hgt'|Hle']; cbn [m_window_highest m_window_bits].
  - destruct (Z.gtb_spec k k'); [lia|].
    destruct (Z.geb_spec (k' - k) 64) as [|Hnear]; [reflexivity|].
    destruct (Z.geb_spec (h - k) 64); [lia|].
    destruct (Z.geb_spec (k' - h) 64); [lia|].
    rewrite Z.lor_spec. apply orb_true_iff. left.
    rewrite Z.mod_pow2_bits_low by lia.
    rewrite Z.shiftl_spec by lia.
    replace (k' - k - (k' - h)) with (h - k) by lia. exact Hseen.
  - destruct (Z.geb_spec (h - k') 64); fold h.
    + destruct (Z.gtb_spec k h); [lia|]. exact Hseen.
    + cbn [m_window_highest m_window_bits].
      destruct (Z.gtb_spec k h); [lia|].
      destruct (Z.geb_spec (h - k) 64); [reflexivity|].
      rewrite Z.lor_spec, Hseen. reflexivity.
Qed.

(** The window modelled from the spec keeps the replay-window contract. *)
Lemma datagram_replay_window : replay_window Datagram_Sequence_Numbers.
Proof.
  intros sn s Hacc. induction Hacc as [sn s|sn s s' _ IH].
  - apply dtls_seen_after_accept.
  - apply dtls_seen_preserved. exact IH.
Qed.

(** C2 at a datagram of epoch 1 for which there is no cipher state. *)
Lemma dtls_silent_drop_witness :
  exists st',
    read_dtls_record no_cipherstate
      (reader_on S5_bytes true (Some (mkDatagram 0 0 1))) = Returned 0 st' /\
    rec_type (rec st') = NO_RECORD /\
    readbuf st' = [] /\
    sequence_numbers st' = Some (mkDatagram 0 0 1).
Proof.
  apply (proj2 (dtls_silent_drop no_cipherstate)
           (firstn 13 S5_bytes) (skipn 13 S5_bytes) [] 0 true empty_record
           (Some (mkDatagram 0 0 1)) Internal_Error);
    try reflexivity.
  - vm_compute. discriminate.
  - vm_compute. discriminate.
  - apply missing_cipher_state. reflexivity.
Defined.

(** S5: the window has accepted (epoch 1, sequence 5); the same record
    again is dropped. *)
Lemma dtls_replay_rejected_witness :
  exists st',
    read_dtls_record no_cipherstate
      (reader_on S5_bytes true (Some (read_accept (mkDatagram 0 0 1) S5_sequence)))
      = Returned 0 st' /\
    rec_type (rec st') = NO_RECORD /\
    sequence_numbers st' = Some (read_accept (mkDatagram 0 0 1) S5_sequence) /\
    readbuf st' = [].
Proof.
  apply (dtls_replay_rejected no_cipherstate
           (firstn 13 S5_bytes) (skipn 13 S5_bytes) [] 0 true empty_record
           (read_accept (mkDatagram 0 0 1) S5_sequence) S5_sequence
           datagram_replay_window (accepted_now _ _));
    reflexivity.
Defined.

(** C4 at a DTLS datagram of epoch 0, sequence 5 and length 0: it comes
    back as an empty handshake record and takes its place in the window. *)
Lemma dtls_zero_length_record_delivered_witness :
  read_dtls_record no_cipherstate
    (reader_on dtls_empty_bytes true (Some (mkDatagram 0 0 0))) =
  Returned 0 (mkReader [] (mkInput [] 13 true)
                (mkRecord [] 5 DTLS_V12 HANDSHAKE)
                (Some (mkDatagram 5 1 0))).
Proof.
  exact (dtls_zero_length_record_delivered no_cipherstate
           dtls_empty_bytes [] 0 true empty_record (Some (mkDatagram 0 0 0))
           eq_refl eq_refl eq_refl eq_refl eq_refl).
Defined.

(** C3 at S1 with a stream sequence-number object at epoch 0: the record is
    returned and the object still says that sequence 0 comes next. *)
Lemma tls_epoch0_read_accept_skipped_witness :
  read_tls_record no_cipherstate
    (reader_on S1_bytes false (Some (mkStream 0 0))) =
  Returned 0 (mkReader [] (mkInput [] 9 false)
                (mkRecord (octets [1; 2; 3; 4]) 0 TLS_V12 HANDSHAKE)
                (Some (mkStream 0 0))).
Proof.
  exact (tls_epoch0_read_accept_skipped no_cipherstate
           (firstn 5 S1_bytes) (skipn 5 S1_bytes) [] 0 false empty_record
           (mkStream 0 0) eq_refl eq_refl eq_refl
           ltac:(vm_compute; split; [reflexivity|discriminate]) eq_refl).
Defined.

(* ================================================================== *)
(** * Incremental parsing *)
(* ================================================================== *)

Section Incremental.

Context {S : Type} {SN : Connection_Sequence_Numbers S}.
Variable gc : Z -> option Connection_Cipher_State.

Lemma read_tls_record_phases (st : reader S) :
  read_tls_record gc st =
  match tls_header_phase st with
  | inl out => out
  | inr st' => tls_record_phase gc st'
  end.
Proof. reflexivity. Qed.

(** Filling from two pieces is filling from their concatenation, as long
    as the first piece fits. *)
Lemma fill_buffer_to_split (rb a b : list byte) (c : Z) (dg : bool) (d : Z) :
  size rb + size a <= d ->
  fill_buffer_to (rb ++ a) (mkInput b (c + size a) dg) d =
  fill_buffer_to rb (mkInput (a ++ b) c dg) d.
Proof.
  intros Hfit. pose proof (size_nonneg a) as Ha. pose proof (size_nonneg b) as Hb.
  pose proof (size_nonneg rb) as Hrb.
  unfold fill_buffer_to, input_size. cbn [input_data get_consumed is_datagram].
  rewrite !size_app.
  destruct (Z.geb_spec (size rb) d) as [Hge|Hlt].
  - assert (a = []) by (apply size_nil_inv; lia). subst a.
    change (size (@nil byte)) with 0. rewrite !Z.add_0_r, app_nil_r.
    destruct (Z.geb_spec (size rb) d); [reflexivity|lia].
  - destruct (Z.geb_spec (size rb + size a) d) as [Hfull|Hroom].
    + replace (Z.min (size a + size b) (d - size rb)) with (size a) by lia.
      rewrite to_nat_size, firstn_length_app, skipn_length_app.
      replace (d - (size rb + size a)) with 0 by lia. reflexivity.
    + replace (Z.min (size a + size b) (d - size rb))
        with (size a + Z.min (size b) (d - (size rb + size a))) by lia.
      set (t := Z.min (size b) (d - (size rb + size a))).
      assert (Ht : 0 <= t) by (subst t; lia).
      replace (Z.to_nat (size a + t)) with (length a + Z.to_nat t)%nat
        by (unfold size; lia).
      rewrite firstn_app_2, skipn_app.
      rewrite (skipn_all2 a) by lia.
      replace (length a + Z.to_nat t - length a)%nat with (Z.to_nat t) by lia.
      rewrite <- app_assoc, size_app. cbn [app].
      rewrite !Z.add_assoc. reflexivity.
Qed.

Lemma fill_buffer_to_more (rb a : list byte) (c : Z) (dg : bool) (d n : Z)
    (rb' : list byte) (inp' : Record_Raw_Input) :
  fill_buffer_to rb (mkInput a c dg) d = (n, rb', inp') ->
  n <> 0 ->
  rb' = rb ++ a /\ inp' = mkInput [] (c + size a) dg /\
  n = d - size rb - size a /\ size rb + size a < d.
Proof.
  unfold fill_buffer_to, input_size. cbn [input_data get_consumed is_datagram].
  pose proof (size_nonneg a) as Ha.
  destruct (Z.geb_spec (size rb) d) as [Hge|Hlt]; intros Hfill Hn.
  - injection Hfill as Hz _ _. congruence.
  - injection Hfill as Hneeded Hrb Hinp.
    rewrite size_app in Hneeded.
    assert (Hfirst : size (firstn (Z.to_nat (Z.min (size a) (d - size rb))) a)
                     = Z.min (size a) (d - size rb)).
    { unfold size. rewrite length_firstn. unfold size in *. lia. }
    rewrite Hfirst in Hneeded.
    assert (Hmin : Z.min (size a) (d - size rb) = size a) by lia.
    rewrite Hmin in *. rewrite to_nat_size in *.
    rewrite firstn_all in Hrb. rewrite skipn_all in Hinp.
    repeat split; try congruence; lia.
Qed.

Lemma at_app_l (rb a : list byte) (i : nat) :
  Z.of_nat i < size rb -> at_ (rb ++ a) i = at_ rb i.
Proof. intros Hi. unfold at_. apply app_nth1. unfold size in Hi. lia. Qed.

(** A call that asks for more has taken all of its input and has left the
    rest of the work as it was: the next call on more input does what one
    call on all the input does. *)
Lemma tls_record_phase_split (st : reader S) (a b : list byte) (n : Z)
    (st1 : reader S) :
  TLS_HEADER_SIZE <= size (readbuf st) ->
  tls_record_phase gc (feed st a) = Returned n st1 ->
  n <> 0 ->
  TLS_HEADER_SIZE <= size (readbuf st1) /\
  tls_record_phase gc (feed st1 b) = tls_record_phase gc (feed st (a ++ b)).
Proof.
  intros Hhdr Hcall Hn. unfold TLS_HEADER_SIZE in Hhdr.
  unfold tls_record_phase in Hcall. unfold feed in Hcall.
  revert Hcall. reader_simpl.
  destruct (is_datagram_protocol _) eqn:Hdg; [discriminate|].
  set (rs := make_uint16 _ _).
  destruct (rs >? MAX_CIPHERTEXT_SIZE) eqn:Hmax; [discriminate|].
  destruct (rs =? 0) eqn:Hzero; [discriminate|].
  destruct (fill_buffer_to _ _ _) as [[needed rb'] inp'] eqn:Hfill.
  destruct (Z.eqb_spec needed 0) as [Hz|Hnz]; cbn [negb].
  - destruct (negb (_ =? _)); [discriminate|].
    destruct (sequence_numbers st) as [s|]; reader_simpl.
    + destruct (current_read_epoch s =? 0); [intros H; inversion H; congruence|].
      destruct (decrypt_for_epoch _ _ _ _ _) as [st2 [e|]]; try discriminate;
        intros H; inversion H; congruence.
    + change (0 =? 0) with true. cbv iota. intros H; inversion H; congruence.
  - intros H. injection H as Hneeded Hst1. subst needed.
    destruct (fill_buffer_to_more _ _ _ _ _ _ _ _ Hfill Hn)
      as (Hrb & Hinp & _ & Hroom).
    subst rb' inp' st1. reader_simpl.
    pose proof (size_nonneg a) as Ha.
    split; [rewrite size_app; unfold TLS_HEADER_SIZE; lia|].
    unfold tls_record_phase, feed. reader_simpl.
    rewrite !at_app_l by lia.
    rewrite Hdg. fold rs. rewrite Hmax, Hzero.
    rewrite fill_buffer_to_split by lia.
    reflexivity.
Qed.

Lemma fill_buffer_to_short (rb a : list byte) (c : Z) (dg : bool) (d : Z) :
  size rb + size a < d ->
  fill_buffer_to rb (mkInput a c dg) d =
  (d - size rb - size a, rb ++ a, mkInput [] (c + size a) dg).
Proof.
  intros Hless. pose proof (size_nonneg a) as Ha.
  unfold fill_buffer_to, input_size. cbn [input_data get_consumed is_datagram].
  destruct (Z.geb_spec (size rb) d); [lia|].
  replace (Z.min (size a) (d - size rb)) with (size a) by lia.
  rewrite to_nat_size, firstn_all, skipn_all, size_app, Z.sub_add_distr.
  reflexivity.
Qed.

(** How the header phase ends on the input [a]: the header was there
    already; or [a] does not complete it; or a first part of [a] does. *)
Lemma tls_header_phase_cases (st : reader S) (a : list byte) :
  let c := get_consumed (raw_input st) in
  let dg := is_datagram (raw_input st) in
  (TLS_HEADER_SIZE <= size (readbuf st) /\
   tls_header_phase (feed st a) = inr (feed st a)) \/
  (size (readbuf st) + size a < TLS_HEADER_SIZE /\
   tls_header_phase (feed st a) =
     inl (Returned (TLS_HEADER_SIZE - size (readbuf st) - size a)
            (mkReader (readbuf st ++ a) (mkInput [] (c + size a) dg)
                      (rec st) (sequence_numbers st)))) \/
  (size (readbuf st) < TLS_HEADER_SIZE /\
   exists a1 a2,
     a = a1 ++ a2 /\ size (readbuf st) + size a1 = TLS_HEADER_SIZE /\
     tls_header_phase (feed st a) =
       inr (mkReader (readbuf st ++ a1) (mkInput a2 (c + size a1) dg)
                     (rec st) (sequence_numbers st))).
Proof.
  intros c dg. unfold tls_header_phase, feed. reader_simpl.
  pose proof (size_nonneg a) as Ha.
  destruct (Z.ltb_spec (size (readbuf st)) TLS_HEADER_SIZE) as [Hshort|Hfull].
  - right.
    destruct (Z.ltb_spec (size (readbuf st) + size a) TLS_HEADER_SIZE) as [Hless|Hmore].
    + left. split; [exact Hless|].
      rewrite fill_buffer_to_short by exact Hless. reader_simpl.
      destruct (Z.eqb_spec (TLS_HEADER_SIZE - size (readbuf st) - size a) 0);
        [lia|]. reflexivity.
    + right. split; [exact Hshort|].
      set (t := Z.to_nat (TLS_HEADER_SIZE - size (readbuf st))).
      exists (firstn t a), (skipn t a).
      assert (Ht : size (firstn t a) = TLS_HEADER_SIZE - size (readbuf st)).
      { unfold size. rewrite length_firstn. subst t. unfold size in *. lia. }
      split; [symmetry; apply firstn_skipn|].
      split; [lia|].
      rewrite <- (firstn_skipn t a) at 1.
      replace TLS_HEADER_SIZE with (size (readbuf st) + size (firstn t a)) at 1 by lia.
      rewrite fill_buffer_to_complete. reader_simpl.
      change (0 =? 0) with true. cbn [negb].
      rewrite size_app.
      replace (size (readbuf st) + size (firstn t a) =? TLS_HEADER_SIZE) with true
        by (symmetry; apply Z.eqb_eq; lia).
      reflexivity.
  - left. split; [lia|reflexivity].
Qed.

(** The same for whole calls. *)
Lemma read_tls_record_split (st : reader S) (a b : list byte) (n : Z)
    (st1 : reader S) :
  read_tls_record gc (feed st a) = Returned n st1 ->
  n <> 0 ->
  read_tls_record gc (feed st1 b) = read_tls_record gc (feed st (a ++ b)).
Proof.
  intros Hcall Hn.
  rewrite read_tls_record_phases in Hcall.
  destruct (tls_header_phase_cases st a)
    as [[Hfull Hhdr]|[[Hless Hhdr]|[Hshort (a1 & a2 & Ha & Hsz & Hhdr)]]];
    rewrite Hhdr in Hcall.
  - destruct (tls_record_phase_split st a b n st1 Hfull Hcall Hn) as [Hst1 Hsplit].
    rewrite !read_tls_record_phases.
    destruct (tls_header_phase_cases st1 b) as [[_ H1]|[[H1 _]|[H1 _]]];
      try (pose proof (size_nonneg b); lia).
    destruct (tls_header_phase_cases st (a ++ b)) as [[_ H2]|[[H2 _]|[H2 _]]];
      try (pose proof (size_nonneg (a ++ b)); lia).
    rewrite H1, H2. exact Hsplit.
  - injection Hcall as _ Hst1. subst st1.
    rewrite !read_tls_record_phases. f_equal.
    unfold tls_header_phase, feed. reader_simpl.
    rewrite size_app.
    pose proof (size_nonneg a) as Ha.
    destruct (Z.ltb_spec (size (readbuf st) + size a) TLS_HEADER_SIZE); [|lia].
    destruct (Z.ltb_spec (size (readbuf st)) TLS_HEADER_SIZE); [|lia].
    rewrite fill_buffer_to_split by lia. reflexivity.
  - subst a.
    set (sth := mkReader (readbuf st ++ a1)
                  (mkInput [] (get_consumed (raw_input st) + size a1)
                           (is_datagram (raw_input st)))
                  (rec st) (sequence_numbers st)).
    assert (Hsth : TLS_HEADER_SIZE <= size (readbuf sth))
      by (subst sth; reader_simpl; rewrite size_app; lia).
    destruct (tls_record_phase_split sth a2 b n st1 Hsth Hcall Hn) as [Hst1 Hsplit].
    rewrite !read_tls_record_phases.
    destruct (tls_header_phase_cases st1 b) as [[_ H1]|[[H1 _]|[H1 _]]];
      try (pose proof (size_nonneg b); lia).
    rewrite H1, Hsplit.
    unfold tls_header_phase, feed. reader_simpl.
    destruct (Z.ltb_spec (size (readbuf st)) TLS_HEADER_SIZE); [|lia].
    rewrite <- app_assoc.
    replace TLS_HEADER_SIZE with (size (readbuf st) + size a1) at 1 by lia.
    rewrite fill_buffer_to_complete. reader_simpl.
    change (0 =? 0) with true. cbn [negb].
    rewrite size_app.
    replace (size (readbuf st) + size a1 =? TLS_HEADER_SIZE) with true
      by (symmetry; apply Z.eqb_eq; lia).
    reflexivity.
Qed.

(** Any number of pieces. *)
Lemma deliver_pieces (pieces : list (list byte)) (last : list byte)
    (st st' : reader S) :
  deliver gc st pieces = Some st' ->
  read_tls_record gc (feed st' last) =
  read_tls_record gc (feed st (concat pieces ++ last)).
Proof.
  revert st. induction pieces as [|p ps IH]; intros st Hdel; cbn [deliver] in Hdel.
  - injection Hdel as ->. reflexivity.
  - destruct (read_tls_record gc (feed st p)) as [n st1|e st1] eqn:Hcall;
      [|discriminate].
    destruct (Z.ltb_spec 0 n) as [Hpos|_]; [|discriminate].
    rewrite (IH st1 Hdel).
    rewrite (read_tls_record_split st p (concat ps ++ last) n st1 Hcall) by lia.
    cbn [concat]. rewrite app_assoc. reflexivity.
Qed.

(** A whole, well-formed TLS record: five header octets with a stream
    version and a length field that is the length of the body, which is not
    empty and not too long. *)
Variables hdr body : list byte.
Hypothesis Hhdr : length hdr = 5%nat.
Hypothesis Hversion :
  is_datagram_protocol (mkVersion (at_ hdr 1) (at_ hdr 2)) = false.
Hypothesis Hsize : make_uint16 (at_ hdr 3) (at_ hdr 4) = size body.
Hypothesis Hbody : 0 < size body <= MAX_CIPHERTEXT_SIZE.

(** On less than the whole record the reader asks for more. *)
Lemma read_tls_record_prefix (q r : list byte) (c : Z) (dg : bool)
    (rec0 : TLS_Record) (sn : option S) :
  q ++ r = hdr ++ body -> r <> [] ->
  exists n st1,
    read_tls_record gc (mkReader [] (mkInput q c dg) rec0 sn) = Returned n st1 /\
    0 < n.
Proof.
  intros Hq Hr.
  assert (Hrpos : 0 < size r).
  { destruct r; [contradiction|]. unfold size. cbn [length]. lia. }
  assert (Hlen : size q + size r = 5 + size body).
  { rewrite <- !size_app, Hq. rewrite size_app. unfold size at 1. rewrite Hhdr. reflexivity. }
  set (st0 := mkReader [] (mkInput [] c dg) rec0 sn).
  change (mkReader [] (mkInput q c dg) rec0 sn) with (feed st0 q).
  rewrite read_tls_record_phases.
  destruct (tls_header_phase_cases st0 q)
    as [[Hfull _]|[[Hless Hh]|[_ (a1 & a2 & Ha & Hsz & Hh)]]]; rewrite ?Hh.
  - unfold st0 in Hfull. cbn [readbuf] in Hfull.
    change (size (@nil byte)) with 0 in Hfull. unfold TLS_HEADER_SIZE in Hfull. lia.
  - eexists. eexists. split; [reflexivity|].
    unfold st0 in *. cbn [readbuf] in *.
    change (size (@nil byte)) with 0 in *. unfold TLS_HEADER_SIZE in *. lia.
  - unfold st0 in *. cbn [readbuf raw_input rec sequence_numbers
                          get_consumed is_datagram] in *.
    change (size (@nil byte)) with 0 in *.
    cbn [app] in *.
    assert (Ha1 : a1 = hdr /\ a2 ++ r = body).
    { subst q. rewrite <- app_assoc in Hq.
      apply app_eq_app in Hq. destruct Hq as [l [[H1 H2]|[H1 H2]]].
      - assert (l = []).
        { apply size_nil_inv. rewrite H1, size_app in Hsz.
          unfold size in Hsz at 1. rewrite Hhdr in Hsz.
          unfold TLS_HEADER_SIZE in Hsz. lia. }
        subst l. rewrite app_nil_r in H1. cbn [app] in H2. split; congruence.
      - assert (l = []).
        { apply size_nil_inv.
          assert (size hdr = 5) by (unfold size; rewrite Hhdr; reflexivity).
          rewrite H1, size_app in H. unfold TLS_HEADER_SIZE in Hsz. lia. }
        subst l. rewrite app_nil_r in H1. cbn [app] in H2. split; congruence. }
    destruct Ha1 as [-> Hbody2].
    unfold tls_record_phase. reader_simpl.
    rewrite Hversion, Hsize.
    destruct (Z.gtb_spec (size body) MAX_CIPHERTEXT_SIZE); [lia|].
    destruct (Z.eqb_spec (size body) 0); [lia|].
    assert (Ha2 : size a2 + size r = size body) by (rewrite <- size_app, Hbody2; reflexivity).
    rewrite fill_buffer_to_short by (unfold TLS_HEADER_SIZE in *; lia).
    reader_simpl.
    destruct (Z.eqb_spec (TLS_HEADER_SIZE + size body - size hdr - size a2) 0);
      [unfold TLS_HEADER_SIZE in *; lia|]. cbn [negb].
    eexists. eexists. split; [reflexivity|]. unfold TLS_HEADER_SIZE in *. lia.
Qed.

Lemma deliver_prefix (pieces : list (list byte)) (pre r : list byte)
    (st0 st : reader S) :
  readbuf st0 = [] ->
  (forall x, read_tls_record gc (feed st x) =
             read_tls_record gc (feed st0 (pre ++ x))) ->
  (pre ++ concat pieces) ++ r = hdr ++ body -> r <> [] ->
  exists st',
    deliver gc st pieces = Some st' /\
    forall x, read_tls_record gc (feed st' x) =
              read_tls_record gc (feed st0 ((pre ++ concat pieces) ++ x)).
Proof.
  intros Hempty. revert pre st.
  induction pieces as [|p ps IH]; intros pre st Hst Hrec Hr.
  - exists st. split; [reflexivity|]. cbn [concat]. rewrite app_nil_r. exact Hst.
  - cbn [concat] in *. cbn [deliver].
    assert (Hpre : exists n st1,
               read_tls_record gc (feed st p) = Returned n st1 /\ 0 < n).
    { rewrite Hst. destruct st0 as [rb0 [d0 c0 dg0] rec0 sn0].
      cbn [readbuf] in Hempty. subst rb0. unfold feed. reader_simpl.
      apply (read_tls_record_prefix (pre ++ p) (concat ps ++ r)).
      - rewrite <- Hrec. rewrite <- !app_assoc. reflexivity.
      - intros Hnil. apply app_eq_nil in Hnil. tauto. }
    destruct Hpre as (n & st1 & Hcall & Hpos).
    rewrite Hcall. destruct (Z.ltb_spec 0 n); [|lia].
    destruct (IH (pre ++ p) st1) as (st' & Hdel & Hnext).
    + intros x.
      rewrite (read_tls_record_split st p x n st1 Hcall) by lia.
      rewrite Hst, app_assoc. reflexivity.
    + rewrite <- Hrec. rewrite <- !app_assoc. reflexivity.
    + exact Hr.
    + exists st'. split; [exact Hdel|].
      intros x. rewrite Hnext. rewrite <- !app_assoc. reflexivity.
Qed.

(** C9.  Incremental parse.  Split a whole TLS record at any boundaries
    into pieces, the last one not empty, and hand the pieces to successive
    calls of [read_tls_record]: every call but the last answers with a
    positive needed-bytes hint, and the last call ends exactly as the single
    call on all the octets does: same return value, same record (type,
    version, sequence, payload), same buffers and sequence numbers. *)
Theorem incremental_parse (pieces : list (list byte)) (last : list byte)
    (c : Z) (dg : bool) (rec0 : TLS_Record) (sn : option S) :
  concat pieces ++ last = hdr ++ body ->
  last <> [] ->
  let st0 := mkReader [] (mkInput [] c dg) rec0 sn in
  exists st',
    deliver gc st0 pieces = Some st' /\
    read_tls_record gc (feed st' last) =
    read_tls_record gc (feed st0 (hdr ++ body)).
Proof.
  intros Hrec Hlast st0.
  destruct (deliver_prefix pieces [] last st0 st0 eq_refl (fun x => eq_refl) Hrec Hlast)
    as (st' & Hdel & Hnext).
  exists st'. split; [exact Hdel|].
  rewrite Hnext. cbn [app]. rewrite Hrec. reflexivity.
Qed.

End Incremental.

(** S2: S1 delivered in pieces of 3, 1 and 5 octets. *)
Lemma incremental_parse_witness :
  exists st',
    deliver no_cipherstate (reader_on [] false (@None Stream_Sequence_Numbers))
            [octets [22; 3; 3]; octets [0]] = Some st' /\
    read_tls_record no_cipherstate (feed st' (octets [4; 1; 2; 3; 4])) =
    Returned 0 (mkReader [] (mkInput [] 9 false)
                  (mkRecord (octets [1; 2; 3; 4]) 0 TLS_V12 HANDSHAKE) None).
Proof.
  destruct (incremental_parse (S := Stream_Sequence_Numbers) no_cipherstate
              (firstn 5 S1_bytes) (skipn 5 S1_bytes)
              eq_refl eq_refl eq_refl
              ltac:(vm_compute; split; [reflexivity|discriminate])
              [octets [22; 3; 3]; octets [0]] (octets [4; 1; 2; 3; 4])
              0 false empty_record None eq_refl ltac:(discriminate))
    as (st' & Hdel & Hlast).
  exists st'. split; [exact Hdel|]. rewrite Hlast. reflexivity.
Defined.

(* ================================================================== *)
(** * Round trip *)
(* ================================================================== *)

Section Round_Trip.

Variables w r : Connection_Cipher_State.
Hypothesis Hpair : cipher_state_pair w r.

Lemma nonce_bytes_from_record_bounds : 0 <= nonce_bytes_from_record w <= 16.
Proof.
  destruct Hpair as (_ & _ & _ & _ & Hfmt).
  destruct (nonce_format w); intuition lia.
Qed.

(** The nonce the writer forms is the nonce the reader recovers from the
    explicit octets and the sequence number. *)
Lemma writer_nonce_is_reader_nonce (seq : Z) (rng : RandomNumberGenerator) :
  exists nonce cs' rng',
    aead_nonce_write w seq rng = Ok (nonce, cs', rng') /\
    size (explicit_nonce w nonce) = nonce_bytes_from_record w /\
    forall ctext,
      aead_nonce_read r (explicit_nonce w nonce ++ ctext)
                      (nonce_bytes_from_record w + size ctext) seq = Ok nonce.
Proof.
  destruct Hpair as (Hfmt & Hnbr & Hnbh & _ & Hinv).
  unfold aead_nonce_write, aead_nonce_read, explicit_nonce.
  rewrite <- Hfmt, <- Hnbr, <- Hnbh.
  destruct (nonce_format w).
  - (* CBC_MODE *)
    destruct Hinv as [Hb Hn].
    destruct (Z.eqb_spec (size (m_nonce w)) 0) as [Hz|Hnz]; cbn [negb].
    + unfold randomize.
      set (nonce := map (rng_tape rng) (List.seq (rng_pos rng) (Z.to_nat (nonce_bytes_from_record w)))).
      assert (Hlen : length nonce = Z.to_nat (nonce_bytes_from_record w))
        by (subst nonce; rewrite length_map, length_seq; reflexivity).
      assert (Hex : (if nonce_bytes_from_record w >? 0 then nonce else []) = nonce).
      { destruct (Z.gtb_spec (nonce_bytes_from_record w) 0); [reflexivity|].
        destruct nonce; [reflexivity|]. cbn [length] in Hlen. lia. }
      eexists. eexists. eexists. split; [reflexivity|]. rewrite Hex.
      split; [unfold size; lia|].
      intros ctext. pose proof (size_nonneg ctext).
      destruct (Z.ltb_spec (nonce_bytes_from_record w + size ctext)
                           (nonce_bytes_from_record w)); [lia|].
      rewrite <- Hlen, firstn_length_app. reflexivity.
    + destruct Hn as [Hn|Hn]; [rewrite Hn in Hnz; contradiction|].
      destruct (Z.gtb_spec (nonce_bytes_from_record w) 0); [|lia].
      eexists. eexists. eexists. split; [reflexivity|].
      split; [exact Hn|].
      intros ctext. pose proof (size_nonneg ctext).
      destruct (Z.ltb_spec (nonce_bytes_from_record w + size ctext)
                           (nonce_bytes_from_record w)); [lia|].
      rewrite <- Hn, to_nat_size, firstn_length_app. reflexivity.
  - (* AEAD_XOR_12 *)
    destruct Hinv as (Hm & _ & _ & Hz). rewrite Hz, <- Hm. cbn [Z.gtb Z.compare].
    eexists. eexists. eexists. split; [reflexivity|].
    split; [reflexivity|]. intros ctext. reflexivity.
  - (* AEAD_IMPLICIT_4 *)
    destruct Hinv as (Hm & Hsz & Hh & Hrec). rewrite Hh, Hrec, <- Hm, Hsz.
    cbn [Z.gtb Z.compare Z.eqb BOTAN_ASSERT bind].
    destruct (m_nonce w) as [|n0 [|n1 [|n2 [|n3 [|n4 rest]]]]];
      try (unfold size in Hsz; cbn [length] in Hsz; lia).
    eexists. eexists. eexists. split; [reflexivity|].
    split; [reflexivity|].
    intros ctext. pose proof (size_nonneg ctext).
    destruct (Z.ltb_spec (8 + size ctext) 8); [lia|].
    reflexivity.
Qed.

Lemma output_length_bounds (n : Z) :
  0 <= n -> 0 < output_length (aead w) n <= n + 1024.
Proof.
  intros Hn. destruct Hpair as (_ & _ & _ & Hp & _).
  pose proof (pair_min_final _ _ Hp n Hn). pose proof (pair_tag _ _ Hp).
  pose proof (pair_expansion _ _ Hp n Hn). lia.
Qed.

(** What [write_record] writes with the cipher state [w]. *)
Lemma write_record_encrypted (msg : Record_Message) (version : Protocol_Version)
    (seq : Z) (rng : RandomNumberGenerator) :
  get_size msg <= 2 ^ 14 ->
  exists nonce cs' rng',
    let aad := format_ad seq (get_type msg) version (get_size msg mod 2 ^ 16) in
    let ctext := fst (process (aead w) nonce aad (get_data msg)) in
    let rec_size := output_length (aead w) (get_size msg) + nonce_bytes_from_record w in
    write_record msg version seq (Some w) rng =
      Ok (record_header (get_type msg) version seq rec_size
            ++ explicit_nonce w nonce ++ ctext, Some cs', rng') /\
    size (explicit_nonce w nonce ++ ctext) = rec_size /\
    0 < rec_size < MAX_CIPHERTEXT_SIZE - DTLS_HEADER_SIZE /\
    size (explicit_nonce w nonce) = nonce_bytes_from_record w /\
    forall ctext',
      aead_nonce_read r (explicit_nonce w nonce ++ ctext')
                      (nonce_bytes_from_record w + size ctext') seq = Ok nonce.
Proof.
  intros Hlen.
  destruct (writer_nonce_is_reader_nonce seq rng)
    as (nonce & cs' & rng' & Hwrite & Hexp & Hread).
  exists nonce, cs', rng'. cbv zeta.
  pose proof (size_nonneg (get_data msg)) as Hpayload.
  pose proof (output_length_bounds (get_size msg) Hpayload) as Hout.
  pose proof nonce_bytes_from_record_bounds as Hnbr.
  destruct Hpair as (_ & _ & _ & Hp & _).
  set (aad := format_ad seq (get_type msg) version (get_size msg mod 2 ^ 16)).
  set (rec_size := output_length (aead w) (get_size msg) + nonce_bytes_from_record w).
  assert (Hctext : size (fst (process (aead w) nonce aad (get_data msg)))
                   = output_length (aead w) (get_size msg))
    by apply (pair_enc_length _ _ Hp).
  assert (Hrs : 0 < rec_size < MAX_CIPHERTEXT_SIZE - DTLS_HEADER_SIZE).
  { subst rec_size. unfold MAX_CIPHERTEXT_SIZE, DTLS_HEADER_SIZE, TLS_HEADER_SIZE.
    change (2 ^ 14) with 16384 in *. lia. }
  repeat split; try lia.
  - unfold write_record. fold aad. fold rec_size. rewrite Hwrite. cbn [bind].
    unfold append_u16_len.
    rewrite Z.mod_small
      by (unfold MAX_CIPHERTEXT_SIZE, DTLS_HEADER_SIZE, TLS_HEADER_SIZE in Hrs;
          change (2 ^ 14) with 16384 in Hrs; change (2 ^ 16) with 65536; lia).
    rewrite Z.eqb_refl. cbn [BOTAN_ASSERT bind].
    assert (Hen : forall output : list byte,
               (if nonce_bytes_from_record w >? 0
                then match nonce_format w with
                     | CBC_MODE => output ++ nonce
                     | _ => output ++
                            firstn (Z.to_nat (nonce_bytes_from_record w))
                              (skipn (Z.to_nat (nonce_bytes_from_handshake w)) nonce)
                     end
                else output) = output ++ explicit_nonce w nonce).
    { intros output. unfold explicit_nonce.
      destruct (nonce_bytes_from_record w >? 0);
        [destruct (nonce_format w); reflexivity|].
      rewrite app_nil_r. reflexivity. }
    rewrite Hen.
    match goal with
    | |- context [skipn (length ?h) (?h ++ ?p)] => rewrite (skipn_length_app h p);
                                                  rewrite (firstn_length_app h p)
    end.
    pose proof (pair_encrypts _ _ Hp nonce aad (get_data msg)) as Henc.
    destruct (process (aead w) nonce aad (get_data msg)) as [tail e] eqn:Hproc.
    cbn [fst snd] in *. subst e.
    assert (Hhdr : record_header (get_type msg) version seq rec_size =
              (if is_datagram_protocol version
               then ((([] ++ [get_type msg]) ++ [major_version version]) ++
                     [minor_version version]) ++
                    map (fun i => get_byte 8 i seq) [0; 1; 2; 3; 4; 5; 6; 7]
               else (([] ++ [get_type msg]) ++ [major_version version]) ++
                    [minor_version version])
              ++ [get_byte 2 0 rec_size; get_byte 2 1 rec_size]).
    { unfold record_header. destruct (is_datagram_protocol version); reflexivity. }
    rewrite <- Hhdr.
    assert (Hsz : size ((record_header (get_type msg) version seq rec_size
                          ++ explicit_nonce w nonce) ++ tail) < MAX_CIPHERTEXT_SIZE).
    { rewrite !size_app, Hctext, Hexp. fold rec_size in Hrs.
      assert (size (record_header (get_type msg) version seq rec_size) <= DTLS_HEADER_SIZE).
      { unfold record_header. destruct (is_datagram_protocol version);
          vm_compute; discriminate. }
      subst rec_size. lia. }
    destruct (Z.ltb_spec
                (size ((record_header (get_type msg) version seq rec_size
                          ++ explicit_nonce w nonce) ++ tail))
                MAX_CIPHERTEXT_SIZE); [|lia].
    cbn [BOTAN_ASSERT bind]. rewrite <- app_assoc. reflexivity.
  - rewrite size_app, Hctext, Hexp. subst rec_size. lia.
  - exact Hread.
Qed.

Context {S : Type} {SN : Connection_Sequence_Numbers S}.
Variable gc : Z -> option Connection_Cipher_State.

(** Decrypting what the writer encrypted. *)
Lemma decrypt_for_epoch_round_trip (st : reader S) (epoch seq : Z)
    (version : Protocol_Version) (msg : Record_Message) (nonce : list byte) :
  let aad := format_ad seq (get_type msg) version (get_size msg mod 2 ^ 16) in
  let ctext := fst (process (aead w) nonce aad (get_data msg)) in
  gc epoch = Some r ->
  rec st = mkRecord [] seq version (Record_Type_of (get_type msg)) ->
  (forall ctext',
      aead_nonce_read r (explicit_nonce w nonce ++ ctext')
                      (nonce_bytes_from_record w + size ctext') seq = Ok nonce) ->
  size (explicit_nonce w nonce) = nonce_bytes_from_record w ->
  size (explicit_nonce w nonce ++ ctext) < 2 ^ 64 ->
  decrypt_for_epoch gc st epoch (explicit_nonce w nonce ++ ctext)
                    (size (explicit_nonce w nonce ++ ctext)) =
  (set_data st (get_data msg), None).
Proof.
  intros aad ctext Hgc Hrec Hread Hexp Hbound.
  pose proof (size_nonneg (get_data msg)) as Hpayload.
  pose proof nonce_bytes_from_record_bounds as Hnbr.
  destruct Hpair as (_ & Hnbr_eq & _ & Hp & _).
  assert (Hctext : size ctext = output_length (aead w) (get_size msg))
    by apply (pair_enc_length _ _ Hp).
  pose proof (pair_min_final _ _ Hp (get_size msg) Hpayload) as Hmin.
  pose proof (size_nonneg ctext) as Hc.
  unfold decrypt_for_epoch. rewrite Hgc, Hrec.
  cbn [rec_data rec_sequence rec_protocol_version rec_type].
  rewrite size_app in *. rewrite Hexp in *.
  assert (Hmsg : (nonce_bytes_from_record w + size ctext - nonce_bytes_from_record r)
                 mod 2 ^ 64 = size ctext).
  { rewrite <- Hnbr_eq. replace (nonce_bytes_from_record w + size ctext
                                 - nonce_bytes_from_record w) with (size ctext) by lia.
    apply Z.mod_small. lia. }
  rewrite (decrypt_record_runs r _ _ _ _ _ _ nonce (Hread ctext))
    by (rewrite Hmsg; lia).
  cbv zeta. rewrite Hmsg, <- Hnbr_eq, <- Hexp.
  rewrite !to_nat_size, skipn_length_app, firstn_all.
  rewrite Hctext, (pair_dec_length _ _ Hp) by exact Hpayload.
  cbn [Record_Type_u8]. fold aad.
  unfold ctext. rewrite (pair_decrypts _ _ Hp). cbn [app].
  unfold set_data. rewrite Hrec. reflexivity.
Qed.

(** C1, as amended.  Round trip.  For a writer and a reader cipher state
    derived from the same keys, any record type, any protocol version, any
    64-bit sequence number and any payload of at most 2^14 octets:
    [write_record] succeeds, and [read_record], in the mode of the version,
    with an empty read buffer and data buffer, the cipher state looked up
    for the (non-zero) epoch, and a sequence-number object that expects the
    sequence (TLS) or has not seen it (DTLS), returns 0 with exactly the
    original type and payload, the sequence and the version, the read
    buffer cleared and all input consumed, and has called
    [read_accept(seq)] once on the sequence-number object.  [write_record]
    itself takes the sequence number as an argument and keeps no counter. *)
Theorem record_round_trip (msg : Record_Message) (version : Protocol_Version)
    (seq : Z) (rng : RandomNumberGenerator) (sn : S) (rec0 : TLS_Record) :
  let datagram := is_datagram_protocol version in
  let epoch := if datagram then Z.shiftr seq 48 else current_read_epoch sn in
  get_size msg <= 2 ^ 14 ->
  0 <= seq < 2 ^ 64 ->
  rec_data rec0 = [] ->
  epoch <> 0 ->
  gc epoch = Some r ->
  (if datagram then already_seen sn seq = false else next_read_sequence sn = seq) ->
  exists output cs' rng',
    write_record msg version seq (Some w) rng = Ok (output, Some cs', rng') /\
    read_record gc (mkReader [] (mkInput output 0 datagram) rec0 (Some sn)) =
    Returned 0
      (mkReader [] (mkInput [] (size output) datagram)
                (mkRecord (get_data msg) seq version (Record_Type_of (get_type msg)))
                (Some (read_accept sn seq))).
Proof.
  intros datagram epoch Hlen Hseq Hdata Hepoch Hgc Hsn.
  destruct (write_record_encrypted msg version seq rng Hlen)
    as (nonce & cs' & rng' & Hw & Hsz & Hrs & Hexp & Hread).
  cbv zeta in Hw, Hsz, Hrs.
  set (aad := format_ad seq (get_type msg) version (get_size msg mod 2 ^ 16)) in *.
  set (ctext := fst (process (aead w) nonce aad (get_data msg))) in *.
  set (rec_size := output_length (aead w) (get_size msg) + nonce_bytes_from_record w) in *.
  set (body := explicit_nonce w nonce ++ ctext) in *.
  eexists. exists cs', rng'. split; [exact Hw|].
  assert (Hmax : rec_size < 2 ^ 16 /\ rec_size <= MAX_CIPHERTEXT_SIZE)
    by (unfold MAX_CIPHERTEXT_SIZE, DTLS_HEADER_SIZE, TLS_HEADER_SIZE in *;
        change (2 ^ 14) with 16384 in *; change (2 ^ 16) with 65536; lia).
  assert (Hdec : forall st : reader S,
             rec st = mkRecord [] seq version (Record_Type_of (get_type msg)) ->
             decrypt_for_epoch gc st epoch body (size body) =
             (set_data st (get_data msg), None)).
  { intros st Hst. apply (decrypt_for_epoch_round_trip st epoch seq version msg nonce);
      try assumption.
    fold aad. fold ctext. fold body. rewrite Hsz. change (2 ^ 64) with 18446744073709551616.
    change (2 ^ 16) with 65536 in Hmax. lia. }
  unfold read_record. cbn [raw_input is_datagram].
  destruct version as [major minor].
  subst datagram epoch.
  destruct (is_datagram_protocol (mkVersion major minor)) eqn:Hdg.
  - (* DTLS *)
    unfold record_header. rewrite Hdg.
    set (hdr := [get_type msg; major_version (mkVersion major minor);
                 minor_version (mkVersion major minor)]
                  ++ store_be64 seq
                  ++ [get_byte 2 0 rec_size; get_byte 2 1 rec_size]).
    rewrite <- (app_nil_r body) at 1.
    rewrite (read_dtls_record_complete gc hdr body [] 0 true rec0 (Some sn) eq_refl)
      by (subst hdr; cbn [at_ nth app store_be64 map];
          rewrite make_uint16_get_byte, Z.mod_small by lia; symmetry; exact Hsz).
    cbv zeta.
    change (mkVersion (at_ hdr 1) (at_ hdr 2)) with (mkVersion major minor).
    rewrite Hdg. cbn [negb]. rewrite Hsz.
    destruct (Z.gtb_spec rec_size MAX_CIPHERTEXT_SIZE); [lia|].
    change (skipn 3 hdr)
      with (store_be64 seq ++ [get_byte 2 0 rec_size; get_byte 2 1 rec_size]).
    rewrite load_be64_store_be64, Z.mod_small by exact Hseq.
    rewrite Hsn.
    destruct (Z.eqb_spec (Z.shiftr seq 48) 0); [contradiction|].
    rewrite <- Hsz, Hdata.
    change (at_ hdr 0) with (get_type msg).
    rewrite Hdec by reflexivity.
    unfold accept_if_present, set_readbuf, set_data, set_rec. reader_simpl.
    rewrite !size_app. change (size hdr) with 13. rewrite Hsz.
    replace (0 + 13 + rec_size) with (13 + rec_size) by lia. reflexivity.
  - (* TLS *)
    unfold record_header. rewrite Hdg.
    set (hdr := [get_type msg; major_version (mkVersion major minor);
                 minor_version (mkVersion major minor)]
                  ++ []
                  ++ [get_byte 2 0 rec_size; get_byte 2 1 rec_size]).
    rewrite <- (app_nil_r body) at 1.
    rewrite (read_tls_record_complete gc hdr body [] 0 false rec0 (Some sn) eq_refl)
      by (subst hdr; cbn [at_ nth app];
          rewrite make_uint16_get_byte, Z.mod_small by lia; symmetry; exact Hsz).
    cbv zeta.
    change (mkVersion (at_ hdr 1) (at_ hdr 2)) with (mkVersion major minor).
    rewrite Hdg. rewrite Hsz.
    destruct (Z.gtb_spec rec_size MAX_CIPHERTEXT_SIZE); [lia|].
    destruct (Z.eqb_spec rec_size 0); [lia|].
    destruct (Z.eqb_spec (current_read_epoch sn) 0); [contradiction|].
    rewrite Hsn.
    rewrite <- Hsz, Hdata.
    change (at_ hdr 0) with (get_type msg).
    rewrite Hdec by reflexivity.
    unfold accept_if_present, set_readbuf, set_data, set_rec. reader_simpl.
    rewrite !size_app. change (size hdr) with 5. rewrite Hsz.
    replace (0 + 5 + rec_size) with (5 + rec_size) by lia. reflexivity.
Qed.

End Round_Trip.

Lemma length_toy_tag (nonce ad : list byte) : length (toy_tag nonce ad) = 16%nat.
Proof.
  unfold toy_tag. rewrite length_firstn, !length_app. unfold zeros.
  rewrite repeat_length. lia.
Qed.

Lemma toy_pair : AEAD_pair toy_encryption toy_decryption.
Proof.
  constructor; cbn [toy_encryption toy_decryption process output_length
                    minimum_final_size fst snd]; intros; try lia.
  - reflexivity.
  - rewrite length_app, length_toy_tag.
    replace (length msg + 16 - 16)%nat with (length msg) by lia.
    rewrite skipn_length_app, firstn_length_app.
    destruct (list_eq_dec Byte.byte_eq_dec (toy_tag nonce ad) (toy_tag nonce ad));
      [reflexivity|contradiction].
  - rewrite size_app. unfold size at 2. rewrite length_toy_tag. reflexivity.
Qed.

Lemma S6_pair : cipher_state_pair S6_writer_cs S6_reader_cs.
Proof.
  unfold cipher_state_pair. cbn [S6_writer_cs S6_reader_cs nonce_format
    nonce_bytes_from_record nonce_bytes_from_handshake m_nonce aead].
  split; [reflexivity|]. split; [reflexivity|]. split; [reflexivity|].
  split; [apply toy_pair|]. repeat split.
Qed.

(** With stream sequence numbers the accepted record moves the read
    sequence on by one. *)
Lemma stream_read_accept_advances (sn : Stream_Sequence_Numbers) (s : Z) :
  next_read_sequence (read_accept sn s) = next_read_sequence sn + 1.
Proof. reflexivity. Qed.

(** C1 at a TLS 1.2 record of four octets, sequence 1, epoch 1. *)
Lemma record_round_trip_witness :
  exists output cs' rng',
    write_record app_message TLS_V12 1 (Some S6_writer_cs) rng0 =
      Ok (output, Some cs', rng') /\
    read_record epoch1_cipherstate
      (mkReader [] (mkInput output 0 false) empty_record (Some (mkStream 1 1))) =
    Returned 0
      (mkReader [] (mkInput [] (size output) false)
                (mkRecord (octets [1; 2; 3; 4]) 1 TLS_V12 APPLICATION_DATA)
                (Some (mkStream 2 1))).
Proof.
  exact (record_round_trip S6_writer_cs S6_reader_cs S6_pair epoch1_cipherstate
           app_message TLS_V12 1 rng0 (mkStream 1 1) empty_record
           ltac:(vm_compute; discriminate)
           ltac:(vm_compute; split; [discriminate|reflexivity])
           eq_refl ltac:(vm_compute; discriminate) eq_refl eq_refl).
Defined.

(** C1 as stated fails in datagram mode: a DTLS 1.2 record of epoch 1,
    sequence 7, that arrives after sequence 10 goes round (type and payload
    come back, the reader returns 0), and the reader's window is where it
    was, with one more bit set: the read side has not advanced by one.  (And
    [write_record] has no counter to advance.) *)
Lemma record_round_trip_counters_counterexample :
  exists output cs' rng' st',
    write_record app_message DTLS_V12 (2 ^ 48 + 7) (Some S6_writer_cs) rng0 =
      Ok (output, cs', rng') /\
    read_record epoch1_cipherstate
      (reader_on output true (Some (mkDatagram 10 1 1))) = Returned 0 st' /\
    rec_type (rec st') = APPLICATION_DATA /\
    rec_data (rec st') = get_data app_message /\
    sequence_numbers st' = Some (mkDatagram 10 9 1) /\
    m_window_highest (mkDatagram 10 9 1) <> m_window_highest (mkDatagram 10 1 1) + 1.
Proof.
  do 4 eexists.
  split; [vm_compute; reflexivity|].
  split; [vm_compute; reflexivity|].
  repeat split. vm_compute. discriminate.
Qed.

(* ================================================================== *)
(** * Record-size validation *)
(* ================================================================== *)

Section Size_Validation.

Context {S : Type} {SN : Connection_Sequence_Numbers S}.
Variable gc : Z -> option Connection_Cipher_State.

(** The checks of the TLS reader on the length field of a stream-version
    header: too long is a record-overflow alert, zero a decode error. *)
Lemma tls_record_size_validation (hdr rest : list byte) (c : Z) (dg : bool)
    (rec0 : TLS_Record) (sn : option S) :
  length hdr = 5%nat ->
  is_datagram_protocol (mkVersion (at_ hdr 1) (at_ hdr 2)) = false ->
  (make_uint16 (at_ hdr 3) (at_ hdr 4) > MAX_CIPHERTEXT_SIZE ->
   exists st', read_tls_record gc (mkReader [] (mkInput (hdr ++ rest) c dg) rec0 sn)
               = Raised (TLS_Exception RECORD_OVERFLOW) st') /\
  (make_uint16 (at_ hdr 3) (at_ hdr 4) = 0 ->
   exists st', read_tls_record gc (mkReader [] (mkInput (hdr ++ rest) c dg) rec0 sn)
               = Raised (TLS_Exception DECODE_ERROR) st').
Proof.
  intros Hlen Hdg.
  destruct hdr as [|h0 [|h1 [|h2 [|h3 [|h4 [|h5 hdr]]]]]]; try discriminate Hlen.
  clear Hlen. set (hdr := [h0; h1; h2; h3; h4]) in *.
  assert (Hrun : read_tls_record gc (mkReader [] (mkInput (hdr ++ rest) c dg) rec0 sn)
                 = tls_record_phase gc
                     (mkReader hdr (mkInput rest (c + 5) dg) rec0 sn)).
  { rewrite read_tls_record_phases. unfold tls_header_phase.
    cbn [readbuf raw_input rec sequence_numbers].
    change (size (@nil byte) <? TLS_HEADER_SIZE) with true. cbv iota.
    change TLS_HEADER_SIZE with (size (@nil byte) + size hdr) at 1.
    rewrite fill_buffer_to_complete. reflexivity. }
  rewrite Hrun. unfold tls_record_phase. reader_simpl. rewrite Hdg.
  split; intros Hrs.
  - destruct (Z.gtb_spec (make_uint16 (at_ hdr 3) (at_ hdr 4)) MAX_CIPHERTEXT_SIZE);
      [eexists; reflexivity|lia].
  - rewrite Hrs. eexists. reflexivity.
Qed.

(** The check of the DTLS reader on the length field: too long is a silent
    drop. *)
Lemma dtls_record_size_validation (hdr rest : list byte) (c : Z) (dg : bool)
    (rec0 : TLS_Record) (sn : option S) :
  length hdr = 13%nat ->
  make_uint16 (at_ hdr 11) (at_ hdr 12) > MAX_CIPHERTEXT_SIZE ->
  exists st',
    read_dtls_record gc (mkReader [] (mkInput (hdr ++ rest) c dg) rec0 sn)
      = Returned 0 st' /\
    rec_type (rec st') = NO_RECORD /\ readbuf st' = [] /\
    sequence_numbers st' = sn.
Proof.
  intros Hlen Hrs.
  destruct hdr as [|h0 [|h1 [|h2 [|h3 [|h4 [|h5 [|h6 [|h7 [|h8 [|h9 [|h10
             [|h11 [|h12 [|h13 hdr]]]]]]]]]]]]]]; try discriminate Hlen.
  clear Hlen. set (hdr := [h0; h1; h2; h3; h4; h5; h6; h7; h8; h9; h10; h11; h12]) in *.
  unfold read_dtls_record.
  cbn [readbuf raw_input rec sequence_numbers].
  change (size (@nil byte) <? DTLS_HEADER_SIZE) with true. cbv iota.
  change DTLS_HEADER_SIZE with (size (@nil byte) + size hdr) at 1.
  rewrite fill_buffer_to_complete. cbn [app]. reader_simpl.
  change (0 =? 0) with true. change (size hdr =? DTLS_HEADER_SIZE) with true.
  cbn [negb]. cbv iota. reader_simpl.
  destruct (negb (is_datagram_protocol _)); [eexists; repeat split|].
  destruct (Z.gtb_spec (make_uint16 (at_ hdr 11) (at_ hdr 12)) MAX_CIPHERTEXT_SIZE);
    [eexists; repeat split|lia].
Qed.

End Size_Validation.

(** S1, S3 and S4 run. *)
Example S1_plaintext_handshake :
  read_tls_record no_cipherstate
    (reader_on S1_bytes false (@None Stream_Sequence_Numbers)) =
  Returned 0 (mkReader [] (mkInput [] 9 false)
                (mkRecord (octets [1; 2; 3; 4]) 0 TLS_V12 HANDSHAKE) None).
Proof. vm_compute. reflexivity. Qed.

Example S3_record_overflow :
  exists st',
    read_tls_record no_cipherstate
      (reader_on S3_bytes false (@None Stream_Sequence_Numbers)) =
    Raised (TLS_Exception RECORD_OVERFLOW) st'.
Proof. eexists. vm_compute. reflexivity. Qed.

Example S4_zero_length :
  exists st',
    read_tls_record no_cipherstate
      (reader_on S4_bytes false (@None Stream_Sequence_Numbers)) =
    Raised (TLS_Exception DECODE_ERROR) st'.
Proof. eexists. vm_compute. reflexivity. Qed.

(** The DTLS sibling of C3's failing input: at epoch 0 the DTLS reader does
    call [read_accept]. *)
Example dtls_epoch0_accepts :
  read_dtls_record no_cipherstate
    (reader_on dtls_epoch0_bytes true (Some (mkDatagram 0 0 0))) =
  Returned 0 (mkReader [] (mkInput [] 17 true)
                (mkRecord (octets [1; 2; 3; 4]) 5 DTLS_V12 HANDSHAKE)
                (Some (mkDatagram 5 1 0))).
Proof. vm_compute. reflexivity. Qed.

(* ================================================================== *)
(** * The reference inverse *)
(* ================================================================== *)

Lemma pos_low_zero_bits_spec (p : positive) :
  exists q : Z,
    Z.pos p = 2 ^ Z.of_nat (pos_low_zero_bits p) * q /\ Z.odd q = true /\ 0 < q.
Proof.
  induction p as [p IH|p IH|].
  - exists (Z.pos p~1). cbn [pos_low_zero_bits Z.of_nat]. repeat split.
  - destruct IH as (q & Hq & Hodd & Hpos). exists q.
    cbn [pos_low_zero_bits]. rewrite Nat2Z.inj_succ, Z.pow_succ_r by lia.
    repeat split; try assumption. lia.
  - exists 1. cbn. repeat split.
Qed.

Lemma shift_right_exact (q : Z) (k : nat) :
  shift_right (2 ^ Z.of_nat k * q) k = q.
Proof.
  unfold shift_right. rewrite Z.mul_comm. apply Z.quot_mul.
  apply Z.pow_nonzero; lia.
Qed.

(** Stripping the trailing zero bits of a positive value leaves its odd
    part. *)
Lemma strip_zero_bits (u : Z) :
  0 < u ->
  exists u1, u = 2 ^ Z.of_nat (low_zero_bits u) * u1 /\
             shift_right u (low_zero_bits u) = u1 /\
             Z.odd u1 = true /\ 0 < u1 /\ u1 <= u.
Proof.
  intros Hu. destruct u as [|p|p]; try lia.
  destruct (pos_low_zero_bits_spec p) as (q & Hq & Hodd & Hpos).
  exists q. cbn [low_zero_bits]. split; [exact Hq|].
  split; [rewrite Hq at 1; apply shift_right_exact|].
  repeat split; try assumption.
  assert (0 < 2 ^ Z.of_nat (pos_low_zero_bits p)) by (apply Z.pow_pos_nonneg; lia).
  nia.
Qed.

Section Inverse.

Variables n m : Z.
Hypothesis Hodd : Z.odd m = true.
Hypothesis Hm : 0 < m.

Lemma odd_divisor_coprime_2 (d a : Z) :
  (d | a) -> Z.odd a = true -> Z.gcd d 2 = 1.
Proof.
  intros Hd Ha.
  pose proof (Z.gcd_nonneg d 2) as Hnn.
  pose proof (Z.gcd_divide_l d 2) as Hl. pose proof (Z.gcd_divide_r d 2) as Hr.
  assert (Hle : Z.gcd d 2 <= 2) by (apply Z.divide_pos_le; [lia|exact Hr]).
  assert (Z.gcd d 2 <> 0).
  { intros H0. rewrite H0 in Hr. destruct Hr as [z Hz]. lia. }
  assert (Z.gcd d 2 <> 2).
  { intros H2. rewrite H2 in Hl.
    assert (H2a : (2 | a)) by (eapply Z.divide_trans; eassumption).
    destruct H2a as [z Hz]. subst a.
    rewrite Z.mul_comm, Z.odd_mul in Ha. discriminate. }
  lia.
Qed.

Lemma halve_spec (B u : Z) :
  (m | B * n - 2 * u) -> (m | halve m B * n - u).
Proof.
  intros Hdiv. unfold halve.
  set (B0 := if Z.odd B then B - m else B).
  assert (Heven : Z.even B0 = true).
  { subst B0. destruct (Z.odd B) eqn:HB.
    - rewrite Z.even_sub, <- !Z.negb_odd, HB, Hodd. reflexivity.
    - rewrite <- Z.negb_odd, HB. reflexivity. }
  apply Z.even_spec in Heven. destruct Heven as [y Hy].
  assert (Hq : shift_right B0 1 = y).
  { rewrite Hy. change 2 with (2 ^ Z.of_nat 1). apply shift_right_exact. }
  rewrite Hq.
  assert (Hdiv2 : (m | 2 * (y * n - u))).
  { replace (2 * (y * n - u)) with (B0 * n - 2 * u) by (rewrite Hy; ring).
    subst B0. destruct (Z.odd B).
    - replace ((B - m) * n - 2 * u) with ((B * n - 2 * u) - m * n) by ring.
      apply Z.divide_sub_r; [exact Hdiv|]. apply Z.divide_factor_l.
    - exact Hdiv. }
  apply (Z.gauss m 2 (y * n - u) Hdiv2).
  apply (odd_divisor_coprime_2 m m); [apply Z.divide_refl|exact Hodd].
Qed.

Lemma iter_halve_spec (k : nat) (B u : Z) :
  (m | B * n - 2 ^ Z.of_nat k * u) -> (m | Nat.iter k (halve m) B * n - u).
Proof.
  revert u. induction k as [|k IH]; intros u Hdiv.
  - cbn [Nat.iter]. change (2 ^ Z.of_nat 0) with 1 in Hdiv.
    rewrite Z.mul_1_l in Hdiv. exact Hdiv.
  - cbn [Nat.iter]. apply halve_spec. apply IH.
    rewrite Nat2Z.inj_succ, Z.pow_succ_r in Hdiv by lia.
    replace (2 ^ Z.of_nat k * (2 * u)) with (2 * 2 ^ Z.of_nat k * u) by ring.
    exact Hdiv.
Qed.

Lemma gcd_odd_double (a b : Z) :
  Z.odd a = true -> Z.gcd a (2 * b) = Z.gcd a b.
Proof.
  intros Ha.
  apply Z.divide_antisym_nonneg; try apply Z.gcd_nonneg.
  - apply Z.gcd_greatest; [apply Z.gcd_divide_l|].
    apply (Z.gauss _ 2 b); [apply Z.gcd_divide_r|].
    apply (odd_divisor_coprime_2 _ a); [apply Z.gcd_divide_l|exact Ha].
  - apply Z.gcd_greatest; [apply Z.gcd_divide_l|].
    apply Z.divide_mul_r. apply Z.gcd_divide_r.
Qed.

Lemma gcd_odd_pow2 (k : nat) (a b : Z) :
  Z.odd a = true -> Z.gcd a (2 ^ Z.of_nat k * b) = Z.gcd a b.
Proof.
  intros Ha. induction k as [|k IH].
  - change (2 ^ Z.of_nat 0) with 1. rewrite Z.mul_1_l. reflexivity.
  - rewrite Nat2Z.inj_succ, Z.pow_succ_r by lia.
    rewrite <- Z.mul_assoc, gcd_odd_double by exact Ha. exact IH.
Qed.

(** The main loop: it ends within [u + v] rounds, with the gcd in [v] and
    a [D] such that [D * n = v] modulo [m]. *)
Lemma euclid_loop_spec (fuel : nat) (u v B D : Z) :
  0 <= u -> 0 < v ->
  Z.odd u = true \/ Z.odd v = true ->
  (m | B * n - u) -> (m | D * n - v) ->
  u + v <= Z.of_nat fuel ->
  exists D', euclid_loop fuel m u v B D = Some (Z.gcd u v, D') /\
             (m | D' * n - Z.gcd u v).
Proof.
  revert u v B D. induction fuel as [|fuel IH];
    intros u v B D Hu Hv Hpar HB HD Hfuel.
  - lia.
  - cbn [euclid_loop].
    destruct (Z.eqb_spec u 0) as [Hz|Hnz].
    + subst u. exists D. rewrite Z.gcd_0_l, Z.abs_eq by lia. split; [reflexivity|exact HD].
    + destruct (strip_zero_bits u ltac:(lia)) as (u1 & Hu_eq & Hu_sh & Hu1_odd & Hu1_pos & Hu1_le).
      destruct (strip_zero_bits v Hv) as (v1 & Hv_eq & Hv_sh & Hv1_odd & Hv1_pos & Hv1_le).
      rewrite Hu_sh, Hv_sh.
      set (B' := Nat.iter (low_zero_bits u) (halve m) B).
      set (D1 := Nat.iter (low_zero_bits v) (halve m) D).
      assert (HB' : (m | B' * n - u1))
        by (apply iter_halve_spec; rewrite <- Hu_eq; exact HB).
      assert (HD1 : (m | D1 * n - v1))
        by (apply iter_halve_spec; rewrite <- Hv_eq; exact HD).
      assert (Hgcd : Z.gcd u v = Z.gcd u1 v1).
      { destruct Hpar as [Hpar|Hpar].
        - rewrite Hv_eq at 1. rewrite gcd_odd_pow2 by exact Hpar.
          rewrite Hu_eq at 1. rewrite (Z.gcd_comm _ v1), gcd_odd_pow2 by exact Hv1_odd.
          apply Z.gcd_comm.
        - rewrite Hu_eq at 1. rewrite (Z.gcd_comm _ v), gcd_odd_pow2 by exact Hpar.
          rewrite Hv_eq at 1. rewrite (Z.gcd_comm _ u1), gcd_odd_pow2 by exact Hu1_odd.
          reflexivity. }
      rewrite Hgcd.
      destruct (Z.geb_spec u1 v1) as [Hge|Hlt].
      * replace (Z.gcd u1 v1) with (Z.gcd (u1 - v1) v1)
          by (rewrite Z.gcd_comm, Z.gcd_sub_diag_r; apply Z.gcd_comm).
        apply IH; try lia.
        -- right. exact Hv1_odd.
        -- replace ((B' - D1) * n - (u1 - v1))
             with ((B' * n - u1) - (D1 * n - v1)) by ring.
           apply Z.divide_sub_r; assumption.
        -- exact HD1.
      * replace (Z.gcd u1 v1) with (Z.gcd u1 (v1 - u1))
          by (apply Z.gcd_sub_diag_r).
        apply IH; try lia.
        -- left. exact Hu1_odd.
        -- exact HB'.
        -- replace ((D1 - B') * n - (v1 - u1))
             with ((D1 * n - v1) - (B' * n - u1)) by ring.
           apply Z.divide_sub_r; assumption.
Qed.

Lemma add_while_negative_spec (fuel : nat) (D : Z) :
  - D < Z.of_nat fuel ->
  exists r, add_while_negative fuel m D = Some r /\
            0 <= r /\ (m | r - D) /\ (D < 0 -> r < m).
Proof.
  revert D. induction fuel as [|fuel IH]; intros D Hfuel; cbn [add_while_negative].
  - destruct (Z.ltb_spec D 0); [lia|].
    exists D. rewrite Z.sub_diag. repeat split; try lia. apply Z.divide_0_r.
  - destruct (Z.ltb_spec D 0) as [Hneg|Hpos].
    + destruct (IH (D + m) ltac:(lia)) as (r & Hr & Hr0 & Hdiv & Hlt).
      exists r. split; [exact Hr|]. split; [exact Hr0|]. split.
      * replace (r - D) with ((r - (D + m)) + m) by ring.
        apply Z.divide_add_r; [exact Hdiv|apply Z.divide_refl].
      * intros _. destruct (Z.ltb_spec (D + m) 0) as [Hstill|Hdone]; [apply Hlt; lia|].
        assert (r = D + m).
        { destruct fuel; cbn [add_while_negative] in Hr;
            destruct (Z.ltb_spec (D + m) 0); try lia; congruence. }
        lia.
    + exists D. rewrite Z.sub_diag. repeat split; try lia. apply Z.divide_0_r.
Qed.

Lemma sub_while_above_spec (fuel : nat) (D : Z) :
  0 <= D < Z.of_nat fuel ->
  exists r, sub_while_above fuel m D = Some r /\
            0 <= r < m /\ (m | r - D).
Proof.
  revert D. induction fuel as [|fuel IH]; intros D Hfuel; cbn [sub_while_above].
  - lia.
  - destruct (Z.geb_spec D m) as [Hge|Hlt].
    + destruct (IH (D - m) ltac:(lia)) as (r & Hr & Hrange & Hdiv).
      exists r. split; [exact Hr|]. split; [exact Hrange|].
      replace (r - D) with ((r - (D - m)) - m) by ring.
      apply Z.divide_sub_r; [exact Hdiv|apply Z.divide_refl].
    + exists D. rewrite Z.sub_diag. repeat split; try lia. apply Z.divide_0_r.
Qed.

Lemma normalise_spec (D : Z) :
  exists r, normalise m D = Some r /\ 0 <= r < m /\ (m | r - D).
Proof.
  unfold normalise.
  destruct (add_while_negative_spec (Datatypes.S (Z.to_nat (Z.abs D))) D ltac:(lia))
    as (r1 & Hr1 & Hr1pos & Hdiv1 & _).
  rewrite Hr1.
  destruct (sub_while_above_spec (Datatypes.S (Z.to_nat (Z.abs r1))) r1 ltac:(lia))
    as (r & Hr & Hrange & Hdiv).
  exists r. split; [exact Hr|]. split; [exact Hrange|].
  replace (r - D) with ((r - r1) + (r1 - D)) by ring.
  apply Z.divide_add_r; assumption.
Qed.

End Inverse.

(** An inverse in [[0, m)] is the only one there. *)
Lemma inverse_unique (x m r r' : Z) :
  0 < m -> Z.gcd m x = 1 ->
  0 <= r < m -> 0 <= r' < m ->
  (x * r) mod m = 1 -> (x * r') mod m = 1 -> r = r'.
Proof.
  intros Hm Hgcd Hr Hr' H1 H2.
  assert (Hdiv : (m | x * (r - r'))).
  { apply Z.mod_divide; [lia|].
    rewrite Z.mul_sub_distr_l, Zminus_mod, H1, H2. reflexivity. }
  apply Z.gauss in Hdiv; [|exact Hgcd].
  destruct Hdiv as [k Hk].
  destruct (Z.lt_trichotomy k 0) as [Hk0|[Hk0|Hk0]]; nia.
Qed.

Lemma find_inverse (x m r : Z) :
  0 < m -> Z.gcd m x = 1 -> 0 <= r < m -> (x * r) mod m = 1 ->
  find (fun r => (x * r) mod m =? 1) (map Z.of_nat (seq 0 (Z.to_nat m))) = Some r.
Proof.
  intros Hm Hgcd Hr Hinv.
  destruct (find _ _) as [r'|] eqn:Hfind.
  - apply find_some in Hfind. destruct Hfind as [Hin Hsat].
    apply in_map_iff in Hin. destruct Hin as (i & Hi & Hseq).
    apply in_seq in Hseq. apply Z.eqb_eq in Hsat.
    f_equal. apply (inverse_unique x m); try assumption. lia.
  - exfalso.
    pose proof (find_none _ _ Hfind r) as Hnone. cbv beta in Hnone.
    rewrite Hinv in Hnone. cbn in Hnone.
    assert (Hin : In r (map Z.of_nat (seq 0 (Z.to_nat m)))).
    { apply in_map_iff. exists (Z.to_nat r). split; [lia|]. apply in_seq. lia. }
    specialize (Hnone Hin). discriminate.
Qed.

(** C10.  For [mod_] odd and at least 3 and [0 <= x < mod_], the reference
    inverse of the fuzzer returns (its loops end) the value of
    [ct_inverse_mod_odd_modulus], which is the modular inverse of [x] modulo
    [mod_] in [[0, mod_)], or 0 when [gcd(x, mod_) <> 1] or [x = 0]. *)
Theorem inverse_mod_ref_is_ct_inverse (x mod_ : Z) :
  Z.odd mod_ = true -> 3 <= mod_ -> 0 <= x < mod_ ->
  inverse_mod_ref x mod_ = Some (ct_inverse_mod_odd_modulus x mod_) /\
  inverse_or_zero x mod_ (ct_inverse_mod_odd_modulus x mod_).
Proof.
  intros Hodd Hmod Hx.
  unfold inverse_mod_ref, inverse_mod_ref_fuel, ct_inverse_mod_odd_modulus, inverse_or_zero.
  destruct (Z.eqb_spec x 0) as [Hz|Hnz]; cbn [orb].
  - split; [reflexivity|]. split; [reflexivity|]. intros; contradiction.
  - destruct (euclid_loop_spec x mod_ Hodd (Z.to_nat (x + mod_)) mod_ x 0 1)
      as (D' & Hloop & HD'); try lia.
    + left. exact Hodd.
    + replace (0 * x - mod_) with (- mod_) by ring.
      apply Z.divide_opp_r, Z.divide_refl.
    + replace (1 * x - x) with 0 by ring. apply Z.divide_0_r.
    + rewrite Hloop. rewrite (Z.gcd_comm x mod_).
      destruct (Z.eqb_spec (Z.gcd mod_ x) 1) as [Hg|Hg]; cbn [negb].
      * rewrite Hg in HD'.
        destruct (normalise_spec mod_ ltac:(lia) D') as (r & Hnorm & Hrange & Hdiv).
        assert (Hinv : (x * r) mod mod_ = 1).
        { assert (Hone : (mod_ | x * r - 1)).
          { replace (x * r - 1) with ((r - D') * x + (D' * x - 1)) by ring.
            apply Z.divide_add_r; [apply Z.divide_mul_l; exact Hdiv|exact HD']. }
          destruct Hone as [k Hk].
          replace (x * r) with (1 + k * mod_) by lia.
          rewrite Z.mod_add by lia. apply Z.mod_small. lia. }
        rewrite (find_inverse x mod_ r) by (try assumption; lia).
        split; [exact Hnorm|]. split; [intros [H|H]; contradiction|].
        intros _ _. split; assumption.
      * split; [reflexivity|]. split; [reflexivity|]. intros _ H. contradiction.
Qed.

(** C10 at 3 modulo 7 (inverse 5) and at 6 modulo 9 (no inverse). *)
Lemma inverse_mod_ref_is_ct_inverse_witness :
  inverse_mod_ref 3 7 = Some 5 /\ ct_inverse_mod_odd_modulus 3 7 = 5 /\
  inverse_mod_ref 6 9 = Some 0 /\ ct_inverse_mod_odd_modulus 6 9 = 0.
Proof.
  pose proof (inverse_mod_ref_is_ct_inverse 3 7 eq_refl
                ltac:(vm_compute; discriminate)
                ltac:(vm_compute; split; [discriminate|reflexivity])) as [H37 _].
  pose proof (inverse_mod_ref_is_ct_inverse 6 9 eq_refl
                ltac:(vm_compute; discriminate)
                ltac:(vm_compute; split; [discriminate|reflexivity])) as [H69 _].
  repeat split; try reflexivity; assumption.
Defined.

(* ================================================================== *)
(** * Nonce policies and the associated data, both directions *)
(* ================================================================== *)

Lemma Z_of_byte_xor (a b : byte) :
  Z_of_byte (byte_xor a b) = Z.lxor (Z_of_byte a) (Z_of_byte b).
Proof.
  unfold byte_xor. rewrite Z_of_byte_of_Z.
  pose proof (Z_of_byte_range a) as Ha. pose proof (Z_of_byte_range b) as Hb.
  change 256 with (2 ^ 8).
  apply Z.bits_inj'. intros n Hn.
  destruct (Z.ltb_spec n 8).
  - rewrite Z.mod_pow2_bits_low by lia. reflexivity.
  - rewrite Z.mod_pow2_bits_high by lia.
    rewrite Z.lxor_spec.
    replace (Z_of_byte a) with (Z_of_byte a mod 2 ^ 8) by (apply Z.mod_small; simpl; lia).
    replace (Z_of_byte b) with (Z_of_byte b mod 2 ^ 8) by (apply Z.mod_small; simpl; lia).
    rewrite !Z.mod_pow2_bits_high by lia. reflexivity.
Qed.

Lemma byte_xor_cancel (a b : byte) : byte_xor a (byte_xor a b) = b.
Proof.
  unfold byte_xor at 1. rewrite Z_of_byte_xor.
  rewrite <- Z.lxor_assoc, Z.lxor_nilpotent, Z.lxor_0_l.
  apply byte_of_Z_of_byte.
Qed.

Lemma xor_bytes_injective (m a b : list byte) :
  length a = length m -> length b = length m ->
  xor_bytes m a = xor_bytes m b -> a = b.
Proof.
  revert a b. induction m as [|x m IH]; intros [|y a] [|z b] Ha Hb H;
    cbn [length] in *; try discriminate; try reflexivity.
  cbn [xor_bytes] in H. injection H as Hx Hrest.
  f_equal.
  - rewrite <- (byte_xor_cancel x y), Hx. apply byte_xor_cancel.
  - apply IH; congruence.
Qed.

Lemma store_be64_injective (s1 s2 : Z) :
  0 <= s1 < 2 ^ 64 -> 0 <= s2 < 2 ^ 64 ->
  store_be64 s1 = store_be64 s2 -> s1 = s2.
Proof.
  intros H1 H2 H. apply (f_equal be_value) in H.
  rewrite !be_value_store_be64, !Z.mod_small in H by assumption. exact H.
Qed.

Section Nonces.

Variable cs : Connection_Cipher_State.

Lemma xor_12_nonce_value (seq : Z) :
  length (m_nonce cs) = 12%nat ->
  xor_buf (write_at (zeros 12) 4 (store_be64 seq)) (m_nonce cs) (length (m_nonce cs))
  = xor_bytes (m_nonce cs) (zeros 4 ++ store_be64 seq).
Proof.
  intros Hlen.
  destruct (m_nonce cs) as [|n0 [|n1 [|n2 [|n3 [|n4 [|n5 [|n6 [|n7 [|n8
             [|n9 [|n10 [|n11 [|n12 rest]]]]]]]]]]]]]; try discriminate Hlen.
  cbn [zeros repeat write_at firstn skipn app store_be64 map length
       Nat.add xor_buf xor_bytes].
  repeat (f_equal; try apply byte_xor_comm).
Qed.

(** X1.  [AEAD_IMPLICIT_4] with a four-octet salt: the writer's nonce is the
    salt followed by the big-endian sequence number, with the cipher state
    and the random source left as they were; the eight octets that go on
    the wire are that sequence number; and the reader rebuilds the nonce as
    the salt followed by the first eight octets of the record, whatever
    follows them and whatever its own sequence number says. *)
Theorem aead_implicit_4_nonce (seq : Z) (rng : RandomNumberGenerator)
    (explicit rest : list byte) :
  nonce_format cs = AEAD_IMPLICIT_4 ->
  length (m_nonce cs) = 4%nat ->
  nonce_bytes_from_handshake cs = 4 ->
  nonce_bytes_from_record cs = 8 ->
  length explicit = 8%nat ->
  aead_nonce_write cs seq rng = Ok (m_nonce cs ++ store_be64 seq, cs, rng) /\
  explicit_nonce cs (m_nonce cs ++ store_be64 seq) = store_be64 seq /\
  aead_nonce_read cs (explicit ++ rest) (size (explicit ++ rest)) seq =
    Ok (m_nonce cs ++ explicit).
Proof.
  intros Hfmt Hlen Hh Hr He.
  unfold aead_nonce_write, aead_nonce_read, explicit_nonce.
  rewrite Hfmt, Hh, Hr.
  assert (Hsz : size (m_nonce cs) = 4) by (unfold size; rewrite Hlen; reflexivity).
  rewrite Hsz. cbn [Z.eqb BOTAN_ASSERT bind Z.gtb Z.compare].
  destruct (m_nonce cs) as [|n0 [|n1 [|n2 [|n3 [|n4 l]]]]]; try discriminate Hlen.
  destruct explicit as [|e0 [|e1 [|e2 [|e3 [|e4 [|e5 [|e6 [|e7 [|e8 l]]]]]]]]];
    try discriminate He.
  split; [reflexivity|]. split; [reflexivity|].
  destruct (Z.ltb_spec (size ([e0; e1; e2; e3; e4; e5; e6; e7] ++ rest)) 8) as [Hlt|_].
  - rewrite size_app in Hlt. pose proof (size_nonneg rest).
    change (size [e0; e1; e2; e3; e4; e5; e6; e7]) with 8 in Hlt. lia.
  - reflexivity.
Qed.

(** X2.  The reader's nonce extraction fails in exactly three ways: an
    [AEAD_IMPLICIT_4] salt that is not four octets long is an internal
    error (the assertion), and a record shorter than its explicit nonce is
    a decoding error, under [AEAD_IMPLICIT_4] and under [CBC_MODE].
    [AEAD_XOR_12] never raises. *)
Theorem aead_nonce_read_failure (record : list byte) (record_len seq : Z) (e : exn) :
  aead_nonce_read cs record record_len seq = Throw e <->
  (nonce_format cs = AEAD_IMPLICIT_4 /\ size (m_nonce cs) <> 4 /\ e = Internal_Error) \/
  (nonce_format cs = AEAD_IMPLICIT_4 /\ size (m_nonce cs) = 4 /\
   record_len < nonce_bytes_from_record cs /\ e = Decoding_Error) \/
  (nonce_format cs = CBC_MODE /\
   record_len < nonce_bytes_from_record cs /\ e = Decoding_Error).
Proof.
  unfold aead_nonce_read.
  destruct (nonce_format cs).
  - destruct (Z.ltb_spec record_len (nonce_bytes_from_record cs)); split.
    + intros H0. injection H0 as <-. right. right. repeat split. assumption.
    + intros [(H0 & _)|[(H0 & _)|(_ & _ & ->)]]; try discriminate. reflexivity.
    + discriminate.
    + intros [(H0 & _)|[(H0 & _)|(_ & Hlt & _)]]; try discriminate. lia.
  - split; [discriminate|].
    intros [(H0 & _)|[(H0 & _)|(H0 & _)]]; discriminate.
  - destruct (Z.eqb_spec (size (m_nonce cs)) 4) as [H4|H4]; cbn [BOTAN_ASSERT bind].
    + destruct (Z.ltb_spec record_len (nonce_bytes_from_record cs)); split.
      * intros H0. injection H0 as <-. right. left. repeat split; assumption.
      * intros [(_ & Hne & _)|[(_ & _ & _ & ->)|(H0 & _)]];
          try contradiction; try discriminate. reflexivity.
      * discriminate.
      * intros [(_ & Hne & _)|[(_ & _ & Hlt & _)|(H0 & _)]];
          try contradiction; try discriminate. lia.
    + split.
      * intros H0. injection H0 as <-. left. repeat split. assumption.
      * intros [(_ & _ & ->)|[(_ & Heq & _)|(H0 & _)]];
          try contradiction; try discriminate. reflexivity.
Qed.

(** X3.  [CBC_MODE]: the stored nonce serves one record.  The first call
    returns it and empties it without touching the random source; a call
    on the emptied state draws [nonce_bytes_from_record] fresh octets from
    the random source and leaves the stored nonce empty. *)
Theorem cbc_nonce_used_once (seq1 seq2 : Z) (rng1 rng2 : RandomNumberGenerator) :
  nonce_format cs = CBC_MODE ->
  m_nonce cs <> [] ->
  0 <= nonce_bytes_from_record cs ->
  aead_nonce_write cs seq1 rng1 = Ok (m_nonce cs, set_m_nonce cs [], rng1) /\
  exists nonce2,
    aead_nonce_write (set_m_nonce cs []) seq2 rng2 =
      Ok (nonce2, set_m_nonce cs [],
          mkRng (rng_tape rng2)
                (rng_pos rng2 + Z.to_nat (nonce_bytes_from_record cs))) /\
    size nonce2 = nonce_bytes_from_record cs /\
    nonce2 = map (rng_tape rng2)
                 (List.seq (rng_pos rng2) (Z.to_nat (nonce_bytes_from_record cs))).
Proof.
  intros Hfmt Hne Hnbr.
  unfold aead_nonce_write. cbn [nonce_format set_m_nonce m_nonce nonce_bytes_from_record].
  rewrite Hfmt.
  assert (Hsz : (size (m_nonce cs) =? 0) = false).
  { apply Z.eqb_neq. intros H0. apply Hne. apply size_nil_inv. exact H0. }
  rewrite Hsz. cbn [negb].
  split; [reflexivity|].
  change (size (@nil byte) =? 0) with true. cbn [negb]. unfold randomize.
  eexists. split; [reflexivity|]. split; [|reflexivity].
  unfold size. rewrite length_map, length_seq. lia.
Qed.

(** X4.  Under [AEAD_XOR_12] with a twelve-octet stored nonce and under
    [AEAD_IMPLICIT_4] with a four-octet salt, the writer's nonce has twelve
    octets, nothing is consumed, and two sequence numbers below [2^64] that
    give the same nonce are equal: no nonce serves two records. *)
Theorem aead_nonce_injective (seq1 seq2 : Z) (rng1 rng2 : RandomNumberGenerator) :
  (nonce_format cs = AEAD_XOR_12 /\ length (m_nonce cs) = 12%nat) \/
  (nonce_format cs = AEAD_IMPLICIT_4 /\ length (m_nonce cs) = 4%nat /\
   nonce_bytes_from_handshake cs = 4) ->
  0 <= seq1 < 2 ^ 64 -> 0 <= seq2 < 2 ^ 64 ->
  exists nonce1 nonce2,
    aead_nonce_write cs seq1 rng1 = Ok (nonce1, cs, rng1) /\
    aead_nonce_write cs seq2 rng2 = Ok (nonce2, cs, rng2) /\
    length nonce1 = 12%nat /\
    (nonce1 = nonce2 -> seq1 = seq2).
Proof.
  intros Hinv H1 H2. unfold aead_nonce_write.
  destruct Hinv as [(Hfmt & Hlen)|(Hfmt & Hlen & Hh)]; rewrite Hfmt.
  - rewrite !xor_12_nonce_value by exact Hlen.
    eexists. eexists. split; [reflexivity|]. split; [reflexivity|]. split.
    + destruct (m_nonce cs) as [|n0 [|n1 [|n2 [|n3 [|n4 [|n5 [|n6 [|n7 [|n8
             [|n9 [|n10 [|n11 [|n12 rest]]]]]]]]]]]]]; try discriminate Hlen.
      reflexivity.
    + intros Heq. apply xor_bytes_injective in Heq;
        try (rewrite length_app, length_store_be64, Hlen; reflexivity).
      apply app_inv_head in Heq. apply store_be64_injective; assumption.
  - assert (Hsz : size (m_nonce cs) = 4) by (unfold size; rewrite Hlen; reflexivity).
    rewrite Hsz, Hh. cbn [Z.eqb BOTAN_ASSERT bind].
    destruct (m_nonce cs) as [|n0 [|n1 [|n2 [|n3 [|n4 l]]]]]; try discriminate Hlen.
    eexists. eexists. split; [reflexivity|]. split; [reflexivity|].
    split; [reflexivity|].
    intros Heq.
    change (write_at (write_at (zeros 12) 0 (firstn 4 [n0; n1; n2; n3])) (Z.to_nat 4)
                     (store_be64 seq1))
      with ([n0; n1; n2; n3] ++ store_be64 seq1) in Heq.
    change (write_at (write_at (zeros 12) 0 (firstn 4 [n0; n1; n2; n3])) (Z.to_nat 4)
                     (store_be64 seq2))
      with ([n0; n1; n2; n3] ++ store_be64 seq2) in Heq.
    apply app_inv_head in Heq. apply store_be64_injective; assumption.
Qed.

End Nonces.

(** X5.  The associated data binds every field it is formatted from: two
    equal results come from the same type and version, the same sequence
    number modulo [2^64] and the same length modulo [2^16]. *)
Theorem format_ad_injective (seq1 seq2 len1 len2 : Z) (ty1 ty2 : byte)
    (v1 v2 : Protocol_Version) :
  format_ad seq1 ty1 v1 len1 = format_ad seq2 ty2 v2 len2 ->
  seq1 mod 2 ^ 64 = seq2 mod 2 ^ 64 /\ ty1 = ty2 /\ v1 = v2 /\
  len1 mod 2 ^ 16 = len2 mod 2 ^ 16.
Proof.
  intros H.
  change (format_ad seq1 ty1 v1 len1)
    with (store_be64 seq1 ++ [ty1; major_version v1; minor_version v1;
                              get_byte 2 0 len1; get_byte 2 1 len1]) in H.
  change (format_ad seq2 ty2 v2 len2)
    with (store_be64 seq2 ++ [ty2; major_version v2; minor_version v2;
                              get_byte 2 0 len2; get_byte 2 1 len2]) in H.
  cbn [store_be64 map app] in H.
  injection H as B0 B1 B2 B3 B4 B5 B6 B7 Hty Hmaj Hmin L0 L1.
  assert (Hseq : store_be64 seq1 = store_be64 seq2)
    by (unfold store_be64; cbn [map]; congruence).
  apply (f_equal be_value) in Hseq. rewrite !be_value_store_be64 in Hseq.
  assert (Hlen : be_value [get_byte 2 0 len1; get_byte 2 1 len1] =
                 be_value [get_byte 2 0 len2; get_byte 2 1 len2]) by congruence.
  rewrite !be_value_u16 in Hlen.
  repeat split; try assumption.
  destruct v1, v2. cbn [major_version minor_version] in *. congruence.
Qed.

(** X1 with the salt [01 02 03 04] at sequence 5. *)
Lemma aead_implicit_4_nonce_witness :
  aead_nonce_write implicit4_cs 5 rng0 =
    Ok (m_nonce implicit4_cs ++ store_be64 5, implicit4_cs, rng0) /\
  explicit_nonce implicit4_cs (m_nonce implicit4_cs ++ store_be64 5) = store_be64 5 /\
  aead_nonce_read implicit4_cs (store_be64 5 ++ octets [9; 9])
                  (size (store_be64 5 ++ octets [9; 9])) 77 =
    Ok (m_nonce implicit4_cs ++ store_be64 5).
Proof.
  destruct (aead_implicit_4_nonce implicit4_cs 5 rng0 (store_be64 5) (octets [9; 9])
              eq_refl eq_refl eq_refl eq_refl eq_refl) as (Hw & He & _).
  split; [exact Hw|]. split; [exact He|].
  apply (aead_implicit_4_nonce implicit4_cs 77 rng0 (store_be64 5) (octets [9; 9])
           eq_refl eq_refl eq_refl eq_refl eq_refl).
Defined.

(** X2 on a record of three octets under [AEAD_IMPLICIT_4]. *)
Lemma aead_nonce_read_failure_witness :
  aead_nonce_read implicit4_cs (octets [1; 2; 3]) 3 0 = Throw Decoding_Error.
Proof.
  apply (proj2 (aead_nonce_read_failure implicit4_cs (octets [1; 2; 3]) 3 0
                  Decoding_Error)).
  right. left. split; [reflexivity|]. split; [reflexivity|].
  split; [reflexivity|reflexivity].
Defined.

(** X3 with sixteen octets of IV. *)
Lemma cbc_nonce_used_once_witness :
  aead_nonce_write cbc_cs 1 rng0 = Ok (m_nonce cbc_cs, set_m_nonce cbc_cs [], rng0) /\
  exists nonce2,
    aead_nonce_write (set_m_nonce cbc_cs []) 2 rng0 =
      Ok (nonce2, set_m_nonce cbc_cs [],
          mkRng (rng_tape rng0)
                (rng_pos rng0 + Z.to_nat (nonce_bytes_from_record cbc_cs))) /\
    size nonce2 = nonce_bytes_from_record cbc_cs /\
    nonce2 = map (rng_tape rng0)
                 (List.seq (rng_pos rng0) (Z.to_nat (nonce_bytes_from_record cbc_cs))).
Proof.
  apply (cbc_nonce_used_once cbc_cs 1 2 rng0 rng0).
  - reflexivity.
  - discriminate.
  - vm_compute. discriminate.
Defined.

(** X4 for the sequence numbers 1 and 2 under [AEAD_XOR_12]. *)
Lemma aead_nonce_injective_witness :
  exists nonce1 nonce2,
    aead_nonce_write S6_writer_cs 1 rng0 = Ok (nonce1, S6_writer_cs, rng0) /\
    aead_nonce_write S6_writer_cs 2 rng0 = Ok (nonce2, S6_writer_cs, rng0) /\
    length nonce1 = 12%nat /\
    (nonce1 = nonce2 -> 1 = 2).
Proof.
  apply (aead_nonce_injective S6_writer_cs 1 2 rng0 rng0).
  - left. split; reflexivity.
  - vm_compute. split; [discriminate|reflexivity].
  - vm_compute. split; [discriminate|reflexivity].
Defined.

(** X5 on two sequence numbers that differ by [2^64]. *)
Lemma format_ad_injective_witness :
  (2 ^ 64 + 1) mod 2 ^ 64 = 1 mod 2 ^ 64 /\ octet 23 = octet 23 /\
  TLS_V12 = TLS_V12 /\ 4 mod 2 ^ 16 = 4 mod 2 ^ 16.
Proof.
  apply (format_ad_injective (2 ^ 64 + 1) 1 4 4 (octet 23) (octet 23) TLS_V12 TLS_V12).
  vm_compute. reflexivity.
Defined.

(* ================================================================== *)
(** * What the writer writes *)
(* ================================================================== *)

(** [write_record] without a cipher state. *)
Lemma write_record_plaintext (msg : Record_Message) (version : Protocol_Version)
    (seq : Z) (rng : RandomNumberGenerator) :
  write_record msg version seq None rng =
  if get_size msg <? 2 ^ 16 then
    Ok (record_header (get_type msg) version seq (get_size msg) ++ get_data msg,
        None, rng)
  else Throw Internal_Error.
Proof.
  unfold write_record, append_u16_len, record_header.
  pose proof (size_nonneg (get_data msg)) as Hsz. fold (get_size msg) in Hsz.
  destruct (Z.ltb_spec (get_size msg) (2 ^ 16)) as [Hlt|Hge].
  - rewrite Z.mod_small by lia. rewrite Z.eqb_refl. cbn [BOTAN_ASSERT bind].
    destruct (is_datagram_protocol version); reflexivity.
  - pose proof (Z.mod_pos_bound (get_size msg) (2 ^ 16) ltac:(lia)).
    destruct (Z.eqb_spec (get_size msg) (get_size msg mod 2 ^ 16)); [lia|].
    reflexivity.
Qed.

(** X6.  [write_record] without a cipher state: a payload shorter than
    [2^16] octets is written as the header followed by the payload
    unchanged, the random source untouched; a longer one fails the
    length-field assertion of [append_u16_len], whatever
    [MAX_CIPHERTEXT_SIZE] is. *)
Theorem write_record_without_cipher_state (msg : Record_Message)
    (version : Protocol_Version) (seq : Z) (rng : RandomNumberGenerator) :
  (get_size msg < 2 ^ 16 ->
   write_record msg version seq None rng =
     Ok (record_header (get_type msg) version seq (get_size msg) ++ get_data msg,
         None, rng)) /\
  (2 ^ 16 <= get_size msg ->
   write_record msg version seq None rng = Throw Internal_Error).
Proof.
  rewrite write_record_plaintext.
  destruct (Z.ltb_spec (get_size msg) (2 ^ 16)); split; intros;
    try reflexivity; lia.
Qed.

(** X6 on four octets of application data. *)
Lemma write_record_without_cipher_state_witness :
  write_record app_message TLS_V12 0 None rng0 =
    Ok (record_header (get_type app_message) TLS_V12 0 (get_size app_message)
          ++ get_data app_message, None, rng0).
Proof.
  apply (proj1 (write_record_without_cipher_state app_message TLS_V12 0 rng0)).
  vm_compute. reflexivity.
Defined.

(** X7.  Whatever the engine, a [write_record] with a cipher state that
    returns has written the header with the length field
    [output_length + nonce_bytes_from_record] (which fits 16 bits), the
    explicit nonce, and the engine's output on exactly the payload, under
    the nonce of [aead_nonce] and the associated data with the plaintext
    length; the engine reported no failure and the whole record is shorter
    than [MAX_CIPHERTEXT_SIZE]. *)
Theorem write_record_encrypted_layout (msg : Record_Message)
    (version : Protocol_Version) (seq : Z) (cs cs' : Connection_Cipher_State)
    (rng rng' : RandomNumberGenerator) (output : list byte) :
  write_record msg version seq (Some cs) rng = Ok (output, Some cs', rng') ->
  let rec_size := output_length (aead cs) (get_size msg)
                  + nonce_bytes_from_record cs in
  exists nonce ctext,
    aead_nonce_write cs seq rng = Ok (nonce, cs', rng') /\
    process (aead cs) nonce
            (format_ad seq (get_type msg) version (get_size msg mod 2 ^ 16))
            (get_data msg) = (ctext, None) /\
    output = record_header (get_type msg) version seq rec_size
               ++ explicit_nonce cs nonce ++ ctext /\
    0 <= rec_size < 2 ^ 16 /\
    size output < MAX_CIPHERTEXT_SIZE.
Proof.
  intros Hw rec_size. unfold write_record in Hw. fold rec_size in Hw.
  destruct (aead_nonce_write cs seq rng) as [[[nonce cs1] rng1]|e] eqn:Hn;
    cbn [bind] in Hw; [|discriminate].
  unfold append_u16_len in Hw.
  destruct (Z.eqb_spec rec_size (rec_size mod 2 ^ 16)) as [H16|H16];
    cbn [BOTAN_ASSERT bind] in Hw; [|discriminate].
  rewrite <- H16 in Hw.
  set (hdr := record_header (get_type msg) version seq rec_size
              ++ explicit_nonce cs nonce).
  match type of Hw with
  | context [length ?o] =>
      assert (Hhdr : o = hdr)
  end.
  { subst hdr. unfold record_header, explicit_nonce, store_be64.
    destruct (is_datagram_protocol version), (nonce_bytes_from_record cs >? 0),
      (nonce_format cs); cbn [app]; rewrite <- ?app_assoc; reflexivity. }
  rewrite Hhdr in Hw.
  rewrite skipn_app, skipn_all, Nat.sub_diag in Hw. cbn [skipn app] in Hw.
  rewrite firstn_app, firstn_all, Nat.sub_diag in Hw. cbn [firstn] in Hw.
  rewrite app_nil_r in Hw.
  destruct (process _ _ _ _) as [tail [e|]] eqn:Hp; [discriminate|].
  destruct (size (hdr ++ tail) <? MAX_CIPHERTEXT_SIZE) eqn:Hmax;
    cbn [BOTAN_ASSERT bind] in Hw; [|discriminate].
  apply Z.ltb_lt in Hmax.
  injection Hw as <- <- <-.
  exists nonce, tail. split; [reflexivity|]. split; [exact Hp|].
  split; [subst hdr; rewrite <- app_assoc; reflexivity|].
  split; [rewrite H16; apply Z.mod_pos_bound; lia|exact Hmax].
Qed.

(** X7 on the record of S6. *)
Lemma write_record_encrypted_layout_witness :
  exists nonce ctext,
    aead_nonce_write S6_writer_cs 1 rng0 = Ok (nonce, S6_writer_cs, rng0) /\
    process (aead S6_writer_cs) nonce
            (format_ad 1 (get_type app_message) TLS_V12
                       (get_size app_message mod 2 ^ 16))
            (get_data app_message) = (ctext, None) /\
    S6_written =
      record_header (get_type app_message) TLS_V12 1
                    (output_length (aead S6_writer_cs) (get_size app_message)
                     + nonce_bytes_from_record S6_writer_cs)
        ++ explicit_nonce S6_writer_cs nonce ++ ctext /\
    0 <= output_length (aead S6_writer_cs) (get_size app_message)
         + nonce_bytes_from_record S6_writer_cs < 2 ^ 16 /\
    size S6_written < MAX_CIPHERTEXT_SIZE.
Proof.
  apply (write_record_encrypted_layout app_message TLS_V12 1 S6_writer_cs S6_writer_cs
           rng0 rng0 S6_written).
  vm_compute. reflexivity.
Defined.

(* ================================================================== *)
(** * From the writer to the reader without cipher states *)
(* ================================================================== *)

Section Plaintext.

Context {S : Type} {SN : Connection_Sequence_Numbers S}.
Variable gc : Z -> option Connection_Cipher_State.

(** X8.  Without cipher states (epoch 0) a record round-trips through the
    writer and the reader: a payload of at most [MAX_CIPHERTEXT_SIZE]
    octets (not empty under TLS) written by [write_record] is read back by
    [read_record] in one call, which returns 0, consumes the whole output
    and delivers the payload, the type and the version.  Under DTLS the
    record carries its sequence number and the reader accepts it; under TLS
    the sequence numbers are left as they were. *)
Theorem plaintext_round_trip (msg : Record_Message) (version : Protocol_Version)
    (seq : Z) (rng : RandomNumberGenerator) (sn : option S) (rec0 : TLS_Record) :
  let datagram := is_datagram_protocol version in
  get_size msg <= MAX_CIPHERTEXT_SIZE ->
  (datagram = false -> 0 < get_size msg) ->
  0 <= seq < 2 ^ 64 ->
  (if datagram
   then Z.shiftr seq 48 = 0 /\
        match sn with Some s => already_seen s seq | None => false end = false
   else match sn with Some s => current_read_epoch s | None => 0 end = 0) ->
  exists output,
    write_record msg version seq None rng = Ok (output, None, rng) /\
    size output = (if datagram then DTLS_HEADER_SIZE else TLS_HEADER_SIZE)
                  + get_size msg /\
    read_record gc (mkReader [] (mkInput output 0 datagram) rec0 sn) =
    Returned 0
      (mkReader [] (mkInput [] (size output) datagram)
         (mkRecord (get_data msg)
                   (if datagram then seq
                    else match sn with Some s => next_read_sequence s | None => 0 end)
                   version (Record_Type_of (get_type msg)))
         (if datagram then option_map (fun s => read_accept s seq) sn else sn)).
Proof.
  intros datagram Hmax Hpos Hseq Hepoch.
  pose proof (size_nonneg (get_data msg)) as Hsz. fold (get_size msg) in Hsz.
  assert (H16 : get_size msg < 2 ^ 16)
    by (unfold MAX_CIPHERTEXT_SIZE in Hmax; change (2 ^ 14) with 16384 in Hmax;
        change (2 ^ 16) with 65536; lia).
  eexists. split.
  { rewrite write_record_plaintext.
    destruct (Z.ltb_spec (get_size msg) (2 ^ 16)); [reflexivity|lia]. }
  unfold read_record. cbn [raw_input is_datagram].
  destruct version as [major minor]. subst datagram.
  unfold record_header.
  destruct (is_datagram_protocol (mkVersion major minor)) eqn:Hdg.
  - set (hdr := [get_type msg; major_version (mkVersion major minor);
                 minor_version (mkVersion major minor)]
                  ++ store_be64 seq
                  ++ [get_byte 2 0 (get_size msg); get_byte 2 1 (get_size msg)]).
    split; [rewrite size_app; reflexivity|].
    destruct Hepoch as [Hepoch Hseen].
    rewrite <- (app_nil_r (get_data msg)) at 1.
    assert (Hlenfield : make_uint16 (at_ hdr 11) (at_ hdr 12) = size (get_data msg))
      by (subst hdr; cbn [at_ nth app store_be64 map];
          rewrite make_uint16_get_byte, Z.mod_small by lia; reflexivity).
    rewrite (read_dtls_record_complete gc hdr (get_data msg) [] 0 true rec0 sn
               eq_refl Hlenfield).
    cbv zeta.
    change (mkVersion (at_ hdr 1) (at_ hdr 2)) with (mkVersion major minor).
    rewrite Hdg. cbn [negb]. fold (get_size msg).
    destruct (Z.gtb_spec (get_size msg) MAX_CIPHERTEXT_SIZE); [lia|].
    change (skipn 3 hdr)
      with (store_be64 seq ++ [get_byte 2 0 (get_size msg); get_byte 2 1 (get_size msg)]).
    rewrite load_be64_store_be64, Z.mod_small by exact Hseq.
    rewrite Hseen, Hepoch. cbn [Z.eqb].
    change (at_ hdr 0) with (get_type msg).
    rewrite size_app. change (size hdr) with 13.
    unfold accept_if_present, set_readbuf, set_data, set_rec. reader_simpl.
    replace (0 + 13 + get_size msg) with (13 + size (get_data msg)) by reflexivity.
    destruct sn; reflexivity.
  - set (hdr := [get_type msg; major_version (mkVersion major minor);
                 minor_version (mkVersion major minor)]
                  ++ []
                  ++ [get_byte 2 0 (get_size msg); get_byte 2 1 (get_size msg)]).
    split; [rewrite size_app; reflexivity|].
    rewrite <- (app_nil_r (get_data msg)) at 1.
    assert (Hlenfield : make_uint16 (at_ hdr 3) (at_ hdr 4) = size (get_data msg))
      by (subst hdr; cbn [at_ nth app];
          rewrite make_uint16_get_byte, Z.mod_small by lia; reflexivity).
    rewrite (read_tls_record_complete gc hdr (get_data msg) [] 0 false rec0 sn
               eq_refl Hlenfield).
    cbv zeta.
    change (mkVersion (at_ hdr 1) (at_ hdr 2)) with (mkVersion major minor).
    rewrite Hdg. fold (get_size msg).
    destruct (Z.gtb_spec (get_size msg) MAX_CIPHERTEXT_SIZE); [lia|].
    specialize (Hpos eq_refl).
    destruct (Z.eqb_spec (get_size msg) 0); [lia|].
    rewrite Hepoch. cbn [Z.eqb].
    change (at_ hdr 0) with (get_type msg).
    rewrite size_app. change (size hdr) with 5.
    unfold set_readbuf, set_data, set_rec. reader_simpl.
    reflexivity.
Qed.

(** X9.  What the TLS writer writes and the TLS reader refuses: without a
    cipher state [write_record] accepts an empty payload and any payload
    below [2^16] octets, but [read_tls_record] answers the first with a
    decode-error alert and those above [MAX_CIPHERTEXT_SIZE] with a
    record-overflow alert. *)
Theorem plaintext_written_but_rejected (msg : Record_Message)
    (version : Protocol_Version) (seq : Z) (rng : RandomNumberGenerator)
    (sn : option S) (rec0 : TLS_Record) :
  is_datagram_protocol version = false ->
  get_size msg < 2 ^ 16 ->
  exists output,
    write_record msg version seq None rng = Ok (output, None, rng) /\
    (get_size msg = 0 ->
     exists st', read_tls_record gc (mkReader [] (mkInput output 0 false) rec0 sn)
                 = Raised (TLS_Exception DECODE_ERROR) st') /\
    (MAX_CIPHERTEXT_SIZE < get_size msg ->
     exists st', read_tls_record gc (mkReader [] (mkInput output 0 false) rec0 sn)
                 = Raised (TLS_Exception RECORD_OVERFLOW) st').
Proof.
  intros Hdg H16.
  pose proof (size_nonneg (get_data msg)) as Hsz. fold (get_size msg) in Hsz.
  eexists. split.
  { rewrite write_record_plaintext.
    destruct (Z.ltb_spec (get_size msg) (2 ^ 16)); [reflexivity|lia]. }
  destruct version as [major minor].
  unfold record_header. rewrite Hdg.
  set (hdr := [get_type msg; major_version (mkVersion major minor);
               minor_version (mkVersion major minor)]
                ++ []
                ++ [get_byte 2 0 (get_size msg); get_byte 2 1 (get_size msg)]).
  assert (Hlenfield : make_uint16 (at_ hdr 3) (at_ hdr 4) = get_size msg)
    by (subst hdr; cbn [at_ nth app];
        rewrite make_uint16_get_byte, Z.mod_small by lia; reflexivity).
  destruct (tls_record_size_validation gc hdr (get_data msg) 0 false rec0 sn
              eq_refl Hdg) as [Hover Hzero].
  rewrite Hlenfield in Hover, Hzero.
  split; [exact Hzero|]. intros Hbig. apply Hover. lia.
Qed.

(** X10.  Two records in one input: at epoch 0 the first call of
    [read_tls_record] delivers the first record and consumes only its
    octets, and a second call on the state it leaves delivers the second
    record, leaving what follows in the input. *)
Theorem tls_records_back_to_back (hdr1 body1 hdr2 body2 rest : list byte)
    (c : Z) (dg : bool) (rec0 : TLS_Record) (sn : option S) :
  let seq := match sn with Some s => next_read_sequence s | None => 0 end in
  let record1 := mkRecord body1 seq (mkVersion (at_ hdr1 1) (at_ hdr1 2))
                          (Record_Type_of (at_ hdr1 0)) in
  let record2 := mkRecord body2 seq (mkVersion (at_ hdr2 1) (at_ hdr2 2))
                          (Record_Type_of (at_ hdr2 0)) in
  let st1 := mkReader [] (mkInput (hdr2 ++ body2 ++ rest) (c + 5 + size body1) dg)
                      record1 sn in
  length hdr1 = 5%nat -> length hdr2 = 5%nat ->
  is_datagram_protocol (mkVersion (at_ hdr1 1) (at_ hdr1 2)) = false ->
  is_datagram_protocol (mkVersion (at_ hdr2 1) (at_ hdr2 2)) = false ->
  make_uint16 (at_ hdr1 3) (at_ hdr1 4) = size body1 ->
  make_uint16 (at_ hdr2 3) (at_ hdr2 4) = size body2 ->
  0 < size body1 <= MAX_CIPHERTEXT_SIZE ->
  0 < size body2 <= MAX_CIPHERTEXT_SIZE ->
  match sn with Some s => current_read_epoch s | None => 0 end = 0 ->
  read_tls_record gc
    (mkReader [] (mkInput ((hdr1 ++ body1) ++ (hdr2 ++ body2) ++ rest) c dg) rec0 sn)
    = Returned 0 st1 /\
  read_tls_record gc st1 =
    Returned 0 (mkReader [] (mkInput rest (c + 5 + size body1 + 5 + size body2) dg)
                         record2 sn).
Proof.
  intros seq record1 record2 st1 Hl1 Hl2 Hv1 Hv2 Hs1 Hs2 Hb1 Hb2 Hepoch.
  split.
  - rewrite <- !app_assoc.
    rewrite (read_tls_record_complete gc hdr1 body1 _ c dg rec0 sn Hl1 Hs1).
    cbv zeta. rewrite Hv1.
    destruct (Z.gtb_spec (size body1) MAX_CIPHERTEXT_SIZE); [lia|].
    destruct (Z.eqb_spec (size body1) 0); [lia|].
    rewrite Hepoch. cbn [Z.eqb]. reflexivity.
  - subst st1.
    rewrite (read_tls_record_complete gc hdr2 body2 rest _ dg record1 sn Hl2 Hs2).
    cbv zeta. rewrite Hv2.
    destruct (Z.gtb_spec (size body2) MAX_CIPHERTEXT_SIZE); [lia|].
    destruct (Z.eqb_spec (size body2) 0); [lia|].
    rewrite Hepoch. cbn [Z.eqb]. reflexivity.
Qed.

End Plaintext.

(** X8 on four octets of application data under TLS 1.2. *)
Lemma plaintext_round_trip_witness :
  exists output,
    write_record app_message TLS_V12 0 None rng0 = Ok (output, None, rng0) /\
    size output = TLS_HEADER_SIZE + get_size app_message /\
    read_record no_cipherstate
      (mkReader [] (mkInput output 0 false) empty_record (Some (mkStream 0 0))) =
    Returned 0
      (mkReader [] (mkInput [] (size output) false)
         (mkRecord (get_data app_message) 0 TLS_V12
                   (Record_Type_of (get_type app_message)))
         (Some (mkStream 0 0))).
Proof.
  exact (plaintext_round_trip no_cipherstate app_message TLS_V12 0 rng0
           (Some (mkStream 0 0)) empty_record
           ltac:(vm_compute; discriminate)
           ltac:(intros _; reflexivity)
           ltac:(vm_compute; split; [discriminate|reflexivity])
           eq_refl).
Defined.

(** X9 on the empty message. *)
Lemma plaintext_written_but_rejected_witness :
  exists output,
    write_record empty_message TLS_V12 0 None rng0 = Ok (output, None, rng0) /\
    exists st',
      read_tls_record no_cipherstate
        (mkReader [] (mkInput output 0 false) empty_record
                  (@None Stream_Sequence_Numbers))
      = Raised (TLS_Exception DECODE_ERROR) st'.
Proof.
  destruct (plaintext_written_but_rejected (S := Stream_Sequence_Numbers)
              no_cipherstate empty_message TLS_V12 0 rng0 None empty_record
              eq_refl ltac:(vm_compute; reflexivity))
    as (output & Hw & Hzero & _).
  exists output. split; [exact Hw|]. apply Hzero. reflexivity.
Defined.

(** X10 on S1 sent twice. *)
Lemma tls_records_back_to_back_witness :
  read_tls_record no_cipherstate
    (reader_on (S1_bytes ++ S1_bytes ++ []) false (@None Stream_Sequence_Numbers))
    = Returned 0
        (mkReader [] (mkInput (S1_bytes ++ []) 9 false)
           (mkRecord (octets [1; 2; 3; 4]) 0 TLS_V12 HANDSHAKE) None) /\
  read_tls_record no_cipherstate
    (mkReader [] (mkInput (S1_bytes ++ []) 9 false)
       (mkRecord (octets [1; 2; 3; 4]) 0 TLS_V12 HANDSHAKE)
       (@None Stream_Sequence_Numbers))
    = Returned 0
        (mkReader [] (mkInput [] 18 false)
           (mkRecord (octets [1; 2; 3; 4]) 0 TLS_V12 HANDSHAKE) None).
Proof.
  exact (tls_records_back_to_back (S := Stream_Sequence_Numbers) no_cipherstate
           (firstn 5 S1_bytes) (skipn 5 S1_bytes)
           (firstn 5 S1_bytes) (skipn 5 S1_bytes) [] 0 false empty_record None
           eq_refl eq_refl eq_refl eq_refl eq_refl eq_refl
           ltac:(vm_compute; split; [reflexivity|discriminate])
           ltac:(vm_compute; split; [reflexivity|discriminate])
           eq_refl).
Defined.

(* ================================================================== *)
(** * What a call of the readers leaves *)
(* ================================================================== *)

Lemma fill_buffer_to_prefix (rb : list byte) (inp : Record_Raw_Input) (d n : Z)
    (rb' : list byte) (inp' : Record_Raw_Input) :
  fill_buffer_to rb inp d = (n, rb', inp') ->
  (exists x, rb' = rb ++ x) /\ (size rb <= d -> size rb' <= d) /\
  (n <> 0 -> n = d - size rb' /\ size rb' < d).
Proof.
  unfold fill_buffer_to.
  destruct (Z.geb_spec (size rb) d) as [Hge|Hlt]; intros H; injection H as Hn Hrb Hinp.
  - subst. split; [exists []; rewrite app_nil_r; reflexivity|]. split; [lia|congruence].
  - split; [eexists; symmetry; exact Hrb|].
    assert (Hsz : size rb' <= d).
    { subst rb'. rewrite size_app. unfold size at 2. rewrite length_firstn.
      unfold input_size, size in *. lia. }
    split; [intros _; exact Hsz|]. intros Hnz. subst n. split; [congruence|].
    rewrite Hrb in Hnz. lia.
Qed.

Section Reader_Extras.

Context {S : Type} {SN : Connection_Sequence_Numbers S}.
Variable gc : Z -> option Connection_Cipher_State.

Lemma feed_own_input (st : reader S) : feed st (input_data (raw_input st)) = st.
Proof. destruct st as [rb [d c dg] r sn]. reflexivity. Qed.

Lemma decrypt_for_epoch_keeps (st st' : reader S) (epoch : Z) (rc : list byte)
    (rs : Z) (e : option exn) :
  decrypt_for_epoch gc st epoch rc rs = (st', e) ->
  readbuf st' = readbuf st /\ raw_input st' = raw_input st /\
  sequence_numbers st' = sequence_numbers st.
Proof.
  unfold decrypt_for_epoch. destruct (gc epoch) as [cs|].
  - destruct (decrypt_record _ _ _ _ _ _ _) as [d e']. intros H. injection H as <- _.
    repeat split.
  - intros H. injection H as <- _. repeat split.
Qed.

(** What a returning call of the record phase leaves. *)
Lemma tls_record_phase_returned (st st1 : reader S) (n : Z) :
  TLS_HEADER_SIZE <= size (readbuf st) ->
  tls_record_phase gc st = Returned n st1 ->
  (n = 0 -> readbuf st1 = []) /\
  (n <> 0 ->
   readbuf st1 = readbuf st ++ input_data (raw_input st) /\
   raw_input st1 = mkInput [] (get_consumed (raw_input st)
                               + size (input_data (raw_input st)))
                           (is_datagram (raw_input st)) /\
   sequence_numbers st1 = sequence_numbers st /\
   0 < n /\
   size (readbuf st1) + n = TLS_HEADER_SIZE + tls_record_size (readbuf st1)).
Proof.
  intros Hhdr. unfold TLS_HEADER_SIZE in Hhdr.
  destruct st as [rb [a c dg] r sn]. cbn [readbuf raw_input input_data get_consumed
                                           is_datagram sequence_numbers] in *.
  unfold tls_record_phase. reader_simpl.
  destruct (is_datagram_protocol _); [discriminate|].
  set (rs := make_uint16 _ _).
  destruct (rs >? MAX_CIPHERTEXT_SIZE); [discriminate|].
  destruct (rs =? 0); [discriminate|].
  destruct (fill_buffer_to _ _ _) as [[needed rb'] inp'] eqn:Hfill.
  destruct (Z.eqb_spec needed 0) as [Hz|Hnz]; cbn [negb].
  - destruct (negb (_ =? _)); [discriminate|].
    destruct sn as [s|]; reader_simpl.
    + destruct (current_read_epoch s =? 0).
      * intros H. injection H as <- <-. split; [reflexivity|intros; lia].
      * destruct (decrypt_for_epoch _ _ _ _ _) as [st2 [e|]]; [discriminate|].
        intros H. injection H as <- <-. split; [reflexivity|intros; lia].
    + change (0 =? 0) with true. cbv iota.
      intros H. injection H as <- <-. split; [reflexivity|intros; lia].
  - intros H. injection H as <- <-. split; [intros; contradiction|]. intros _.
    destruct (fill_buffer_to_more _ _ _ _ _ _ _ _ Hfill Hnz)
      as (Hrb & Hinp & Hn & Hroom).
    subst rb' inp'. reader_simpl.
    pose proof (size_nonneg a).
    repeat split; try reflexivity.
    + unfold TLS_HEADER_SIZE in *. lia.
    + unfold tls_record_size. rewrite !at_app_l by lia. fold rs.
      rewrite size_app. lia.
Qed.

(** X11.  What a returning call of [read_tls_record] means.  An answer of 0
    comes with an empty read buffer.  A positive answer means the whole
    input was taken into the read buffer, the sequence numbers are
    untouched, and the answer is exactly what is missing: up to the five
    header octets while the header is incomplete, and up to the end of the
    record that the header announces afterwards. *)
Theorem read_tls_record_returned (st st1 : reader S) (n : Z) :
  read_tls_record gc st = Returned n st1 ->
  (n = 0 -> readbuf st1 = []) /\
  (n <> 0 ->
   readbuf st1 = readbuf st ++ input_data (raw_input st) /\
   input_data (raw_input st1) = [] /\
   get_consumed (raw_input st1) =
     get_consumed (raw_input st) + size (input_data (raw_input st)) /\
   sequence_numbers st1 = sequence_numbers st /\
   0 < n /\
   size (readbuf st1) + n =
     if size (readbuf st1) <? TLS_HEADER_SIZE then TLS_HEADER_SIZE
     else TLS_HEADER_SIZE + tls_record_size (readbuf st1)).
Proof.
  intros Hcall.
  rewrite <- (feed_own_input st) in Hcall.
  rewrite read_tls_record_phases in Hcall.
  set (a := input_data (raw_input st)) in *.
  pose proof (size_nonneg a) as Ha.
  destruct (tls_header_phase_cases st a)
    as [[Hfull Hhdr]|[[Hless Hhdr]|[Hshort (a1 & a2 & Hsplit & Hsz & Hhdr)]]];
    rewrite Hhdr in Hcall.
  - rewrite feed_own_input in Hcall.
    destruct (tls_record_phase_returned st st1 n Hfull Hcall) as [H0 Hn].
    split; [exact H0|]. intros Hnz.
    destruct (Hn Hnz) as (Hrb & Hinp & Hsn & Hpos & Hsum).
    rewrite Hinp. cbn [input_data get_consumed]. fold a in Hrb.
    repeat split; try assumption.
    destruct (Z.ltb_spec (size (readbuf st1)) TLS_HEADER_SIZE) as [Hlt|_];
      [|exact Hsum].
    rewrite Hrb, size_app in Hlt. lia.
  - assert (Hn : n = TLS_HEADER_SIZE - size (readbuf st) - size a) by congruence.
    assert (Hst1 : st1 = mkReader (readbuf st ++ a)
                           (mkInput [] (get_consumed (raw_input st) + size a)
                                    (is_datagram (raw_input st)))
                           (rec st) (sequence_numbers st)) by congruence.
    subst n st1. reader_simpl.
    split; [intros; lia|]. intros _.
    repeat split; try lia.
    rewrite size_app.
    destruct (Z.ltb_spec (size (readbuf st) + size a) TLS_HEADER_SIZE); lia.
  - set (sth := mkReader (readbuf st ++ a1)
                  (mkInput a2 (get_consumed (raw_input st) + size a1)
                           (is_datagram (raw_input st)))
                  (rec st) (sequence_numbers st)) in *.
    assert (Hsth : TLS_HEADER_SIZE <= size (readbuf sth))
      by (subst sth; reader_simpl; rewrite size_app; lia).
    destruct (tls_record_phase_returned sth st1 n Hsth Hcall) as [H0 Hn].
    split; [exact H0|]. intros Hnz.
    destruct (Hn Hnz) as (Hrb & Hinp & Hsn & Hpos & Hsum).
    subst sth. revert Hrb Hinp Hsn. reader_simpl. intros Hrb Hinp Hsn.
    rewrite Hinp. cbn [input_data get_consumed].
    rewrite Hsplit, size_app.
    repeat split; try assumption.
    + rewrite Hrb, <- app_assoc. reflexivity.
    + lia.
    + destruct (Z.ltb_spec (size (readbuf st1)) TLS_HEADER_SIZE) as [Hlt|_];
        [|exact Hsum].
      rewrite Hrb, !size_app in Hlt. pose proof (size_nonneg a2). lia.
Qed.

Lemma tls_record_phase_buffer_ok (st : reader S) :
  TLS_HEADER_SIZE <= size (readbuf st) ->
  tls_buffer_ok (readbuf st) ->
  tls_buffer_ok (readbuf (outcome_state (tls_record_phase gc st))).
Proof.
  intros Hhdr Hok. unfold TLS_HEADER_SIZE in Hhdr.
  unfold tls_record_phase. reader_simpl.
  destruct (is_datagram_protocol _); [exact Hok|].
  pose proof (make_uint16_range (at_ (readbuf st) 3) (at_ (readbuf st) 4)) as Hrange.
  fold (tls_record_size (readbuf st)) in *.
  set (rs := tls_record_size (readbuf st)) in *.
  destruct (Z.gtb_spec rs MAX_CIPHERTEXT_SIZE) as [|Hmax]; [exact Hok|].
  destruct (rs =? 0); [exact Hok|].
  destruct (fill_buffer_to _ _ _) as [[needed rb'] inp'] eqn:Hfill.
  destruct (fill_buffer_to_prefix _ _ _ _ _ _ Hfill) as ([x Hx] & Hle & _).
  assert (Hrb' : tls_buffer_ok rb').
  { right. assert (Hrs : tls_record_size rb' = rs).
    { unfold tls_record_size. rewrite Hx, !at_app_l by lia. reflexivity. }
    rewrite Hrs. split; [|exact Hmax]. apply Hle.
    destruct Hok as [H5|[Hrec _]]; unfold TLS_HEADER_SIZE in *; lia. }
  reader_simpl.
  destruct (negb (needed =? 0)); [exact Hrb'|].
  destruct (negb (_ =? _)); [exact Hrb'|].
  assert (Hnil : tls_buffer_ok []) by (left; vm_compute; discriminate).
  destruct (sequence_numbers st) as [s|]; reader_simpl.
  - destruct (current_read_epoch s =? 0); [exact Hnil|].
    destruct (decrypt_for_epoch _ _ _ _ _) as [st2 [e|]] eqn:Hdec; [|exact Hnil].
    apply decrypt_for_epoch_keeps in Hdec. destruct Hdec as (Hrb & _).
    cbn [outcome_state]. rewrite Hrb. exact Hrb'.
  - change (0 =? 0) with true. cbv iota. exact Hnil.
Qed.

(** X12.  The read buffer of the TLS reader stays bounded: however a call
    ends, and whatever the input, a buffer that held at most a header, or
    no more than the record its header announces, still does, so it never
    exceeds [TLS_HEADER_SIZE + MAX_CIPHERTEXT_SIZE] octets. *)
Theorem read_tls_record_buffer_bounded (st : reader S) :
  tls_buffer_ok (readbuf st) ->
  tls_buffer_ok (readbuf (outcome_state (read_tls_record gc st))) /\
  size (readbuf (outcome_state (read_tls_record gc st)))
    <= TLS_HEADER_SIZE + MAX_CIPHERTEXT_SIZE.
Proof.
  intros Hok.
  assert (Hkeep : tls_buffer_ok (readbuf (outcome_state (read_tls_record gc st)))).
  { rewrite <- (feed_own_input st) at 1.
    rewrite read_tls_record_phases.
    set (a := input_data (raw_input st)).
    destruct (tls_header_phase_cases st a)
      as [[Hfull Hhdr]|[[Hless Hhdr]|[Hshort (a1 & a2 & Hsplit & Hsz & Hhdr)]]];
      rewrite Hhdr.
    - subst a. rewrite feed_own_input.
      apply tls_record_phase_buffer_ok; assumption.
    - cbn [outcome_state readbuf]. left. rewrite size_app. lia.
    - apply tls_record_phase_buffer_ok; reader_simpl.
      + rewrite size_app. lia.
      + left. rewrite size_app. lia. }
  split; [exact Hkeep|].
  destruct Hkeep as [H5|[Hrec Hmax]].
  - unfold MAX_CIPHERTEXT_SIZE. change (2 ^ 14) with 16384. lia.
  - lia.
Qed.

(** X13.  Under TLS a decryption failure is the caller's: on a whole record
    of a non-zero epoch [read_tls_record] raises whatever the decryption
    step failed with, the read buffer still holds the record, the type is
    set, and the sequence numbers have not accepted anything. *)
Theorem tls_decryption_failure_raised (hdr body rest : list byte) (c : Z)
    (dg : bool) (rec0 : TLS_Record) (sn : S) (e : exn) :
  let version := mkVersion (at_ hdr 1) (at_ hdr 2) in
  let st := mkReader (hdr ++ body) (mkInput rest (c + 5 + size body) dg)
                     (mkRecord (rec_data rec0) (next_read_sequence sn) version
                               (Record_Type_of (at_ hdr 0))) (Some sn) in
  length hdr = 5%nat ->
  is_datagram_protocol version = false ->
  make_uint16 (at_ hdr 3) (at_ hdr 4) = size body ->
  0 < size body <= MAX_CIPHERTEXT_SIZE ->
  current_read_epoch sn <> 0 ->
  decryption_failure gc st (current_read_epoch sn) body (size body) e ->
  exists st',
    read_tls_record gc (mkReader [] (mkInput (hdr ++ body ++ rest) c dg) rec0 (Some sn))
      = Raised e st' /\
    readbuf st' = hdr ++ body /\
    sequence_numbers st' = Some sn /\
    rec_type (rec st') = Record_Type_of (at_ hdr 0).
Proof.
  intros version st Hlen Hdg Hsize Hbody Hepoch Hfail.
  rewrite (read_tls_record_complete gc hdr body rest c dg rec0 (Some sn) Hlen Hsize).
  cbv zeta. fold version. fold st. rewrite Hdg.
  destruct (Z.gtb_spec (size body) MAX_CIPHERTEXT_SIZE); [lia|].
  destruct (Z.eqb_spec (size body) 0); [lia|].
  destruct (Z.eqb_spec (current_read_epoch sn) 0); [contradiction|].
  destruct (decryption_failure_caught gc st _ _ _ _ Hfail) as [d [Hd|Hd]];
    rewrite Hd; eexists; repeat split.
Qed.

(** X14.  A header of the other kind.  The TLS reader answers a datagram
    version with a protocol-version alert, keeping the header in its
    buffer; the DTLS reader drops a stream version silently: it returns 0
    with [NO_RECORD], an empty buffer and only the thirteen header octets
    consumed. *)
Theorem reader_version_mismatch (hdr rest : list byte) (c : Z) (dg : bool)
    (rec0 : TLS_Record) (sn : option S) :
  let version := mkVersion (at_ hdr 1) (at_ hdr 2) in
  (length hdr = 5%nat -> is_datagram_protocol version = true ->
   read_tls_record gc (mkReader [] (mkInput (hdr ++ rest) c dg) rec0 sn) =
   Raised (TLS_Exception PROTOCOL_VERSION)
     (mkReader hdr (mkInput rest (c + 5) dg)
        (mkRecord (rec_data rec0) (rec_sequence rec0) version (rec_type rec0)) sn)) /\
  (length hdr = 13%nat -> is_datagram_protocol version = false ->
   read_dtls_record gc (mkReader [] (mkInput (hdr ++ rest) c dg) rec0 sn) =
   Returned 0
     (mkReader [] (mkInput rest (c + 13) dg)
        (mkRecord (rec_data rec0) (rec_sequence rec0) version NO_RECORD) sn)).
Proof.
  intros version. split; intros Hlen Hdg.
  - destruct hdr as [|h0 [|h1 [|h2 [|h3 [|h4 [|h5 hdr]]]]]]; try discriminate Hlen.
    clear Hlen. set (hdr := [h0; h1; h2; h3; h4]) in *.
    unfold read_tls_record.
    cbn [readbuf raw_input rec sequence_numbers].
    change (size (@nil byte) <? TLS_HEADER_SIZE) with true. cbv iota.
    change TLS_HEADER_SIZE with (size (@nil byte) + size hdr) at 1.
    rewrite fill_buffer_to_complete. cbn [app]. reader_simpl.
    change (0 =? 0) with true. change (size hdr =? TLS_HEADER_SIZE) with true.
    cbn [negb]. cbv iota. reader_simpl.
    fold version. rewrite Hdg. reflexivity.
  - destruct hdr as [|h0 [|h1 [|h2 [|h3 [|h4 [|h5 [|h6 [|h7 [|h8 [|h9 [|h10
             [|h11 [|h12 [|h13 hdr]]]]]]]]]]]]]]; try discriminate Hlen.
    clear Hlen.
    set (hdr := [h0; h1; h2; h3; h4; h5; h6; h7; h8; h9; h10; h11; h12]) in *.
    unfold read_dtls_record.
    cbn [readbuf raw_input rec sequence_numbers].
    change (size (@nil byte) <? DTLS_HEADER_SIZE) with true. cbv iota.
    change DTLS_HEADER_SIZE with (size (@nil byte) + size hdr) at 1.
    rewrite fill_buffer_to_complete. cbn [app]. reader_simpl.
    change (0 =? 0) with true. change (size hdr =? DTLS_HEADER_SIZE) with true.
    cbn [negb]. cbv iota. reader_simpl.
    fold version. rewrite Hdg. reflexivity.
Qed.

(** X16.  Truncated datagrams are dropped.  A datagram shorter than the
    DTLS header, and one whose body is shorter than its header announces,
    make [read_dtls_record] return 0 with an empty read buffer and all the
    input consumed; in the first case the record object is untouched, in
    the second its type is [NO_RECORD]. *)
Theorem dtls_short_datagram_dropped (input : list byte) (c : Z) (dg : bool)
    (rec0 : TLS_Record) (sn : option S) :
  (size input < DTLS_HEADER_SIZE ->
   read_dtls_record gc (mkReader [] (mkInput input c dg) rec0 sn) =
   Returned 0 (mkReader [] (mkInput [] (c + size input) dg) rec0 sn)) /\
  (forall hdr body,
      input = hdr ++ body ->
      length hdr = 13%nat ->
      is_datagram_protocol (mkVersion (at_ hdr 1) (at_ hdr 2)) = true ->
      make_uint16 (at_ hdr 11) (at_ hdr 12) <= MAX_CIPHERTEXT_SIZE ->
      size body < make_uint16 (at_ hdr 11) (at_ hdr 12) ->
      read_dtls_record gc (mkReader [] (mkInput input c dg) rec0 sn) =
      Returned 0
        (mkReader [] (mkInput [] (c + 13 + size body) dg)
           (mkRecord (rec_data rec0) (rec_sequence rec0)
                     (mkVersion (at_ hdr 1) (at_ hdr 2)) NO_RECORD) sn)).
Proof.
  split.
  - intros Hshort. unfold read_dtls_record.
    cbn [readbuf raw_input rec sequence_numbers].
    change (size (@nil byte) <? DTLS_HEADER_SIZE) with true. cbv iota.
    rewrite fill_buffer_to_short by (change (size (@nil byte)) with 0; lia).
    reader_simpl. change (size (@nil byte)) with 0.
    pose proof (size_nonneg input).
    destruct (Z.eqb_spec (DTLS_HEADER_SIZE - 0 - size input) 0); [lia|].
    reflexivity.
  - intros hdr body Hinput Hlen Hdg Hmax Htrunc. subst input.
    destruct hdr as [|h0 [|h1 [|h2 [|h3 [|h4 [|h5 [|h6 [|h7 [|h8 [|h9 [|h10
             [|h11 [|h12 [|h13 hdr]]]]]]]]]]]]]]; try discriminate Hlen.
    clear Hlen.
    set (hdr := [h0; h1; h2; h3; h4; h5; h6; h7; h8; h9; h10; h11; h12]) in *.
    unfold read_dtls_record.
    cbn [readbuf raw_input rec sequence_numbers].
    change (size (@nil byte) <? DTLS_HEADER_SIZE) with true. cbv iota.
    change DTLS_HEADER_SIZE with (size (@nil byte) + size hdr) at 1.
    rewrite fill_buffer_to_complete. cbn [app]. reader_simpl.
    change (0 =? 0) with true. change (size hdr =? DTLS_HEADER_SIZE) with true.
    cbn [negb]. cbv iota. reader_simpl.
    rewrite Hdg. cbn [negb].
    set (rs := make_uint16 (at_ hdr 11) (at_ hdr 12)) in *.
    destruct (Z.gtb_spec rs MAX_CIPHERTEXT_SIZE); [lia|].
    pose proof (size_nonneg body).
    rewrite fill_buffer_to_short by (change (size hdr) with 13; unfold DTLS_HEADER_SIZE, TLS_HEADER_SIZE; lia).
    reader_simpl.
    destruct (Z.eqb_spec (DTLS_HEADER_SIZE + rs - size hdr - size body) 0);
      [change (size hdr) with 13 in *; unfold DTLS_HEADER_SIZE, TLS_HEADER_SIZE in *; lia|].
    cbn [negb]. change (size hdr) with 13.
    rewrite <- Z.add_assoc. rewrite Z.add_assoc. reflexivity.
Qed.

End Reader_Extras.

(** X11 on the first three octets of S1: two more are needed. *)
Lemma read_tls_record_returned_witness :
  readbuf (mkReader (octets [22; 3; 3]) (mkInput [] 3 false) empty_record
                    (@None Stream_Sequence_Numbers))
    = [] ++ octets [22; 3; 3] /\
  size (octets [22; 3; 3]) + 2 = TLS_HEADER_SIZE.
Proof.
  destruct (read_tls_record_returned (S := Stream_Sequence_Numbers) no_cipherstate
              (reader_on (octets [22; 3; 3]) false None)
              (mkReader (octets [22; 3; 3]) (mkInput [] 3 false) empty_record None)
              2 eq_refl) as [_ Hpos].
  destruct (Hpos ltac:(discriminate)) as (Hrb & _ & _ & _ & _ & Hsum).
  split; [exact Hrb|exact Hsum].
Defined.

(** X12 on S1. *)
Lemma read_tls_record_buffer_bounded_witness :
  tls_buffer_ok
    (readbuf (outcome_state
       (read_tls_record no_cipherstate
          (reader_on S1_bytes false (@None Stream_Sequence_Numbers))))) /\
  size (readbuf (outcome_state
          (read_tls_record no_cipherstate
             (reader_on S1_bytes false (@None Stream_Sequence_Numbers)))))
    <= TLS_HEADER_SIZE + MAX_CIPHERTEXT_SIZE.
Proof.
  apply (read_tls_record_buffer_bounded (S := Stream_Sequence_Numbers) no_cipherstate
           (reader_on S1_bytes false None)).
  left. vm_compute. discriminate.
Defined.

(** X13 on a record of epoch 1 for which there is no cipher state. *)
Lemma tls_decryption_failure_raised_witness :
  exists st',
    read_tls_record no_cipherstate
      (mkReader [] (mkInput (app_header ++ octets [1; 2; 3; 4] ++ []) 0 false)
                empty_record (Some (mkStream 1 1)))
      = Raised Internal_Error st' /\
    readbuf st' = app_header ++ octets [1; 2; 3; 4] /\
    sequence_numbers st' = Some (mkStream 1 1) /\
    rec_type (rec st') = Record_Type_of (at_ app_header 0).
Proof.
  apply (tls_decryption_failure_raised no_cipherstate app_header (octets [1; 2; 3; 4])
           [] 0 false empty_record (mkStream 1 1) Internal_Error).
  - reflexivity.
  - reflexivity.
  - reflexivity.
  - vm_compute. split; [reflexivity|discriminate].
  - discriminate.
  - apply missing_cipher_state. reflexivity.
Defined.

(** X14 on a DTLS 1.2 version in a TLS header and a TLS 1.2 version in a
    DTLS header. *)
Lemma reader_version_mismatch_witness :
  read_tls_record no_cipherstate
    (mkReader [] (mkInput (datagram_version_header ++ []) 0 false) empty_record
              (@None Stream_Sequence_Numbers)) =
  Raised (TLS_Exception PROTOCOL_VERSION)
    (mkReader datagram_version_header (mkInput [] (0 + 5) false)
       (mkRecord (rec_data empty_record) (rec_sequence empty_record)
          (mkVersion (at_ datagram_version_header 1) (at_ datagram_version_header 2))
          (rec_type empty_record)) None) /\
  read_dtls_record no_cipherstate
    (mkReader [] (mkInput (stream_version_header ++ octets [1; 2; 3; 4]) 0 true)
              empty_record (@None Stream_Sequence_Numbers)) =
  Returned 0
    (mkReader [] (mkInput (octets [1; 2; 3; 4]) (0 + 13) true)
       (mkRecord (rec_data empty_record) (rec_sequence empty_record)
          (mkVersion (at_ stream_version_header 1) (at_ stream_version_header 2))
          NO_RECORD) None).
Proof.
  split.
  - apply (proj1 (reader_version_mismatch (S := Stream_Sequence_Numbers) no_cipherstate
                    datagram_version_header [] 0 false empty_record None));
      reflexivity.
  - apply (proj2 (reader_version_mismatch (S := Stream_Sequence_Numbers) no_cipherstate
                    stream_version_header (octets [1; 2; 3; 4]) 0 true empty_record
                    None));
      reflexivity.
Defined.

(** X16 on three octets, and on a header that announces four octets and is
    followed by two. *)
Lemma dtls_short_datagram_dropped_witness :
  read_dtls_record no_cipherstate
    (mkReader [] (mkInput (octets [22; 254; 253]) 0 true) empty_record
              (@None Stream_Sequence_Numbers)) =
  Returned 0 (mkReader [] (mkInput [] (0 + size (octets [22; 254; 253])) true)
                empty_record None) /\
  read_dtls_record no_cipherstate
    (mkReader [] (mkInput (dtls_truncated_header ++ octets [1; 2]) 0 true)
              empty_record (@None Stream_Sequence_Numbers)) =
  Returned 0
    (mkReader [] (mkInput [] (0 + 13 + size (octets [1; 2])) true)
       (mkRecord (rec_data empty_record) (rec_sequence empty_record)
          (mkVersion (at_ dtls_truncated_header 1) (at_ dtls_truncated_header 2))
          NO_RECORD) None).
Proof.
  split.
  - apply (proj1 (dtls_short_datagram_dropped (S := Stream_Sequence_Numbers)
                    no_cipherstate (octets [22; 254; 253]) 0 true empty_record None)).
    vm_compute. reflexivity.
  - apply (proj2 (dtls_short_datagram_dropped (S := Stream_Sequence_Numbers)
                    no_cipherstate (dtls_truncated_header ++ octets [1; 2]) 0 true
                    empty_record None) dtls_truncated_header (octets [1; 2])).
    + reflexivity.
    + reflexivity.
    + reflexivity.
    + vm_compute. discriminate.
    + vm_compute. reflexivity.
Defined.

(* ================================================================== *)
(** * Rejected and oversized headers *)
(* ================================================================== *)

Section Header_Rejection.

Context {S : Type} {SN : Connection_Sequence_Numbers S}.
Variable gc : Z -> option Connection_Cipher_State.

(** X15.  A header that the TLS reader rejects (datagram version, length
    above [MAX_CIPHERTEXT_SIZE], length zero) stays in the read buffer, and
    nothing behind it is consumed; every later call on that reader raises
    the same alert again, whatever input it is given. *)
Theorem tls_header_rejection_is_permanent (hdr rest : list byte) (c : Z)
    (dg : bool) (rec0 : TLS_Record) (sn : option S) :
  let version := mkVersion (at_ hdr 1) (at_ hdr 2) in
  let record_size := make_uint16 (at_ hdr 3) (at_ hdr 4) in
  let alert := if is_datagram_protocol version then PROTOCOL_VERSION
               else if record_size >? MAX_CIPHERTEXT_SIZE then RECORD_OVERFLOW
               else DECODE_ERROR in
  let st' := mkReader hdr (mkInput rest (c + 5) dg)
               (mkRecord (rec_data rec0) (rec_sequence rec0) version (rec_type rec0))
               sn in
  length hdr = 5%nat ->
  is_datagram_protocol version = true \/ record_size > MAX_CIPHERTEXT_SIZE
    \/ record_size = 0 ->
  read_tls_record gc (mkReader [] (mkInput (hdr ++ rest) c dg) rec0 sn)
    = Raised (TLS_Exception alert) st' /\
  forall more,
    read_tls_record gc (feed st' more) = Raised (TLS_Exception alert) (feed st' more).
Proof.
  intros version record_size alert st' Hlen Hbad.
  destruct hdr as [|h0 [|h1 [|h2 [|h3 [|h4 [|h5 hdr]]]]]]; try discriminate Hlen.
  clear Hlen. set (hdr := [h0; h1; h2; h3; h4]) in *.
  assert (Hphase : forall (inp : list byte) (k : Z) (r : TLS_Record),
            tls_record_phase gc (mkReader hdr (mkInput inp k dg) r sn)
            = Raised (TLS_Exception alert)
                (mkReader hdr (mkInput inp k dg)
                   (mkRecord (rec_data r) (rec_sequence r) version (rec_type r)) sn)).
  { intros inp k r. unfold tls_record_phase. reader_simpl.
    fold version. fold record_size. subst alert.
    destruct (is_datagram_protocol version); [reflexivity|].
    destruct (Z.gtb_spec record_size MAX_CIPHERTEXT_SIZE) as [|Hle]; [reflexivity|].
    destruct Hbad as [Hd|[Hgt|Hz]]; [discriminate|lia|].
    rewrite Hz. reflexivity. }
  split.
  - rewrite read_tls_record_phases. unfold tls_header_phase.
    cbn [readbuf raw_input rec sequence_numbers].
    change (size (@nil byte) <? TLS_HEADER_SIZE) with true. cbv iota.
    change TLS_HEADER_SIZE with (size (@nil byte) + size hdr) at 1.
    rewrite fill_buffer_to_complete. cbn [app]. reader_simpl.
    change (0 =? 0) with true. change (size hdr =? TLS_HEADER_SIZE) with true.
    cbn [negb]. cbv iota. apply Hphase.
  - intros more. rewrite read_tls_record_phases. unfold tls_header_phase, feed, st'.
    cbn [readbuf raw_input rec sequence_numbers get_consumed is_datagram].
    change (size hdr <? TLS_HEADER_SIZE) with false. cbv iota.
    rewrite Hphase. reflexivity.
Qed.

(** X17.  A DTLS header that announces more than [MAX_CIPHERTEXT_SIZE]
    octets is dropped without an alert: the reader returns 0 with
    [NO_RECORD] and an empty buffer, has consumed the thirteen header
    octets only, and leaves the sequence numbers alone. *)
Theorem dtls_oversized_record_dropped (hdr rest : list byte) (c : Z) (dg : bool)
    (rec0 : TLS_Record) (sn : option S) :
  length hdr = 13%nat ->
  is_datagram_protocol (mkVersion (at_ hdr 1) (at_ hdr 2)) = true ->
  make_uint16 (at_ hdr 11) (at_ hdr 12) > MAX_CIPHERTEXT_SIZE ->
  read_dtls_record gc (mkReader [] (mkInput (hdr ++ rest) c dg) rec0 sn) =
  Returned 0
    (mkReader [] (mkInput rest (c + 13) dg)
       (mkRecord (rec_data rec0) (rec_sequence rec0)
                 (mkVersion (at_ hdr 1) (at_ hdr 2)) NO_RECORD) sn).
Proof.
  intros Hlen Hdg Hrs.
  destruct hdr as [|h0 [|h1 [|h2 [|h3 [|h4 [|h5 [|h6 [|h7 [|h8 [|h9 [|h10
             [|h11 [|h12 [|h13 hdr]]]]]]]]]]]]]]; try discriminate Hlen.
  clear Hlen. set (hdr := [h0; h1; h2; h3; h4; h5; h6; h7; h8; h9; h10; h11; h12]) in *.
  unfold read_dtls_record.
  cbn [readbuf raw_input rec sequence_numbers].
  change (size (@nil byte) <? DTLS_HEADER_SIZE) with true. cbv iota.
  change DTLS_HEADER_SIZE with (size (@nil byte) + size hdr) at 1.
  rewrite fill_buffer_to_complete. cbn [app]. reader_simpl.
  change (0 =? 0) with true. change (size hdr =? DTLS_HEADER_SIZE) with true.
  cbn [negb]. cbv iota. reader_simpl.
  rewrite Hdg. cbn [negb].
  destruct (Z.gtb_spec (make_uint16 (at_ hdr 11) (at_ hdr 12)) MAX_CIPHERTEXT_SIZE);
    [reflexivity|lia].
Qed.

End Header_Rejection.

(** X15 on S3, and then on S3's reader given S1. *)
Lemma tls_header_rejection_is_permanent_witness :
  exists st',
    read_tls_record no_cipherstate
      (mkReader [] (mkInput (S3_bytes ++ []) 0 false) empty_record
                (@None Stream_Sequence_Numbers))
      = Raised (TLS_Exception RECORD_OVERFLOW) st' /\
    read_tls_record no_cipherstate (feed st' S1_bytes)
      = Raised (TLS_Exception RECORD_OVERFLOW) (feed st' S1_bytes).
Proof.
  destruct (tls_header_rejection_is_permanent (S := Stream_Sequence_Numbers)
              no_cipherstate S3_bytes [] 0 false empty_record None eq_refl
              ltac:(right; left; vm_compute; reflexivity)) as [Hfirst Hlater].
  eexists. split; [exact Hfirst|]. apply Hlater.
Defined.

(** X17 on a header that announces 65535 octets. *)
Lemma dtls_oversized_record_dropped_witness :
  read_dtls_record no_cipherstate
    (mkReader [] (mkInput (dtls_oversized_header ++ octets [1; 2]) 0 true)
              empty_record (Some (mkDatagram 0 0 0))) =
  Returned 0
    (mkReader [] (mkInput (octets [1; 2]) (0 + 13) true)
       (mkRecord (rec_data empty_record) (rec_sequence empty_record)
          (mkVersion (at_ dtls_oversized_header 1) (at_ dtls_oversized_header 2))
          NO_RECORD) (Some (mkDatagram 0 0 0))).
Proof.
  apply (dtls_oversized_record_dropped no_cipherstate dtls_oversized_header
           (octets [1; 2]) 0 true empty_record (Some (mkDatagram 0 0 0))).
  - reflexivity.
  - reflexivity.
  - vm_compute. reflexivity.
Defined.

(* ================================================================== *)
(** * The reference inverse on any argument, and the fuzzer entry *)
(* ================================================================== *)

(** The reference inverse on any positive argument. *)
Lemma inverse_mod_ref_positive (x mod_ : Z) :
  Z.odd mod_ = true -> 3 <= mod_ -> 0 < x ->
  exists r, inverse_mod_ref x mod_ = Some r /\ 0 <= r < mod_ /\
            (Z.gcd x mod_ = 1 -> (x * r) mod mod_ = 1) /\
            (Z.gcd x mod_ <> 1 -> r = 0).
Proof.
  intros Hodd Hmod Hx.
  unfold inverse_mod_ref, inverse_mod_ref_fuel.
  destruct (Z.eqb_spec x 0) as [Hz|_]; [lia|].
  destruct (euclid_loop_spec x mod_ Hodd (Z.to_nat (x + mod_)) mod_ x 0 1)
    as (D' & Hloop & HD'); try lia.
  - left. exact Hodd.
  - replace (0 * x - mod_) with (- mod_) by ring.
    apply Z.divide_opp_r, Z.divide_refl.
  - replace (1 * x - x) with 0 by ring. apply Z.divide_0_r.
  - rewrite Hloop. rewrite (Z.gcd_comm x mod_).
    destruct (Z.eqb_spec (Z.gcd mod_ x) 1) as [Hg|Hg]; cbn [negb].
    + rewrite Hg in HD'.
      destruct (normalise_spec mod_ ltac:(lia) D') as (r & Hnorm & Hrange & Hdiv).
      exists r. split; [exact Hnorm|]. split; [exact Hrange|].
      split; [|intros; contradiction]. intros _.
      assert (Hone : (mod_ | x * r - 1)).
      { replace (x * r - 1) with ((r - D') * x + (D' * x - 1)) by ring.
        apply Z.divide_add_r; [apply Z.divide_mul_l; exact Hdiv|exact HD']. }
      destruct Hone as [k Hk].
      replace (x * r) with (1 + k * mod_) by lia.
      rewrite Z.mod_add by lia. apply Z.mod_small. lia.
    + exists 0. split; [reflexivity|]. split; [lia|].
      split; [intros; contradiction|reflexivity].
Qed.

(** The same from 0 on. *)
Lemma inverse_mod_ref_value (x mod_ : Z) :
  Z.odd mod_ = true -> 3 <= mod_ -> 0 <= x ->
  exists r, inverse_mod_ref x mod_ = Some r /\ 0 <= r < mod_ /\
            (x <> 0 -> Z.gcd x mod_ = 1 -> (x * r) mod mod_ = 1) /\
            (x = 0 \/ Z.gcd x mod_ <> 1 -> r = 0).
Proof.
  intros Hodd Hmod Hx.
  destruct (Z.eq_dec x 0) as [->|Hnz].
  - exists 0. split; [reflexivity|]. split; [lia|].
    split; [intros H; contradiction|reflexivity].
  - destruct (inverse_mod_ref_positive x mod_ Hodd Hmod ltac:(lia))
      as (r & Hr & Hrange & Hinv & Hzero).
    exists r. split; [exact Hr|]. split; [exact Hrange|]. split.
    + intros _. exact Hinv.
    + intros [H0|Hg]; [contradiction|apply Hzero; exact Hg].
Qed.

(** X18.  [inverse_mod_ref] needs no reduced argument: for an odd modulus
    of at least 3 and any [x >= 0] it finishes with a value in
    [[0, mod_)], which is an inverse of [x] when [x] is coprime to the
    modulus and 0 when it is not or [x = 0]. *)
Theorem inverse_mod_ref_any_argument (x mod_ : Z) :
  Z.odd mod_ = true -> 3 <= mod_ -> 0 <= x ->
  exists r, inverse_mod_ref x mod_ = Some r /\
            inverse_mod_ref (x mod mod_) mod_ = Some r /\
            0 <= r < mod_ /\
            (Z.gcd x mod_ = 1 -> (x * r) mod mod_ = 1) /\
            (Z.gcd x mod_ <> 1 -> r = 0).
Proof.
  intros Hodd Hmod Hx.
  destruct (inverse_mod_ref_value x mod_ Hodd Hmod Hx)
    as (r & Hr & Hrange & Hinv & Hzero).
  pose proof (Z.mod_pos_bound x mod_ ltac:(lia)) as Hred.
  destruct (inverse_mod_ref_value (x mod mod_) mod_ Hodd Hmod ltac:(lia))
    as (r' & Hr' & Hrange' & Hinv' & Hzero').
  assert (Hgcd : Z.gcd (x mod mod_) mod_ = Z.gcd x mod_)
    by (rewrite Z.gcd_mod by lia; apply Z.gcd_comm).
  assert (Hnz : forall y, Z.gcd y mod_ = 1 -> y <> 0).
  { intros y Hy ->. rewrite Z.gcd_0_l, Z.abs_eq in Hy by lia. lia. }
  exists r. split; [exact Hr|].
  destruct (Z.eq_dec (Z.gcd x mod_) 1) as [Hg|Hg].
  - assert (Hxr : (x * r) mod mod_ = 1) by (apply Hinv; [apply Hnz; exact Hg|exact Hg]).
    split.
    + rewrite Hr'. f_equal.
      apply (inverse_unique (x mod mod_) mod_); try assumption; try lia.
      * rewrite Z.gcd_comm, Hgcd. exact Hg.
      * apply Hinv'; [apply Hnz|]; rewrite Hgcd; exact Hg.
      * rewrite Z.mul_mod_idemp_l by lia. exact Hxr.
    + split; [exact Hrange|]. split; [intros _; exact Hxr|intros; contradiction].
  - assert (Hr0 : r = 0) by (apply Hzero; right; exact Hg).
    split.
    + rewrite Hr'. f_equal. rewrite Hr0. apply Hzero'. right. rewrite Hgcd. exact Hg.
    + split; [exact Hrange|]. split; [intros; contradiction|intros _; exact Hr0].
Qed.

Lemma inverse_is_coprime (x mod_ r : Z) :
  1 < mod_ -> (x * r) mod mod_ = 1 -> Z.gcd r mod_ = 1.
Proof.
  intros Hmod Hinv.
  pose proof (Z.div_mod (x * r) mod_ ltac:(lia)) as Hdm. rewrite Hinv in Hdm.
  apply Z.divide_1_r_nonneg; [apply Z.gcd_nonneg|].
  replace 1 with (x * r - mod_ * (x * r / mod_)) by lia.
  apply Z.divide_sub_r.
  - apply Z.divide_mul_r. apply Z.gcd_divide_l.
  - apply Z.divide_mul_l. apply Z.gcd_divide_r.
Qed.

(** X19.  The inverse of the inverse: for an odd modulus of at least 3 and
    [0 < x < mod_] coprime to it, [inverse_mod_ref] applied to its own
    result gives [x] back. *)
Theorem inverse_mod_ref_involutive (x mod_ r : Z) :
  Z.odd mod_ = true -> 3 <= mod_ -> 0 < x < mod_ -> Z.gcd x mod_ = 1 ->
  inverse_mod_ref x mod_ = Some r ->
  inverse_mod_ref r mod_ = Some x.
Proof.
  intros Hodd Hmod Hx Hgcd Href.
  destruct (inverse_mod_ref_positive x mod_ Hodd Hmod ltac:(lia))
    as (r0 & Hr0 & Hrange & Hinv & _).
  rewrite Href in Hr0. injection Hr0 as <-. specialize (Hinv Hgcd).
  assert (Hrpos : 0 < r).
  { destruct (Z.eq_dec r 0) as [->|]; [|lia].
    rewrite Z.mul_0_r, Z.mod_0_l in Hinv by lia. discriminate. }
  assert (Hrgcd : Z.gcd r mod_ = 1) by (apply (inverse_is_coprime x); [lia|exact Hinv]).
  destruct (inverse_mod_ref_positive r mod_ Hodd Hmod Hrpos)
    as (x' & Hx' & Hrange' & Hinv' & _).
  rewrite Hx'. f_equal. specialize (Hinv' Hrgcd).
  rewrite Z.mul_comm in Hinv. rewrite Z.gcd_comm in Hrgcd.
  apply (inverse_unique r mod_); try assumption; lia.
Qed.


Section Fuzzer_Run.

Variable decode : list byte -> Z.
Hypothesis decode_nonneg : forall l, 0 <= decode l.


End Fuzzer_Run.

(** X18 at 10 modulo 7. *)
Lemma inverse_mod_ref_any_argument_witness :
  exists r, inverse_mod_ref 10 7 = Some r /\
            inverse_mod_ref (10 mod 7) 7 = Some r /\
            0 <= r < 7 /\
            (Z.gcd 10 7 = 1 -> (10 * r) mod 7 = 1) /\
            (Z.gcd 10 7 <> 1 -> r = 0).
Proof.
  apply (inverse_mod_ref_any_argument 10 7).
  - reflexivity.
  - vm_compute. discriminate.
  - vm_compute. discriminate.
Defined.

(** X19 at 3 modulo 7, whose inverse is 5. *)
Lemma inverse_mod_ref_involutive_witness : inverse_mod_ref 5 7 = Some 3.
Proof.
  apply (inverse_mod_ref_involutive 3 7 5).
  - reflexivity.
  - vm_compute. discriminate.
  - vm_compute. split; reflexivity.
  - reflexivity.
  - vm_compute. reflexivity.
Defined.

